(** * dLSM write-ingest and flush pipeline: a shallow embedding

    The development follows the sources of the repository:
    - [db_impl.cc] (kept as [src/unnamed/part_002]): option sanitising,
      the lock-free write path ([Write], [PickupTableToWrite]), the flush
      worker ([CompactMemTable]), background scheduling and [DB::Open];
    - [table/block.cc] and its earlier copy [src/unnamed/part_000]:
      the [Block] constructor and [Block::NewIterator];
    - further parts of [db_impl.cc]: the files of a database ([NewDB],
      [RemoveObsoleteFiles], [DestroyDB]), recovery ([Recover],
      [RecoverLogFile]), group commit ([BuildBatchGroup]) and compaction
      ([DoCompactionWork]);
    - [db/version_edit.h]: the inline functions of [VersionEdit] and of
      [RemoteMemTableMetaData].

    Machine integers are [Z] with the wrap-around written out.  C++
    [assert]s are kept: they are checked unless the build defines
    [NDEBUG].  Shared variables that the code reads and writes with
    atomics are fields of one record; a thread is a program counter with
    its locals, and every step performs one access to the shared state. *)

From Stdlib Require Import ZArith Lia Bool String List.
From Stdlib.Strings Require Import Byte.
From stdpp Require Import base option list strings.
Import ListNotations.

#[local] Open Scope string_scope.
#[local] Open Scope Z_scope.

(** ** Machine integers *)

Module Int.

(** Value of [x] converted to an unsigned integer type of [w] bits. *)
Definition wrap (w : Z) (x : Z) : Z := x mod 2 ^ w.

(** Value of [x] converted to a signed two's complement type of [w] bits
    ([static_cast<int>] for [w = 32]). *)
Definition swrap (w : Z) (x : Z) : Z :=
  (x + 2 ^ (w - 1)) mod 2 ^ w - 2 ^ (w - 1).

Definition u64 (x : Z) : Z := wrap 64 x.
Definition u32 (x : Z) : Z := wrap 32 x.

Definition INT_MAX : Z := 2 ^ 31 - 1.
Definition INT_MIN : Z := - 2 ^ 31.

(** The integer types that occur in the sanitised options. *)
Inductive ctype := c_int | c_size_t.

(** [size_t] is 64 bits wide (LP64; the engine targets x86-64 Linux with
    RDMA verbs). *)
Definition size_t_bits : Z := 64.

Definition conv (t : ctype) (x : Z) : Z :=
  match t with
  | c_int => swrap 32 x
  | c_size_t => wrap size_t_bits x
  end.

Definition in_type (t : ctype) (x : Z) : Prop :=
  match t with
  | c_int => INT_MIN <= x <= INT_MAX
  | c_size_t => 0 <= x < 2 ^ size_t_bits
  end.

End Int.

(** ** Status *)

Inductive Status :=
| OK
| NotFound
| Corruption (msg : string)
| NotSupported (msg : string)
| InvalidArgument (msg : string)
| IOError (msg : string).

Definition ok (s : Status) : bool :=
  match s with OK => true | _ => false end.

#[global] Instance Status_eq_dec : EqDecision Status.
Proof. solve_decision. Defined.

(** ** Failures of a run

    A C++ [assert] whose condition is false aborts the process unless the
    build defines [NDEBUG]; a read outside an object or through a null
    pointer is undefined behaviour.  Both end the run. *)

Inductive Failure :=
| AssertionFailure (expr : string)
| OutOfBounds (what : string)
| NullDereference (what : string).

Inductive Result (A : Type) :=
| Val (a : A)
| Fail (f : Failure).
Arguments Val {A} a.
Arguments Fail {A} f.

Definition bind {A B} (r : Result A) (k : A -> Result B) : Result B :=
  match r with
  | Val a => k a
  | Fail f => Fail f
  end.

Notation "x <- r ;; k" := (bind r (fun x => k))
  (at level 100, r at next level, right associativity).
Notation "r ;;; k" := (bind r (fun _ => k))
  (at level 100, right associativity).

(** [assert(c)]: checked unless [NDEBUG]. *)
Definition assert_ (NDEBUG : bool) (c : bool) (expr : string) : Result unit :=
  if NDEBUG || c then Val tt else Fail (AssertionFailure expr).

Definition is_val {A} (r : Result A) : bool :=
  match r with Val _ => true | Fail _ => false end.

(** ** Option sanitising ([SanitizeOptions], db_impl.cc) *)

Module Sanitize.
Import Int.

Definition kNumNonTableCacheFiles : Z := 10.

(** [ClipToRange<T, V>(T* ptr, V minvalue, V maxvalue)].  The two
    comparisons are made on [static_cast<V>( *ptr)]; the assignments
    convert the bound back to [T]. *)
Definition ClipToRange (T V : ctype) (ptr : Z) (minvalue maxvalue : Z) : Z :=
  let ptr1 := if conv V ptr >? maxvalue then conv T maxvalue else ptr in
  let ptr2 := if conv V ptr1 <? minvalue then conv T minvalue else ptr1 in
  ptr2.

Inductive ComparatorRef := user_comparator | internal_comparator.
Inductive FilterRef := user_policy | internal_filter_policy.

(** The fields of [Options] that [SanitizeOptions] reads or writes.
    [max_open_files] is an [int]; the three sizes are [size_t]. *)
Record Options := {
  comparator : ComparatorRef;
  filter_policy : option FilterRef;
  create_if_missing : bool;
  error_if_exists : bool;
  paranoid_checks : bool;
  reuse_logs : bool;
  max_open_files : Z;
  write_buffer_size : Z;
  max_file_size : Z;
  block_size : Z;
  info_log : option string;
  block_cache : option Z
}.

(** An [Options] value a caller can build: every field within its
    type. *)
Definition well_typed (o : Options) : Prop :=
  in_type c_int (max_open_files o) /\
  in_type c_size_t (write_buffer_size o) /\
  in_type c_size_t (max_file_size o) /\
  in_type c_size_t (block_size o).

(** [new_logger] is what [env->NewLogger] yields when the caller gave no
    [info_log] ([None] when it fails); the directory is created and the
    old log renamed before, neither of which touches the options. *)
Definition SanitizeOptions (new_logger : option string) (src : Options)
  : Options :=
  {| comparator := internal_comparator;
     filter_policy :=
       match filter_policy src with
       | Some _ => Some internal_filter_policy
       | None => None
       end;
     create_if_missing := create_if_missing src;
     error_if_exists := error_if_exists src;
     paranoid_checks := paranoid_checks src;
     reuse_logs := reuse_logs src;
     max_open_files :=
       ClipToRange c_int c_int (max_open_files src)
         (64 + kNumNonTableCacheFiles) 50000;
     write_buffer_size :=
       ClipToRange c_size_t c_int (write_buffer_size src)
         (Z.shiftl 64 10) (Z.shiftl 1 30);
     max_file_size :=
       ClipToRange c_size_t c_int (max_file_size src)
         (Z.shiftl 1 20) (Z.shiftl 1 30);
     block_size :=
       ClipToRange c_size_t c_int (block_size src)
         (Z.shiftl 1 10) (Z.shiftl 4 20);
     info_log :=
       match info_log src with
       | Some l => Some l
       | None => new_logger
       end;
     block_cache :=
       match block_cache src with
       | Some c => Some c
       | None => Some (Z.shiftl 8 20)
       end |}.

(** What the documentation of the options promises: the value nearest to
    [x] within [[lo, hi]]. *)
Definition clamp (lo hi x : Z) : Z := Z.max lo (Z.min hi x).

Definition default_options : Options :=
  {| comparator := user_comparator;
     filter_policy := None;
     create_if_missing := true;
     error_if_exists := false;
     paranoid_checks := false;
     reuse_logs := false;
     max_open_files := 1000;
     write_buffer_size := 4 * 1024 * 1024;
     max_file_size := 2 * 1024 * 1024;
     block_size := 4 * 1024;
     info_log := None;
     block_cache := None |}.

End Sanitize.

(** ** Blocks (table/block.cc, and its earlier copy part_000) *)

Module Block.
Import Int.

Inductive BlockType :=
| DataBlock
| IndexBlock
| IndexBlock_Small
| FilterBlock
| Block_On_Memory_Side
| Block_On_Memory_Side_Compressed.

Inductive RdmaManagerRef := Memory_Node_Keeper_rdma_mg | Env_Default_rdma_mg.

(** [BlockContents::data], a slice of bytes. *)
Record BlockContents := { data : list byte }.

(** The members of [Block].  [restart_offset_] stays uninitialised
    ([None]) when the constructor takes an error branch. *)
Record Block := {
  data_ : list byte;
  size_ : Z;
  restart_offset_ : option Z;
  type_ : BlockType;
  rdma_mg_ : RdmaManagerRef
}.

(** What [NewIterator] hands back. *)
Inductive Iterator :=
| ErrorIterator (s : Status)
| EmptyIterator
| Iter (restarts : option Z) (num_restarts : Z).

(** One byte of the buffer at [data_ + i]; nothing when the address lies
    outside the buffer. *)
Definition byte_at (d : list byte) (i : Z) : option Z :=
  if i <? 0 then None
  else (fun b => Z.of_N (Byte.to_N b)) <$> (d !! Z.to_nat i).

(** [DecodeFixed32] (util/coding.h): four bytes, little-endian. *)
Definition DecodeFixed32 (d : list byte) (off : Z) : Result Z :=
  match byte_at d off, byte_at d (off + 1),
        byte_at d (off + 2), byte_at d (off + 3) with
  | Some b0, Some b1, Some b2, Some b3 =>
      Val (Z.lor (Z.lor (Z.lor b0 (Z.shiftl b1 8)) (Z.shiftl b2 16))
             (Z.shiftl b3 24))
  | _, _, _, _ => Fail (OutOfBounds "DecodeFixed32(data_ + size_ - 4)")
  end.

Definition sizeof_uint32_t : Z := 4.

(** [Block::NumRestarts] (the same in both copies). *)
Definition NumRestarts (NDEBUG : bool) (d : list byte) (size : Z) : Result Z :=
  assert_ NDEBUG (sizeof_uint32_t <=? size) "size_ >= sizeof(uint32_t)" ;;;
  DecodeFixed32 d (size - sizeof_uint32_t).

Definition is_index_or_filter (t : BlockType) : bool :=
  match t with
  | IndexBlock | IndexBlock_Small | FilterBlock => true
  | _ => false
  end.

Definition restart_offset_of (size n : Z) : Z :=
  u32 (u64 (size - u64 (u32 (1 + n) * sizeof_uint32_t))).

(** [Block::Block] of table/block.cc. *)
Definition Block_ctor (NDEBUG : bool) (contents : BlockContents)
    (type : BlockType) : Result Block :=
  let size0 := Z.of_nat (length (data contents)) in
  assert_ NDEBUG (is_index_or_filter type || (size0 <? 8192))
    "size_< 8192" ;;;
  sr <- (if size0 <? sizeof_uint32_t then
           Val (0, None)                       (* Error marker *)
         else
           let max_restarts_allowed :=
             (size0 - sizeof_uint32_t) / sizeof_uint32_t in
           n <- NumRestarts NDEBUG (data contents) size0 ;;
           if n >? max_restarts_allowed then
             (* The size is too small for NumRestarts() *)
             assert_ NDEBUG false "false" ;;;
             Val (0, None)
           else
             Val (size0, Some (restart_offset_of size0 n))) ;;
  Val {| data_ := data contents;
         size_ := fst sr;
         restart_offset_ := snd sr;
         type_ := type;
         rdma_mg_ :=
           match type with
           | Block_On_Memory_Side | Block_On_Memory_Side_Compressed =>
               Memory_Node_Keeper_rdma_mg
           | _ => Env_Default_rdma_mg
           end |}.

(** [Block::NewIterator] of table/block.cc: the test of the error
    marker is commented out there. *)
Definition NewIterator (NDEBUG : bool) (b : Block) : Result Iterator :=
  num_restarts <- NumRestarts NDEBUG (data_ b) (size_ b) ;;
  assert_ NDEBUG (num_restarts <=? 64 * 1024 * 1024)
    "num_restarts <= 64*1024*1024" ;;;
  if num_restarts =? 0 then Val EmptyIterator
  else Val (Iter (restart_offset_ b) num_restarts).

(** The earlier copy of the file (part_000). *)
Module Part000.

Definition Block_ctor (NDEBUG : bool) (contents : BlockContents)
    (type : BlockType) : Result Block :=
  let size0 := Z.of_nat (length (data contents)) in
  sr <- (if size0 <? sizeof_uint32_t then
           Val (0, None)                     (* Error marker *)
         else
           let max_restarts_allowed :=
             (size0 - sizeof_uint32_t) / sizeof_uint32_t in
           n <- NumRestarts NDEBUG (data contents) size0 ;;
           if n >? max_restarts_allowed then
             Val (0, None)
           else
             Val (size0, Some (restart_offset_of size0 n))) ;;
  Val {| data_ := data contents;
         size_ := fst sr;
         restart_offset_ := snd sr;
         type_ := type;
         rdma_mg_ :=
           match type with
           | Block_On_Memory_Side => Memory_Node_Keeper_rdma_mg
           | _ => Env_Default_rdma_mg
           end |}.

Definition NewIterator (NDEBUG : bool) (b : Block) : Result Iterator :=
  if size_ b <? sizeof_uint32_t then
    Val (ErrorIterator (Corruption "bad block contents"))
  else
    num_restarts <- NumRestarts NDEBUG (data_ b) (size_ b) ;;
    if num_restarts =? 0 then Val EmptyIterator
    else Val (Iter (restart_offset_ b) num_restarts).

End Part000.

(** The trailing restart count of a buffer of at least four bytes. *)
Definition trailing_restarts (d : list byte) : Result Z :=
  DecodeFixed32 d (Z.of_nat (length d) - sizeof_uint32_t).

End Block.

(** ** The engine (db_impl.cc) *)

Module DB.
Import Int.

(** *** Internal keys and MemTables *)

Inductive ValueType := kTypeDeletion | kTypeValue.

Record Entry := {
  user_key : string;
  sequence : Z;
  type : ValueType;
  value : string
}.

Inductive FlushState :=
| FLUSH_NOT_REQUESTED
| FLUSH_REQUESTED
| FLUSH_SCHEDULED
| FLUSHED.

(** Modelled from the spec: the MemTable class (db/memtable.h, .cc) is
    not among the sources.  Section 3 of the specification gives its
    members: the window [first_seq, largest_seq_supposed], the count of
    applied key-value pairs, the flush state (Open, FlushRequested,
    FlushScheduled, Flushed; nothing in db_impl.cc assigns the last one)
    and the ordered table of entries. *)
Record MemTable := {
  first_seq : Z;
  largest_seq_supposed : Z;
  kv_num : Z;
  flush_state : FlushState;
  table : list Entry
}.

Definition new_MemTable : MemTable :=
  {| first_seq := 0; largest_seq_supposed := 0; kv_num := 0;
     flush_state := FLUSH_NOT_REQUESTED; table := [] |}.

Definition SetFirstSeq (s : Z) (m : MemTable) : MemTable :=
  {| first_seq := s; largest_seq_supposed := largest_seq_supposed m;
     kv_num := kv_num m; flush_state := flush_state m; table := table m |}.

Definition SetLargestSeq (s : Z) (m : MemTable) : MemTable :=
  {| first_seq := first_seq m; largest_seq_supposed := s;
     kv_num := kv_num m; flush_state := flush_state m; table := table m |}.

Definition SetFlushState (f : FlushState) (m : MemTable) : MemTable :=
  {| first_seq := first_seq m;
     largest_seq_supposed := largest_seq_supposed m;
     kv_num := kv_num m; flush_state := f; table := table m |}.

Definition set_table (t : list Entry) (m : MemTable) : MemTable :=
  {| first_seq := first_seq m;
     largest_seq_supposed := largest_seq_supposed m;
     kv_num := kv_num m; flush_state := flush_state m; table := t |}.

(** Modelled from the spec: [increase_kv_num] of the absent MemTable
    class; "applied_kv_count (monotonic ...)", a counter that is only
    ever added to. *)
Definition increase_kv_num (n : Z) (m : MemTable) : MemTable :=
  {| first_seq := first_seq m;
     largest_seq_supposed := largest_seq_supposed m;
     kv_num := kv_num m + n; flush_state := flush_state m;
     table := table m |}.

Definition CheckFlushScheduled (m : MemTable) : bool :=
  match flush_state m with FLUSH_SCHEDULED => true | _ => false end.

(** Number of sequence numbers in the window. *)
Definition window_size (m : MemTable) : Z :=
  largest_seq_supposed m - first_seq m + 1.

(** Modelled from the spec: the member [able_to_flush] of the absent
    MemTable class; "true iff applied_kv_count == window_size -- i.e.
    every reserved seq has landed"; "derived, not set". *)
Definition able_to_flush (m : MemTable) : bool :=
  kv_num m =? window_size m.

Definition in_window (s : Z) (m : MemTable) : bool :=
  (first_seq m <=? s) && (s <=? largest_seq_supposed m).

(** Order of internal keys: ascending user key, then descending
    sequence. *)
Definition ikey_lt (a b : Entry) : bool :=
  match String.compare (user_key a) (user_key b) with
  | Lt => true
  | Eq => sequence b <? sequence a
  | Gt => false
  end.

(** Modelled from the spec: [MemTable::Add] ("adds to the ordered
    map"). *)
Fixpoint Add (e : Entry) (t : list Entry) : list Entry :=
  match t with
  | [] => [e]
  | x :: r => if ikey_lt e x then e :: x :: r else x :: Add e r
  end.

Definition visible (k : string) (snapshot : Z) (e : Entry) : bool :=
  String.eqb (user_key e) k && (sequence e <=? snapshot).

Definition answer (e : Entry) : Status * option string :=
  match type e with
  | kTypeValue => (OK, Some (value e))
  | kTypeDeletion => (NotFound, None)
  end.

(** Modelled from the spec: [MemTable::Get] ("returns the first entry at
    user_key whose sequence <= snapshot_seq").  [None] is the C++
    [false]: the table has nothing to say about the key. *)
Definition MemTable_Get (m : MemTable) (k : string) (snapshot : Z)
  : option (Status * option string) :=
  answer <$> find (visible k snapshot) (table m).

(** *** Write batches *)

Inductive Op := BatchPut (k v : string) | BatchDelete (k : string).

Record WriteBatch := { rep : list Op; batch_sequence : Z }.

Definition Count (b : WriteBatch) : Z := Z.of_nat (length (rep b)).

Definition SetSequence (b : WriteBatch) (s : Z) : WriteBatch :=
  {| rep := rep b; batch_sequence := s |}.

Definition entry_of (op : Op) (s : Z) : Entry :=
  match op with
  | BatchPut k v =>
      {| user_key := k; sequence := s; type := kTypeValue; value := v |}
  | BatchDelete k =>
      {| user_key := k; sequence := s; type := kTypeDeletion; value := "" |}
  end.

Fixpoint insert_ops (ops : list Op) (s : Z) (t : list Entry) : list Entry :=
  match ops with
  | [] => t
  | op :: r => insert_ops r (u64 (s + 1)) (Add (entry_of op s) t)
  end.

(** Modelled from the spec: [WriteBatchInternal::InsertInto]; the k-th
    operation of the batch is added with sequence [batch_sequence + k].
    A batch given as a list of operations is well formed, so the status
    is OK. *)
Definition InsertInto (b : WriteBatch) (m : MemTable) : Status * MemTable :=
  (OK, set_table (insert_ops (rep b) (batch_sequence b) (table m)) m).

(** *** Versions *)

Record FileMetaData := {
  number : Z;
  level : Z;
  entries : list Entry
}.

Record VersionEdit := {
  has_log_number_ : option Z;
  has_prev_log_number_ : option Z;
  new_files_ : list FileMetaData
}.

Definition empty_edit : VersionEdit :=
  {| has_log_number_ := None; has_prev_log_number_ := None;
     new_files_ := [] |}.

(** The part of [VersionSet] that db_impl.cc consults.
    [needs_compaction_] stands for what [NeedsCompaction()] answers. *)
Record VersionSet := {
  last_sequence_ : Z;
  next_file_number_ : Z;
  log_number_ : Z;
  prev_log_number_ : Z;
  current_ : list FileMetaData;
  needs_compaction_ : bool
}.

(** Modelled from the spec: [AssignSequnceNumbers] of the absent
    VersionSet; "reserve(n) returning the first sequence of a contiguous
    range of size n.  Atomic fetch-add." *)
Definition AssignSequnceNumbers (n : Z) (v : VersionSet) : Z * VersionSet :=
  (last_sequence_ v,
   {| last_sequence_ := u64 (last_sequence_ v + n);
      next_file_number_ := next_file_number_ v;
      log_number_ := log_number_ v;
      prev_log_number_ := prev_log_number_ v;
      current_ := current_ v;
      needs_compaction_ := needs_compaction_ v |}).

Definition NewFileNumber (v : VersionSet) : Z * VersionSet :=
  (next_file_number_ v,
   {| last_sequence_ := last_sequence_ v;
      next_file_number_ := u64 (next_file_number_ v + 1);
      log_number_ := log_number_ v;
      prev_log_number_ := prev_log_number_ v;
      current_ := current_ v;
      needs_compaction_ := needs_compaction_ v |}).

(** Modelled from the spec: [LogAndApply] of the absent VersionSet
    (section 4.5): the edit's files are added and the result is
    published as the current Version; [needs] is what NeedsCompaction
    answers for it. *)
Definition apply_edit (e : VersionEdit) (needs : bool) (v : VersionSet)
  : VersionSet :=
  {| last_sequence_ := last_sequence_ v;
     next_file_number_ := next_file_number_ v;
     log_number_ := default (log_number_ v) (has_log_number_ e);
     prev_log_number_ := default (prev_log_number_ v) (has_prev_log_number_ e);
     current_ := current_ v ++ new_files_ e;
     needs_compaction_ := needs |}.

Definition newer (a b : option Entry) : option Entry :=
  match a, b with
  | Some x, Some y => if sequence x <? sequence y then Some y else Some x
  | Some x, None => Some x
  | None, o => o
  end.

Definition newest_visible (k : string) (snapshot : Z) (es : list Entry)
  : option Entry :=
  foldr (fun e acc => if visible k snapshot e then newer (Some e) acc else acc)
        None es.

(** Modelled from the spec: [Version::Get] of the absent Version; among
    the entries of the files of the Version, "within a single user_key,
    newer sequence always wins on read". *)
Definition Version_Get (files : list FileMetaData) (k : string) (snapshot : Z)
  : Status * option string :=
  match newest_visible k snapshot (concat (entries <$> files)) with
  | Some e => answer e
  | None => (NotFound, None)
  end.

(** *** The shared state of [DBImpl]

    MemTables live in [heap]; a [MemTable*] is an index into it and
    [None] is the null pointer.  [alloc] places every new MemTable at
    a fresh index: [Ref] and [Unref] are left out here, so no table is
    deleted and no address is handed out twice.  The deletion of a
    table by its last [Unref] (lines 636 and 1535) and a [new] that is
    given the address again are added in [Reclaim].  [scheduled_]
    counts the [BGWork] items handed to [env_->Schedule] and not yet
    started;
    the three counters are the global debugging counters of the file. *)
Record DBImpl := {
  heap : list MemTable;
  mem_ : option nat;
  imm_ : option nat;
  has_imm_ : bool;
  shutting_down_ : bool;
  bg_error_ : Status;
  manual_compaction_ : bool;
  logfile_number_ : Z;
  versions_ : VersionSet;
  scheduled_ : nat;
  memtable_counter : Z;
  kv_counter0 : Z;
  kv_counter1 : Z
}.

Definition set_heap (h : list MemTable) (st : DBImpl) : DBImpl :=
  {| heap := h; mem_ := mem_ st; imm_ := imm_ st; has_imm_ := has_imm_ st;
     shutting_down_ := shutting_down_ st; bg_error_ := bg_error_ st;
     manual_compaction_ := manual_compaction_ st;
     logfile_number_ := logfile_number_ st; versions_ := versions_ st;
     scheduled_ := scheduled_ st; memtable_counter := memtable_counter st;
     kv_counter0 := kv_counter0 st; kv_counter1 := kv_counter1 st |}.

Definition set_mem (p : option nat) (st : DBImpl) : DBImpl :=
  {| heap := heap st; mem_ := p; imm_ := imm_ st; has_imm_ := has_imm_ st;
     shutting_down_ := shutting_down_ st; bg_error_ := bg_error_ st;
     manual_compaction_ := manual_compaction_ st;
     logfile_number_ := logfile_number_ st; versions_ := versions_ st;
     scheduled_ := scheduled_ st; memtable_counter := memtable_counter st;
     kv_counter0 := kv_counter0 st; kv_counter1 := kv_counter1 st |}.

Definition set_imm (p : option nat) (st : DBImpl) : DBImpl :=
  {| heap := heap st; mem_ := mem_ st; imm_ := p; has_imm_ := has_imm_ st;
     shutting_down_ := shutting_down_ st; bg_error_ := bg_error_ st;
     manual_compaction_ := manual_compaction_ st;
     logfile_number_ := logfile_number_ st; versions_ := versions_ st;
     scheduled_ := scheduled_ st; memtable_counter := memtable_counter st;
     kv_counter0 := kv_counter0 st; kv_counter1 := kv_counter1 st |}.

Definition set_has_imm (b : bool) (st : DBImpl) : DBImpl :=
  {| heap := heap st; mem_ := mem_ st; imm_ := imm_ st; has_imm_ := b;
     shutting_down_ := shutting_down_ st; bg_error_ := bg_error_ st;
     manual_compaction_ := manual_compaction_ st;
     logfile_number_ := logfile_number_ st; versions_ := versions_ st;
     scheduled_ := scheduled_ st; memtable_counter := memtable_counter st;
     kv_counter0 := kv_counter0 st; kv_counter1 := kv_counter1 st |}.

Definition set_shutting_down (b : bool) (st : DBImpl) : DBImpl :=
  {| heap := heap st; mem_ := mem_ st; imm_ := imm_ st;
     has_imm_ := has_imm_ st;
     shutting_down_ := b; bg_error_ := bg_error_ st;
     manual_compaction_ := manual_compaction_ st;
     logfile_number_ := logfile_number_ st; versions_ := versions_ st;
     scheduled_ := scheduled_ st; memtable_counter := memtable_counter st;
     kv_counter0 := kv_counter0 st; kv_counter1 := kv_counter1 st |}.

Definition set_bg_error (s : Status) (st : DBImpl) : DBImpl :=
  {| heap := heap st; mem_ := mem_ st; imm_ := imm_ st;
     has_imm_ := has_imm_ st;
     shutting_down_ := shutting_down_ st; bg_error_ := s;
     manual_compaction_ := manual_compaction_ st;
     logfile_number_ := logfile_number_ st; versions_ := versions_ st;
     scheduled_ := scheduled_ st; memtable_counter := memtable_counter st;
     kv_counter0 := kv_counter0 st; kv_counter1 := kv_counter1 st |}.

Definition set_manual_compaction (b : bool) (st : DBImpl) : DBImpl :=
  {| heap := heap st; mem_ := mem_ st; imm_ := imm_ st;
     has_imm_ := has_imm_ st;
     shutting_down_ := shutting_down_ st; bg_error_ := bg_error_ st;
     manual_compaction_ := b;
     logfile_number_ := logfile_number_ st; versions_ := versions_ st;
     scheduled_ := scheduled_ st; memtable_counter := memtable_counter st;
     kv_counter0 := kv_counter0 st; kv_counter1 := kv_counter1 st |}.

Definition set_logfile_number (n : Z) (st : DBImpl) : DBImpl :=
  {| heap := heap st; mem_ := mem_ st; imm_ := imm_ st;
     has_imm_ := has_imm_ st;
     shutting_down_ := shutting_down_ st; bg_error_ := bg_error_ st;
     manual_compaction_ := manual_compaction_ st;
     logfile_number_ := n; versions_ := versions_ st;
     scheduled_ := scheduled_ st; memtable_counter := memtable_counter st;
     kv_counter0 := kv_counter0 st; kv_counter1 := kv_counter1 st |}.

Definition set_versions (v : VersionSet) (st : DBImpl) : DBImpl :=
  {| heap := heap st; mem_ := mem_ st; imm_ := imm_ st;
     has_imm_ := has_imm_ st;
     shutting_down_ := shutting_down_ st; bg_error_ := bg_error_ st;
     manual_compaction_ := manual_compaction_ st;
     logfile_number_ := logfile_number_ st; versions_ := v;
     scheduled_ := scheduled_ st; memtable_counter := memtable_counter st;
     kv_counter0 := kv_counter0 st; kv_counter1 := kv_counter1 st |}.

Definition set_scheduled (n : nat) (st : DBImpl) : DBImpl :=
  {| heap := heap st; mem_ := mem_ st; imm_ := imm_ st;
     has_imm_ := has_imm_ st;
     shutting_down_ := shutting_down_ st; bg_error_ := bg_error_ st;
     manual_compaction_ := manual_compaction_ st;
     logfile_number_ := logfile_number_ st; versions_ := versions_ st;
     scheduled_ := n; memtable_counter := memtable_counter st;
     kv_counter0 := kv_counter0 st; kv_counter1 := kv_counter1 st |}.

Definition set_counters (c m0 m1 : Z) (st : DBImpl) : DBImpl :=
  {| heap := heap st; mem_ := mem_ st; imm_ := imm_ st;
     has_imm_ := has_imm_ st;
     shutting_down_ := shutting_down_ st; bg_error_ := bg_error_ st;
     manual_compaction_ := manual_compaction_ st;
     logfile_number_ := logfile_number_ st; versions_ := versions_ st;
     scheduled_ := scheduled_ st; memtable_counter := c;
     kv_counter0 := m0; kv_counter1 := m1 |}.

(** [p->...] for a [MemTable* p]. *)
Definition deref (st : DBImpl) (p : nat) (what : string) : Result MemTable :=
  match heap st !! p with
  | Some m => Val m
  | None => Fail (NullDereference what)
  end.

Definition deref_opt (st : DBImpl) (p : option nat) (what : string)
  : Result (nat * MemTable) :=
  match p with
  | Some q => m <- deref st q what ;; Val (q, m)
  | None => Fail (NullDereference what)
  end.

(** [p->f(...)] for a setter [f] of the MemTable. *)
Definition update (p : nat) (f : MemTable -> MemTable) (st : DBImpl) : DBImpl :=
  set_heap (alter f p (heap st)) st.

(** [new MemTable(...)] when the object is placed at a fresh address. *)
Definition alloc (m : MemTable) (st : DBImpl) : nat * DBImpl :=
  (length (heap st), set_heap (heap st ++ [m]) st).

(** *** Background errors and scheduling *)

(** [DBImpl::RecordBackgroundError]. *)
Definition RecordBackgroundError (s : Status) (st : DBImpl) : DBImpl :=
  if ok (bg_error_ st) then set_bg_error s st (* and SignalAll *)
  else st.

(** The three branches of [MaybeScheduleCompaction] that leave without
    calling [env_->Schedule]. *)
Definition nothing_to_schedule (st : DBImpl) : bool :=
  if shutting_down_ st then true
  else if negb (ok (bg_error_ st)) then true
  else if (bool_decide (imm_ st = None)) && negb (manual_compaction_ st)
          && negb (needs_compaction_ (versions_ st)) then true
  else false.

(** [DBImpl::MaybeScheduleCompaction]. *)
Definition MaybeScheduleCompaction (st : DBImpl) : DBImpl :=
  if shutting_down_ st then
    st   (* DB is being deleted; no more background compactions *)
  else if negb (ok (bg_error_ st)) then
    st   (* Already got an error; no more changes *)
  else if (bool_decide (imm_ st = None)) && negb (manual_compaction_ st)
          && negb (needs_compaction_ (versions_ st)) then
    st   (* No work to be done *)
  else
    set_scheduled (S (scheduled_ st)) st.   (* env_->Schedule(&BGWork, this) *)

(** *** Reads *)

(** [DBImpl::Get].  [snapshot] is [options.snapshot] ([None] when
    null); [seek_stats] is what [current->UpdateStats(stats)] answers
    when the Version was consulted. *)
Definition Get (st : DBImpl) (snapshot : option Z) (key : string)
    (seek_stats : bool) : Result (DBImpl * (Status * option string)) :=
  let snapshot := default (last_sequence_ (versions_ st)) snapshot in
  mem <- deref_opt st (mem_ st) "mem->Ref()" ;;
  let imm := imm_ st in
  let current := current_ (versions_ st) in
  match MemTable_Get (snd mem) key snapshot with
  | Some r => Val (st, r)
  | None =>
      found <- match imm with
               | Some i => m <- deref st i "imm->Get" ;;
                           Val (MemTable_Get m key snapshot)
               | None => Val None
               end ;;
      match found with
      | Some r => Val (st, r)
      | None =>
          let r := Version_Get current key snapshot in
          Val (if seek_stats then MaybeScheduleCompaction st else st, r)
      end
  end.

(** *** The write path: [DBImpl::Write] and [PickupTableToWrite]

    A writer is a program counter with the locals that are live there.
    The comments give the lines of db_impl.cc (part_002) whose access to
    the shared state the step performs; tests on locals that follow the
    access are part of the step. *)

Inductive WritePC :=
| Write_entry                                             (* 1357-1361 *)
| Pickup_load_mem (seq_num : Z)                           (* 1486, 1539 *)
| Pickup_load_imm (seq_num : Z) (mem_r : nat)             (* 1491, 1507-1514 *)
| Pickup_wait (seq_num : Z) (mem_r : nat)                 (* 1502 *)
| Pickup_set_flush (seq_num : Z) (mem_r temp_mem : nat)   (* 1515 *)
| Pickup_cas (seq_num : Z) (mem_r temp_mem : nat)         (* 1520 *)
| Pickup_won (seq_num : Z) (mem_r temp_mem : nat)         (* 1521-1524 *)
| Pickup_assert_imm (seq_num : Z) (mem_r temp_mem : nat)  (* 1529 *)
| Pickup_store_imm (seq_num : Z) (mem_r temp_mem : nat)   (* 1530 *)
| Pickup_schedule (seq_num : Z) (temp_mem : nat)          (* 1531-1533 *)
| Search_load_imm (seq_num : Z)                           (* 1551 *)
| Search_check (seq_num : Z) (mem_r : option nat)         (* 1552-1557 *)
| Write_after_pickup (sequence : Z) (status : Status) (mem : nat)
                                                          (* 1375-1387 *)
| Write_increase (mem : nat) (status : Status)            (* 1388 *)
| Write_exit (status : Status)                            (* 1393 *)
| Write_returned (status : Status).                       (* 1400 *)

(** *** The flush worker: [BGWork], [BackgroundCall],
    [BackgroundCompaction], [CompactMemTable] *)

(** What the collaborators outside db_impl.cc answer during one flush:
    the status of [BuildTable], the level chosen by
    [PickLevelForMemTableOutput], the status of [LogAndApply] and what
    [NeedsCompaction] says of the Version it publishes. *)
Record FlushEnv := {
  build_status : Status;
  picked_level : Z;
  apply_status : Status;
  needs_compaction_after : bool
}.

Inductive BGPC :=
| BG_entry                                          (* 756-761, 775 *)
| Compact_load                                      (* 595-602 *)
| Compact_spin (imm : nat) (counter : Z)            (* 605-613 *)
| Compact_set_state (imm : nat)                     (* 614 *)
| Compact_write (imm : nat)                         (* 615-617 *)
| Compact_check_shutdown (s : Status) (edit : VersionEdit)  (* 619-621 *)
| Compact_apply (s : Status) (edit : VersionEdit)   (* 624-628 *)
| Compact_finish (s : Status)                       (* 630-641, 647 *)
| Compact_signal                                    (* 642-643 *)
| BG_reschedule                                     (* 768 *)
| BG_returned.

Section Engine.

(** [MEMTABLE_SEQ_SIZE] is a macro defined outside the sources at
    hand; [NDEBUG] tells whether assertions are compiled out. *)
Context (MEMTABLE_SEQ_SIZE : Z) (NDEBUG : bool).

#[local] Abbreviation assert := (assert_ NDEBUG).

(** The test of the second loop (line 1546). *)
Definition search_head (seq_num : Z) (mem_r : nat) (m : MemTable)
  : WritePC :=
  if (seq_num >=? first_seq m) && (seq_num <=? largest_seq_supposed m)
  then Write_after_pickup seq_num OK mem_r          (* return s *)
  else Search_load_imm seq_num.

(** The test of the first loop (line 1488). *)
Definition loop_head (seq_num : Z) (mem_r : nat) (m : MemTable)
  : WritePC :=
  if seq_num >? largest_seq_supposed m
  then Pickup_load_imm seq_num mem_r
  else search_head seq_num mem_r m.

(** The MemTable a rotation creates (lines 1508-1513). *)
Definition next_MemTable (last_mem_seq : Z) : MemTable :=
  SetLargestSeq (u64 (last_mem_seq + MEMTABLE_SEQ_SIZE))
    (SetFirstSeq (u64 (last_mem_seq + 1)) new_MemTable).

Definition write_step (updates : option WriteBatch) (st : DBImpl)
    (pc : WritePC) : Result (DBImpl * WritePC) :=
  match pc with
  | Write_entry =>
      match updates with
      | None => Fail (NullDereference "WriteBatchInternal::Count(updates)")
      | Some b =>
          let kv_num := Count b in
          assert (kv_num =? 1) "kv_num == 1" ;;;
          let '(sequence, v) := AssignSequnceNumbers kv_num (versions_ st) in
          Val (set_counters (memtable_counter st) (kv_counter0 st + 1)
                 (kv_counter1 st) (set_versions v st),
               Pickup_load_mem sequence)
      end
  | Pickup_load_mem seq_num =>
      mem_r <- deref_opt st (mem_ st) "mem_r->Getlargest_seq_supposed()" ;;
      Val (st, loop_head seq_num (fst mem_r) (snd mem_r))
  | Pickup_load_imm seq_num mem_r =>
      m <- deref st mem_r "mem_r" ;;
      match imm_ st with
      | Some _ =>
          assert (seq_num >? first_seq m) "seq_num > mem_r->GetFirstseq()" ;;;
          Val (st, Pickup_wait seq_num mem_r)
      | None =>
          assert (prev_log_number_ (versions_ st) =? 0)
            "versions_->PrevLogNumber() == 0" ;;;
          let '(temp_mem, st1) :=
            alloc (next_MemTable (largest_seq_supposed m)) st in
          Val (st1, Pickup_set_flush seq_num mem_r temp_mem)
      end
  | Pickup_wait seq_num mem_r =>
      (* woken up: line 1539 and the loop test *)
      Val (st, Pickup_load_mem seq_num)
  | Pickup_set_flush seq_num mem_r temp_mem =>
      _ <- deref st mem_r "mem_r->SetFlushState" ;;
      Val (update mem_r (SetFlushState FLUSH_REQUESTED) st,
           Pickup_cas seq_num mem_r temp_mem)
  | Pickup_cas seq_num mem_r temp_mem =>
      if bool_decide (mem_ st = Some mem_r) then
        Val (set_mem (Some temp_mem) st, Pickup_won seq_num mem_r temp_mem)
      else
        (* temp_mem->Unref(); line 1539 *)
        Val (st, Pickup_load_mem seq_num)
  | Pickup_won seq_num mem_r temp_mem =>
      Val (set_has_imm true
             (set_counters (memtable_counter st + 1) (kv_counter0 st)
                (kv_counter1 st) st),
           Pickup_assert_imm seq_num mem_r temp_mem)
  | Pickup_assert_imm seq_num mem_r temp_mem =>
      assert (bool_decide (imm_ st = None)) "imm_.load() == nullptr" ;;;
      Val (st, Pickup_store_imm seq_num mem_r temp_mem)
  | Pickup_store_imm seq_num mem_r temp_mem =>
      Val (set_imm (Some mem_r) st, Pickup_schedule seq_num temp_mem)
  | Pickup_schedule seq_num temp_mem =>
      (* mem_r = temp_mem; return s; *)
      Val (MaybeScheduleCompaction st, Write_after_pickup seq_num OK temp_mem)
  | Search_load_imm seq_num =>
      Val (st, Search_check seq_num (imm_ st))
  | Search_check seq_num mem_r =>
      assert (negb (bool_decide (imm_ st = None))) "imm_.load()!= nullptr" ;;;
      pm <- deref_opt st mem_r "mem_r->Get_kv_num()" ;;
      assert (u64 (MEMTABLE_SEQ_SIZE - kv_num (snd pm)) <=? 4)
        "MEMTABLE_SEQ_SIZE - mem_r->Get_kv_num() <= 4" ;;;
      Val (st, search_head seq_num (fst pm) (snd pm))
  | Write_after_pickup sequence status mem =>
      if ok status then
        match updates with
        | None =>
            assert false "updates != nullptr" ;;;
            Fail (NullDereference "WriteBatchInternal::SetSequence(updates)")
        | Some b =>
            let b := SetSequence b sequence in
            m <- deref st mem "mem" ;;
            assert ((sequence <=? largest_seq_supposed m)
                    && (sequence >=? first_seq m))
              "sequence <= mem->Getlargest_seq_supposed() && sequence >= mem->GetFirstseq()" ;;;
            Val (update mem (fun m => snd (InsertInto b m)) st,
                 Write_increase mem (fst (InsertInto b m)))
        end
      else
        (* printf("Weird status not OK"); *)
        assert false "0==1" ;;;
        Val (st, Write_exit status)
  | Write_increase mem status =>
      _ <- deref st mem "mem->increase_kv_num" ;;
      Val (update mem (increase_kv_num (from_option Count 0 updates)) st,
           Write_exit status)
  | Write_exit status =>
      Val (set_counters (memtable_counter st) (kv_counter0 st)
             (kv_counter1 st + 1) st,
           Write_returned status)
  | Write_returned status => Val (st, Write_returned status)
  end.

(** [DBImpl::WriteLevel0Table] as called by the flush: a file number
    is taken, the table is built from the MemTable's entries, and a
    table that was built and is not empty ([meta.file_size > 0]) is
    added to the edit.  The number enters and leaves
    [pending_outputs_] within the call; the statistics are left out. *)
Definition WriteLevel0Table (env : FlushEnv) (mem : MemTable)
    (edit : VersionEdit) (st : DBImpl) : DBImpl * (Status * VersionEdit) :=
  let '(number, v) := NewFileNumber (versions_ st) in
  let s := build_status env in
  let edit1 :=
    if ok s && negb (bool_decide (table mem = [])) then
      {| has_log_number_ := has_log_number_ edit;
         has_prev_log_number_ := has_prev_log_number_ edit;
         new_files_ := new_files_ edit ++
           [{| number := number; level := picked_level env;
               entries := table mem |}] |}
    else edit in
  (set_versions v st, (s, edit1)).

(** [versions_->LogAndApply(&edit, &mutex_)]; [s] is the status it
    answers with. *)
Definition LogAndApply (s : Status) (needs : bool) (edit : VersionEdit)
    (st : DBImpl) : DBImpl * Status :=
  if ok s then (set_versions (apply_edit edit needs (versions_ st)) st, s)
  else (st, s).

Definition bg_step (env : FlushEnv) (st : DBImpl) (pc : BGPC)
  : Result (DBImpl * BGPC) :=
  match pc with
  | BG_entry =>
      if shutting_down_ st then
        Val (st, BG_reschedule)  (* No more background work when shutting down. *)
      else if negb (ok (bg_error_ st)) then
        Val (st, BG_reschedule)  (* No more background work after a background error. *)
      else if negb (bool_decide (imm_ st = None)) then
        Val (st, Compact_load)
      else Val (st, BG_reschedule)
  | Compact_load =>
      assert (negb (bool_decide (imm_ st = None))) "imm != nullptr" ;;;
      imm <- deref_opt st (imm_ st) "imm->able_to_flush" ;;
      assert (negb (CheckFlushScheduled (snd imm)))
        "!imm->CheckFlushScheduled()" ;;;
      Val (st, Compact_spin (fst imm) 0)
  | Compact_spin imm counter =>
      m <- deref st imm "imm->able_to_flush" ;;
      if able_to_flush m then Val (st, Compact_set_state imm)
      else
        (* usleep(1); every tenth round Memtable_full_cv.SignalAll() *)
        Val (st, Compact_spin imm (if counter + 1 =? 10 then 0 else counter + 1))
  | Compact_set_state imm =>
      _ <- deref st imm "imm->SetFlushState" ;;
      Val (update imm (SetFlushState FLUSH_SCHEDULED) st, Compact_write imm)
  | Compact_write imm =>
      m <- deref_opt st (imm_ st) "mem->NewIterator()" ;;
      let '(st1, (s, edit)) := WriteLevel0Table env (snd m) empty_edit st in
      Val (st1, Compact_check_shutdown s edit)
  | Compact_check_shutdown s edit =>
      if ok s && shutting_down_ st then
        Val (st, Compact_apply
                   (IOError "Deleting DB during memtable compaction") edit)
      else Val (st, Compact_apply s edit)
  | Compact_apply s edit =>
      if ok s then
        let edit1 :=
          {| has_log_number_ := Some (logfile_number_ st);
             has_prev_log_number_ := Some 0;
             new_files_ := new_files_ edit |} in
        let '(st1, s1) :=
          LogAndApply (apply_status env) (needs_compaction_after env) edit1 st in
        Val (st1, Compact_finish s1)
      else Val (st, Compact_finish s)
  | Compact_finish s =>
      if ok s then
        (* Commit to the new state *)
        _ <- deref_opt st (imm_ st) "imm->Unref()" ;;
        Val (set_imm None st, Compact_signal)
      else
        Val (RecordBackgroundError s st, BG_reschedule)
  | Compact_signal =>
      (* Memtable_full_cv.SignalAll(); *)
      Val (set_has_imm false st, BG_reschedule)
  | BG_reschedule =>
      Val (MaybeScheduleCompaction st, BG_returned)
  | BG_returned => Val (st, BG_returned)
  end.

(** The status with which [CompactMemTable] reaches line 630 when the
    table cannot be built or shutdown is seen right after building it. *)
Definition flush_status (env : FlushEnv) (st : DBImpl) : Status :=
  if ok (build_status env) && shutting_down_ st
  then IOError "Deleting DB during memtable compaction"
  else build_status env.

(** Whether the statuses a writer carries in its locals are all OK. *)
Definition carries_OK (pc : WritePC) : Prop :=
  match pc with
  | Write_after_pickup _ s _ | Write_increase _ s
  | Write_exit s | Write_returned s => s = OK
  | _ => True
  end.

(** *** Calls run by one thread on its own

    A call is the run of its thread with no other thread taking a
    step in between.  A thread that reaches [Memtable_full_cv.Wait()]
    or spins on [able_to_flush] then never leaves: the call is
    [Blocked]. *)

Inductive Outcome (A : Type) :=
| Returned (st : DBImpl) (a : A)
| Blocked (st : DBImpl)
| Aborted (f : Failure)
| OutOfFuel.
#[global] Arguments Returned {A} st a.
#[global] Arguments Blocked {A} st.
#[global] Arguments Aborted {A} f.
#[global] Arguments OutOfFuel {A}.

(** [PickupTableToWrite]: from line 1486 to one of its [return s]. *)
Fixpoint run_pickup (fuel : nat) (st : DBImpl) (pc : WritePC)
  : Outcome (Status * nat) :=
  match pc with
  | Write_after_pickup _ s mem_r => Returned st (s, mem_r)
  | Pickup_wait _ _ => Blocked st
  | _ =>
      match fuel with
      | O => OutOfFuel
      | S n =>
          match write_step None st pc with
          | Val (st1, pc1) => run_pickup n st1 pc1
          | Fail f => Aborted f
          end
      end
  end.

Definition PickupTableToWrite (st : DBImpl) (seq_num : Z)
  : Outcome (Status * nat) :=
  run_pickup 16 st (Pickup_load_mem seq_num).

Fixpoint run_write (fuel : nat) (updates : option WriteBatch)
    (st : DBImpl) (pc : WritePC) : Outcome Status :=
  match pc with
  | Write_returned s => Returned st s
  | Pickup_wait _ _ => Blocked st
  | _ =>
      match fuel with
      | O => OutOfFuel
      | S n =>
          match write_step updates st pc with
          | Val (st1, pc1) => run_write n updates st1 pc1
          | Fail f => Aborted f
          end
      end
  end.

(** [DBImpl::Write]. *)
Definition Write (st : DBImpl) (updates : option WriteBatch)
  : Outcome Status :=
  run_write 24 updates st Write_entry.

(** [DB::Put] and [DB::Delete]. *)
Definition Put (st : DBImpl) (key value : string) : Outcome Status :=
  Write st (Some {| rep := [BatchPut key value]; batch_sequence := 0 |}).

Definition Delete (st : DBImpl) (key : string) : Outcome Status :=
  Write st (Some {| rep := [BatchDelete key]; batch_sequence := 0 |}).

Definition spinning (st : DBImpl) (pc : BGPC) : bool :=
  match pc with
  | Compact_spin imm _ =>
      match heap st !! imm with
      | Some m => negb (able_to_flush m)
      | None => false
      end
  | _ => false
  end.

Fixpoint run_bg (fuel : nat) (stop : BGPC -> bool) (env : FlushEnv)
    (st : DBImpl) (pc : BGPC) : Outcome unit :=
  if stop pc then Returned st tt
  else if spinning st pc then Blocked st
  else
    match fuel with
    | O => OutOfFuel
    | S n =>
        match bg_step env st pc with
        | Val (st1, pc1) => run_bg n stop env st1 pc1
        | Fail f => Aborted f
        end
    end.

Definition CompactMemTable_returned (pc : BGPC) : bool :=
  match pc with BG_reschedule | BG_returned => true | _ => false end.

Definition BackgroundCall_returned (pc : BGPC) : bool :=
  match pc with BG_returned => true | _ => false end.

(** [DBImpl::CompactMemTable]. *)
Definition CompactMemTable (env : FlushEnv) (st : DBImpl) : Outcome unit :=
  run_bg 16 CompactMemTable_returned env st Compact_load.

(** [DBImpl::BackgroundCall]. *)
Definition BackgroundCall (env : FlushEnv) (st : DBImpl) : Outcome unit :=
  run_bg 16 BackgroundCall_returned env st BG_entry.

(** *** [DB::Open] *)

(** What [Recover] and the environment answer during [Open]. *)
Record OpenEnv := {
  recover_status : Status;
  recover_save_manifest : bool;
  recover_mem : option (list Entry);  (* mem_ when the last log is reused *)
  recover_logfile_number : Z;
  recover_versions : VersionSet;
  recover_edit : VersionEdit;
  new_log_status : Status;            (* NewWritableFile *)
  open_apply_status : Status;         (* LogAndApply *)
  open_needs_compaction : bool
}.

(** The constructor of [DBImpl] followed by the effects of [Recover]. *)
Definition after_Recover (env : OpenEnv) : DBImpl :=
  {| heap := match recover_mem env with
             | Some es => [set_table es new_MemTable]
             | None => []
             end;
     mem_ := match recover_mem env with Some _ => Some 0%nat | None => None end;
     imm_ := None;
     has_imm_ := false;
     shutting_down_ := false;
     bg_error_ := OK;
     manual_compaction_ := false;
     logfile_number_ :=
       match recover_mem env with
       | Some _ => recover_logfile_number env
       | None => 0
       end;
     versions_ := recover_versions env;
     scheduled_ := 0;
     memtable_counter := 0; kv_counter0 := 0; kv_counter1 := 0 |}.

(** Lines 1810-1826: when [Recover] left [mem_] null, a new log and
    a MemTable for the window that starts at 0. *)
Definition Open_create_memtable (env : OpenEnv)
  : DBImpl * Status * VersionEdit :=
  let impl := after_Recover env in
  let s := recover_status env in
  let edit := recover_edit env in
  if ok s && bool_decide (mem_ impl = None) then
    (* Create new log and a corresponding memtable. *)
    let '(new_log_number, v) := NewFileNumber (versions_ impl) in
    let impl := set_versions v impl in
    let s := new_log_status env in
    if ok s then
      let edit :=
        {| has_log_number_ := Some new_log_number;
           has_prev_log_number_ := has_prev_log_number_ edit;
           new_files_ := new_files_ edit |} in
      let impl := set_logfile_number new_log_number impl in
      let '(p, impl) := alloc new_MemTable impl in
      let impl := set_mem (Some p) impl in
      let impl := update p (SetFirstSeq 0) impl in
      let impl := update p (SetLargestSeq (u64 (MEMTABLE_SEQ_SIZE - 1))) impl in
      (impl, s, edit)
    else (impl, s, edit)
  else (impl, s, edit).

(** Lines 1827-1831. *)
Definition Open_save_manifest (env : OpenEnv) (impl : DBImpl) (s : Status)
    (edit : VersionEdit) : DBImpl * Status :=
  if ok s && recover_save_manifest env then
    let edit :=
      {| has_log_number_ := Some (logfile_number_ impl);
         has_prev_log_number_ := Some 0;
         new_files_ := new_files_ edit |} in
    LogAndApply (open_apply_status env) (open_needs_compaction env) edit impl
  else (impl, s).

Definition Open (env : OpenEnv) : Result (Status * option DBImpl) :=
  let '(impl, s, edit) := Open_create_memtable env in
  let '(impl, s) := Open_save_manifest env impl s edit in
  (* RemoveObsoleteFiles() touches files only *)
  let impl := if ok s then MaybeScheduleCompaction impl else impl in
  if ok s then
    assert (negb (bool_decide (mem_ impl = None))) "impl->mem_ != nullptr" ;;;
    Val (s, Some impl)
  else Val (s, None).

(** *** Threads running side by side *)

Inductive Thread :=
| Writer (updates : option WriteBatch) (pc : WritePC)
| Flusher (env : FlushEnv) (pc : BGPC).

Definition thread_step (st : DBImpl) (t : Thread) : Result (DBImpl * Thread) :=
  match t with
  | Writer updates pc =>
      r <- write_step updates st pc ;; Val (fst r, Writer updates (snd r))
  | Flusher env pc =>
      r <- bg_step env st pc ;; Val (fst r, Flusher env (snd r))
  end.

Record System := { db : DBImpl; threads : list Thread }.

(** What can happen next: a thread takes its step, a client calls
    [Write] or [Get], the environment starts a scheduled [BGWork], or
    the destructor raises [shutting_down_]. *)
Inductive Action :=
| Run (i : nat)
| CallWrite (updates : option WriteBatch)
| CallGet (snapshot : option Z) (key : string) (seek_stats : bool)
| StartBGWork (env : FlushEnv)
| Shutdown.

Definition act (a : Action) (s : System) : option System :=
  match a with
  | Run i =>
      match threads s !! i with
      | Some t =>
          match thread_step (db s) t with
          | Val (st, t1) => Some {| db := st; threads := <[i := t1]> (threads s) |}
          | Fail _ => None
          end
      | None => None
      end
  | CallWrite updates =>
      Some {| db := db s; threads := threads s ++ [Writer updates Write_entry] |}
  | CallGet snapshot key seek_stats =>
      match Get (db s) snapshot key seek_stats with
      | Val (st, _) => Some {| db := st; threads := threads s |}
      | Fail _ => None
      end
  | StartBGWork env =>
      match scheduled_ (db s) with
      | S n => Some {| db := set_scheduled n (db s);
                       threads := threads s ++ [Flusher env BG_entry] |}
      | O => None
      end
  | Shutdown =>
      Some {| db := set_shutting_down true (db s); threads := threads s |}
  end.

Definition sys_step (s s1 : System) : Prop := exists a, act a s = Some s1.

(** A schedule is a list of actions, taken from left to right. *)
Fixpoint schedule (l : list Action) (s : System) : option System :=
  match l with
  | [] => Some s
  | a :: r => match act a s with Some s1 => schedule r s1 | None => None end
  end.

(** The MemTable installed by a step, if the step changed [mem_]. *)
Definition installed (s s1 : System) : list nat :=
  if bool_decide (mem_ (db s1) = mem_ (db s)) then []
  else match mem_ (db s1) with Some p => [p] | None => [] end.

(** Executions from [s0], with the MemTables that rotations installed
    on the way, oldest first. *)
Inductive execution (s0 : System) : list nat -> System -> Prop :=
| execution_start : execution s0 [] s0
| execution_step h s s1 :
    execution s0 h s -> sys_step s s1 ->
    execution s0 (h ++ installed s s1) s1.

(** The MemTables installed along a schedule. *)
Fixpoint history (l : list Action) (s : System) : list nat :=
  match l with
  | [] => []
  | a :: r =>
      match act a s with
      | Some s1 => (installed s s1 ++ history r s1)%list
      | None => []
      end
  end.

(** *** Notions used to state the invariants *)

(** A MemTable at a later time: same window, no fewer applied
    key-value pairs. *)
Definition cell_le (m m1 : MemTable) : Prop :=
  first_seq m1 = first_seq m /\
  largest_seq_supposed m1 = largest_seq_supposed m /\
  kv_num m <= kv_num m1.

Definition heap_le (h h1 : list MemTable) : Prop :=
  forall p m, h !! p = Some m -> exists m1, h1 !! p = Some m1 /\ cell_le m m1.

(** The window of [b] is the one line 1510 and line 1513 compute from
    the window of [a]. *)
Definition next_window (st : DBImpl) (a b : nat) : Prop :=
  exists ma mb,
    heap st !! a = Some ma /\ heap st !! b = Some mb /\
    first_seq mb = u64 (largest_seq_supposed ma + 1) /\
    largest_seq_supposed mb
      = u64 (largest_seq_supposed ma + MEMTABLE_SEQ_SIZE).

(** A writer between line 1515 and line 1520 holds the table it read
    from [mem_] and the table it wants to install. *)
Definition rotating (t : Thread) : option (nat * nat) :=
  match t with
  | Writer _ (Pickup_set_flush _ a b) | Writer _ (Pickup_cas _ a b) =>
      Some (a, b)
  | _ => None
  end.

(** A flush worker at line 614 holds the table it has waited for. *)
Definition about_to_schedule (t : Thread) : option nat :=
  match t with
  | Flusher _ (Compact_set_state imm) => Some imm
  | _ => None
  end.

Definition past_FlushRequested (m : MemTable) : Prop :=
  flush_state m = FLUSH_SCHEDULED \/ flush_state m = FLUSHED.

(** No MemTable of [h1] is past FlushRequested unless it already was
    in [h]. *)
Definition no_new_scheduled (h h1 : list MemTable) : Prop :=
  forall p m1, h1 !! p = Some m1 -> past_FlushRequested m1 ->
    exists m, h !! p = Some m /\ past_FlushRequested m.

(** Every sequence number of the window of the MemTable at [p] has
    been applied. *)
Definition complete (st : DBImpl) (p : nat) : Prop :=
  exists m, heap st !! p = Some m /\ window_size m <= kv_num m.

(** A thread that has not taken a step yet. *)
Definition just_started (t : Thread) : Prop :=
  match t with
  | Writer _ Write_entry | Flusher _ BG_entry => True
  | _ => False
  end.

(** A database just opened, before any call. *)
Definition opened (s0 : System) : Prop :=
  threads s0 = [] /\ exists env, Open env = Val (OK, Some (db s0)).

End Engine.

End DB.

(** * Inputs used in examples *)

Module Examples.
Import Sanitize DB.

(** The caller's options with one size replaced. *)
Definition with_write_buffer_size (n : Z) : Options :=
  {| comparator := comparator default_options;
     filter_policy := filter_policy default_options;
     create_if_missing := create_if_missing default_options;
     error_if_exists := error_if_exists default_options;
     paranoid_checks := paranoid_checks default_options;
     reuse_logs := reuse_logs default_options;
     max_open_files := max_open_files default_options;
     write_buffer_size := n;
     max_file_size := max_file_size default_options;
     block_size := block_size default_options;
     info_log := info_log default_options;
     block_cache := block_cache default_options |}.

Definition fresh_versions : VersionSet :=
  {| last_sequence_ := 0; next_file_number_ := 2; log_number_ := 0;
     prev_log_number_ := 0; current_ := []; needs_compaction_ := false |}.

(** The answers of [Recover] on a database that [NewDB] has just
    created. *)
Definition fresh_env : OpenEnv :=
  {| recover_status := OK; recover_save_manifest := false;
     recover_mem := None; recover_logfile_number := 0;
     recover_versions := fresh_versions; recover_edit := empty_edit;
     new_log_status := OK; open_apply_status := OK;
     open_needs_compaction := false |}.

Definition fresh_db (MEMTABLE_SEQ_SIZE : Z) : DBImpl :=
  match Open MEMTABLE_SEQ_SIZE false fresh_env with
  | Val (_, Some impl) => impl
  | _ => after_Recover fresh_env
  end.

Definition state_of {A} (o : Outcome A) (d : DBImpl) : DBImpl :=
  match o with
  | Returned st _ | Blocked st => st
  | _ => d
  end.

(** The state after a series of [Put]s, each run to its end before the
    next one starts. *)
Definition puts (MEMTABLE_SEQ_SIZE : Z) (kvs : list (string * string))
    (d : DBImpl) : DBImpl :=
  foldl (fun d kv => state_of (Put MEMTABLE_SEQ_SIZE false d kv.1 kv.2) d)
        d kvs.

(** With a window of two sequence numbers: the first MemTable full and
    still mutable; and, one [Put] later, the same table immutable,
    waiting for its flush. *)
Definition db_full : DBImpl :=
  puts 2 [("a", "1"); ("b", "2")] (fresh_db 2).

Definition db_rotated : DBImpl :=
  puts 2 [("a", "1"); ("b", "2"); ("c", "3")] (fresh_db 2).

Definition good_flush : FlushEnv :=
  {| build_status := OK; picked_level := 0; apply_status := OK;
     needs_compaction_after := false |}.

Definition failing_build : FlushEnv :=
  {| build_status := Corruption "bad table"; picked_level := 0;
     apply_status := OK; needs_compaction_after := false |}.

(** The state in which the flush of [db_rotated] has failed: the
    Corruption reported by the build is latched in [bg_error_]. *)
Definition db_flush_failed : DBImpl :=
  state_of (CompactMemTable false failing_build db_rotated) db_rotated.

Definition put (k v : string) : option WriteBatch :=
  Some {| rep := [BatchPut k v]; batch_sequence := 0 |}.

(** Schedules.  The database has just been opened, with a window of two
    sequence numbers; thread [i] is the [i]-th one started. *)
Definition start : System := {| db := fresh_db 2; threads := [] |}.

Definition steps (i n : nat) : list Action := replicate n (Run i).

Definition after (ndebug : bool) (l : list Action) : System :=
  default start (schedule 2 ndebug l start).

(** Two writes run to their end: the first MemTable is full. *)
Definition two_writes : list Action :=
  (CallWrite (put "a" "1") :: steps 0 5) ++
  (CallWrite (put "b" "2") :: steps 1 5).

(** A third write rotates and runs to its end, then a flush worker
    starts and runs to its end. *)
Definition rotate_and_flush : list Action :=
  two_writes ++ (CallWrite (put "c" "3") :: steps 2 12) ++
  (StartBGWork good_flush :: steps 3 10).

(** The same, with the flush worker stopped in front of line 614. *)
Definition rotate_and_wait : list Action :=
  two_writes ++ (CallWrite (put "c" "3") :: steps 2 12) ++
  (StartBGWork good_flush :: steps 3 3).

(** The third write is stopped right after its compare-and-swap of line
    1520, before line 1530 stores the old table into [imm_]. *)
Definition rotate_half_way : list Action :=
  two_writes ++ (CallWrite (put "c" "3") :: steps 2 5).

(** Five writers reserve the sequence numbers 0 to 4 and stop; the one
    that holds 4 then runs [PickupTableToWrite] to its end. *)
Definition five_reservations : list Action :=
  [CallWrite (put "a" "1"); Run 0; CallWrite (put "b" "2"); Run 1;
   CallWrite (put "c" "3"); Run 2; CallWrite (put "d" "4"); Run 3;
   CallWrite (put "e" "5"); Run 4].

Definition late_writer_first : list Action :=
  five_reservations ++ steps 4 8.

(** A database reopened after its last sequence number reached 4. *)
Definition reopened_env : OpenEnv :=
  {| recover_status := OK; recover_save_manifest := false;
     recover_mem := None; recover_logfile_number := 0;
     recover_versions :=
       {| last_sequence_ := 4; next_file_number_ := 7; log_number_ := 5;
          prev_log_number_ := 0; current_ := [];
          needs_compaction_ := false |};
     recover_edit := empty_edit;
     new_log_status := OK; open_apply_status := OK;
     open_needs_compaction := false |}.

Definition reopened_db : DBImpl :=
  match Open 2 false reopened_env with
  | Val (_, Some impl) => impl
  | _ => after_Recover reopened_env
  end.

(** The third write run to its end, with no flush yet. *)
Definition three_writes : list Action :=
  two_writes ++ (CallWrite (put "c" "3") :: steps 2 12).

(** With assertions compiled out, the late writer goes on. *)
Definition late_writer_returns : list Action :=
  late_writer_first ++ steps 4 3.

(** After that the holders of 0 and 1 write to the immutable table and
    a flush worker flushes it; the holder of 2 writes; a sixth writer
    reserves 5 and rotates; and a second flush worker runs up to and
    including line 614.  The holder of 3 has not moved. *)
Definition flush_with_a_hole : list Action :=
  late_writer_returns ++ steps 0 6 ++ steps 1 6 ++
  (StartBGWork good_flush :: steps 5 10) ++ steps 2 4 ++
  (CallWrite (put "f" "6") :: steps 6 12) ++
  (StartBGWork good_flush :: steps 7 4).

(** The first MemTable is full.  A third writer prepares its rotation
    and stops in front of the compare-and-swap of line 1520; a fourth
    one rotates and runs to its end; a flush worker flushes the first
    table; a fifth writer has read [mem_] and stands at line 1491. *)
Definition stalled_rotation : list Action :=
  two_writes ++ (CallWrite (put "c" "3") :: steps 2 4) ++
  (CallWrite (put "d" "4") :: steps 3 12) ++
  (StartBGWork good_flush :: steps 4 10) ++
  (CallWrite (put "e" "5") :: steps 5 2).

(** The flush of the first table fails; one more [Put] fits into the
    mutable table. *)
Definition db_after_failed_flush : DBImpl :=
  state_of (Put 2 false db_flush_failed "d" "4") db_flush_failed.

End Examples.

(** ** MemTables that are deleted (db_impl.cc: [Unref] at lines 636 and
    1535, [new MemTable] at line 1508) *)

Module Reclaim.
Import Int DB.

(** Modelled from the spec: the reference count of the absent MemTable
    class ("reference count (shared by the rotator, readers, and the
    flush worker)"; the flush ends with "unref the MemTable").  A
    MemTable is given one reference when it is created (lines 1514 and
    1824) and [Unref] deletes the object that loses its last one.  With
    no [Get] under way, a step deletes a table in two places: the flush
    worker at line 636, once the table is flushed, and a writer that
    has lost the compare-and-swap at line 1535, its own [temp_mem]. *)
Definition Unref_deletes (st : DBImpl) (t : Thread) : list nat :=
  match t with
  | Flusher _ (Compact_finish s) =>
      if ok s then match imm_ st with Some imm => [imm] | None => [] end
      else []
  | Writer _ (Pickup_cas _ mem_r temp_mem) =>
      if bool_decide (mem_ st = Some mem_r) then [] else [temp_mem]
  | _ => []
  end.

(** [new MemTable(...)] when the allocator hands out the address [p]
    of a deleted MemTable again. *)
Definition alloc_at (p : nat) (m : MemTable) (st : DBImpl) : nat * DBImpl :=
  (p, set_heap (<[p := m]> (heap st)) st).

(** The system together with the addresses of the MemTables deleted so
    far and not handed out again. *)
Record World := { sys : System; deleted : list nat }.

(** An action of [DB.act], where every [new] takes a fresh address; or
    thread [i] runs lines 1507-1514 and [new] returns the deleted
    address [p]. *)
Inductive Event :=
| Do (a : Action)
| Renew (i p : nat).

Section Engine.

Context (MEMTABLE_SEQ_SIZE : Z) (NDEBUG : bool).

(** Lines 1507-1514 of [PickupTableToWrite], the [else] branch of the
    step [Pickup_load_imm], with [temp_mem] placed at [p]. *)
Definition rotate_at (p : nat) (st : DBImpl) (seq_num : Z) (mem_r : nat)
  : Result (DBImpl * WritePC) :=
  m <- deref st mem_r "mem_r" ;;
  assert_ NDEBUG (prev_log_number_ (versions_ st) =? 0)
    "versions_->PrevLogNumber() == 0" ;;;
  let '(temp_mem, st1) :=
    alloc_at p (next_MemTable MEMTABLE_SEQ_SIZE (largest_seq_supposed m)) st in
  Val (st1, Pickup_set_flush seq_num mem_r temp_mem).

Definition event (e : Event) (w : World) : option World :=
  match e with
  | Do a =>
      match act MEMTABLE_SEQ_SIZE NDEBUG a (sys w) with
      | Some s1 =>
          Some {| sys := s1;
                  deleted :=
                    deleted w ++
                    match a with
                    | Run i =>
                        match threads (sys w) !! i with
                        | Some t => Unref_deletes (db (sys w)) t
                        | None => []
                        end
                    | _ => []
                    end |}
      | None => None
      end
  | Renew i p =>
      match threads (sys w) !! i, imm_ (db (sys w)) with
      | Some (Writer updates (Pickup_load_imm seq_num mem_r)), None =>
          if bool_decide (p ∈ deleted w) then
            match rotate_at p (db (sys w)) seq_num mem_r with
            | Val (st, pc) =>
                Some {| sys := {| db := st;
                                  threads := <[i := Writer updates pc]>
                                               (threads (sys w)) |};
                        deleted := filter (fun q => q <> p) (deleted w) |}
            | Fail _ => None
            end
          else None
      | _, _ => None
      end
  end.

(** The events of a list, taken from left to right. *)
Fixpoint run (l : list Event) (w : World) : option World :=
  match l with
  | [] => Some w
  | e :: r => match event e w with Some w1 => run r w1 | None => None end
  end.

End Engine.

End Reclaim.

Module ReclaimExamples.
Import DB Examples Reclaim.

Definition fresh_world : World := {| sys := start; deleted := [] |}.

(** After [stalled_rotation] the fifth writer is given the address of
    the flushed table for its new MemTable, and runs to its end. *)
Definition reused_address : list Event :=
  (Do <$> stalled_rotation) ++ [Renew 5 0] ++ (Do <$> steps 5 9).

End ReclaimExamples.

(** * More of the code *)

Module TableCache.
Import Int Sanitize.

(** [TableCacheSize] (db_impl.cc): an [int] difference. *)
Definition TableCacheSize (sanitized_options : Options) : Z :=
  conv c_int (max_open_files sanitized_options - kNumNonTableCacheFiles).

End TableCache.

(** ** Version edits (db/version_edit.h) *)

Module Edit.
Import Int.

(** The members of [RemoteMemTableMetaData] that the inline functions
    of the header read or write.  The three maps from an offset to an
    [ibv_mr*] are kept in key order, which is the order a [std::map] is
    walked in; an [ibv_mr] is given by the address it registers. *)
Record RemoteMemTableMetaData := {
  this_machine_type : Z;
  creator_node_id : Z;
  number : Z;
  file_size : Z;
  remote_data_mrs : list (Z * Z);
  remote_dataindex_mrs : list (Z * Z);
  remote_filter_mrs : list (Z * Z)
}.

Definition set_number (n : Z) (f : RemoteMemTableMetaData)
  : RemoteMemTableMetaData :=
  {| this_machine_type := this_machine_type f;
     creator_node_id := creator_node_id f;
     number := n; file_size := file_size f;
     remote_data_mrs := remote_data_mrs f;
     remote_dataindex_mrs := remote_dataindex_mrs f;
     remote_filter_mrs := remote_filter_mrs f |}.

(** The tables that [std::shared_ptr<RemoteMemTableMetaData>] values
    point to: a pointer is an index. *)
Abbreviation Tables := (list RemoteMemTableMetaData).

(** An element of [DeletedFileSet]: level, file number, node id. *)
Definition DeletedFile : Type := Z * Z * Z.

(** [operator<] of [std::tuple<int, uint64_t, uint8_t>]. *)
Definition tuple_lt (a b : DeletedFile) : bool :=
  let '(l1, f1, n1) := a in
  let '(l2, f2, n2) := b in
  (l1 <? l2) || ((l1 =? l2) && ((f1 <? f2) || ((f1 =? f2) && (n1 <? n2)))).

(** [std::set::insert]: the elements are kept in ascending order, and
    an element that is there already is not added again. *)
Fixpoint set_insert (x : DeletedFile) (s : list DeletedFile)
  : list DeletedFile :=
  match s with
  | [] => [x]
  | y :: r =>
      if tuple_lt x y then x :: y :: r
      else if tuple_lt y x then y :: set_insert x r
      else y :: r
  end.

(** The order a [std::set] keeps its elements in. *)
Fixpoint ascending (s : list DeletedFile) : bool :=
  match s with
  | x :: r =>
      match r with
      | y :: _ => tuple_lt x y && ascending r
      | [] => true
      end
  | [] => true
  end.

Record VersionEdit := {
  comparator_ : string;
  log_number_ : Z;
  prev_log_number_ : Z;
  next_file_number_ : Z;
  last_sequence_ : Z;
  has_comparator_ : bool;
  has_log_number_ : bool;
  has_prev_log_number_ : bool;
  has_next_file_number_ : bool;
  has_last_sequence_ : bool;
  compact_pointers_ : list (Z * string);
  deleted_files_ : list DeletedFile;
  new_files_ : list (Z * nat)
}.

Definition set_new_files (l : list (Z * nat)) (e : VersionEdit) : VersionEdit :=
  {| comparator_ := comparator_ e; log_number_ := log_number_ e;
     prev_log_number_ := prev_log_number_ e;
     next_file_number_ := next_file_number_ e;
     last_sequence_ := last_sequence_ e;
     has_comparator_ := has_comparator_ e;
     has_log_number_ := has_log_number_ e;
     has_prev_log_number_ := has_prev_log_number_ e;
     has_next_file_number_ := has_next_file_number_ e;
     has_last_sequence_ := has_last_sequence_ e;
     compact_pointers_ := compact_pointers_ e;
     deleted_files_ := deleted_files_ e;
     new_files_ := l |}.

Definition set_deleted_files (l : list DeletedFile) (e : VersionEdit)
  : VersionEdit :=
  {| comparator_ := comparator_ e; log_number_ := log_number_ e;
     prev_log_number_ := prev_log_number_ e;
     next_file_number_ := next_file_number_ e;
     last_sequence_ := last_sequence_ e;
     has_comparator_ := has_comparator_ e;
     has_log_number_ := has_log_number_ e;
     has_prev_log_number_ := has_prev_log_number_ e;
     has_next_file_number_ := has_next_file_number_ e;
     has_last_sequence_ := has_last_sequence_ e;
     compact_pointers_ := compact_pointers_ e;
     deleted_files_ := l;
     new_files_ := new_files_ e |}.

(** [SetFileNumbers]: the loop variable is a copy of the pair, but the
    copy shares the table, so the assignment reaches the table. *)
Fixpoint number_files (files : list (Z * nat)) (file_number_end : Z)
    (tables : Tables) : Tables :=
  match files with
  | [] => tables
  | file :: r =>
      number_files r (u64 (file_number_end + 1))
        (alter (set_number file_number_end) file.2 tables)
  end.

Definition SetFileNumbers (file_number_end : Z) (e : VersionEdit)
    (tables : Tables) : Tables :=
  number_files (new_files_ e) file_number_end tables.

Definition IsTrival (e : VersionEdit) : bool :=
  Z.of_nat (length (deleted_files_ e)) =? 1.

(** [GetTrivalFile]: the first element of the set; reading [*begin()]
    of an empty set is a read outside the container. *)
Definition GetTrivalFile (e : VersionEdit) : Result DeletedFile :=
  match deleted_files_ e with
  | x :: _ => Val x
  | [] => Fail (OutOfBounds "*deleted_files_.begin()")
  end.

Definition compactlevel (e : VersionEdit) : Result Z :=
  x <- GetTrivalFile e ;; Val x.1.1.

Definition AddFile (level : Z) (remote_table : nat) (e : VersionEdit)
  : VersionEdit :=
  set_new_files (new_files_ e ++ [(level, remote_table)])%list e.

Definition AddFileIfNotExist (tables : Tables) (level : Z)
    (remote_table : nat) (e : VersionEdit) : Result VersionEdit :=
  if existsb (fun iter => Nat.eqb iter.2 remote_table) (new_files_ e) then
    Val e
  else
    match tables !! remote_table with
    | None => Fail (NullDereference "remote_table->file_size")
    | Some f =>
        if file_size f >? 0 then
          Val (set_new_files (new_files_ e ++ [(level, remote_table)])%list e)
        else Val e
    end.

Definition RemoveFile (NDEBUG : bool) (level file node_id : Z)
    (e : VersionEdit) : Result VersionEdit :=
  assert_ NDEBUG (node_id <? 2) "node_id < 2" ;;;
  Val (set_deleted_files
         (set_insert (level, file, node_id) (deleted_files_ e)) e).

Definition GetNewFilesNum (e : VersionEdit) : Z :=
  Z.of_nat (length (new_files_ e)).

(** *** Releasing the chunks of a table *)

(** What the RDMA manager is asked to do, and the [ibv_mr] objects that
    are deleted. *)
Inductive Call :=
| Remote_Memory_Deallocation_Fetch_Buff (chunk_num : Z)
| Deallocate_Remote_RDMA_Slot (addr : Z)
| delete_mr (addr : Z)
| store_address (index : Z) (addr : Z)
| Memory_Deallocation_RPC.

(** [Remote_blocks_deallocate]; [slot_freed] is what
    [Deallocate_Remote_RDMA_Slot] answers for an address. *)
Fixpoint Remote_blocks_deallocate (slot_freed : Z -> bool)
    (map : list (Z * Z)) : bool * list Call :=
  match map with
  | [] => (true, [])
  | it :: r =>
      if negb (slot_freed it.2) then
        (false, [Deallocate_Remote_RDMA_Slot it.2])
      else
        let '(b, calls) := Remote_blocks_deallocate slot_freed r in
        (b, Deallocate_Remote_RDMA_Slot it.2 :: delete_mr it.2 :: calls)
  end.

(** One of the three loops of [Prepare_Batch_Deallocate]. *)
Fixpoint fill (map : list (Z * Z)) (index : Z) : Z * list Call :=
  match map with
  | [] => (index, [])
  | it :: r =>
      let '(index1, calls) := fill r (u64 (index + 1)) in
      (index1, store_address index it.2 :: delete_mr it.2 :: calls)
  end.

(** [Prepare_Batch_Deallocate]; [RPC] is what
    [Remote_Memory_Deallocation_Fetch_Buff] answers. *)
Definition Prepare_Batch_Deallocate (NDEBUG : bool) (RPC : bool)
    (f : RemoteMemTableMetaData) : Result (bool * list Call) :=
  let chunk_num :=
    u64 (u64 (Z.of_nat (length (remote_data_mrs f))
              + Z.of_nat (length (remote_dataindex_mrs f)))
         + Z.of_nat (length (remote_filter_mrs f))) in
  let '(index, c1) := fill (remote_data_mrs f) 0 in
  let '(index, c2) := fill (remote_dataindex_mrs f) index in
  let '(index, c3) := fill (remote_filter_mrs f) index in
  assert_ NDEBUG (index =? chunk_num) "index == chunk_num" ;;;
  Val (true,
       (Remote_Memory_Deallocation_Fetch_Buff chunk_num :: c1 ++ c2 ++ c3 ++
        if RPC then [Memory_Deallocation_RPC] else [])%list).

End Edit.

(** ** Files of a database (db_impl.cc: NewDB, RemoveObsoleteFiles,
    DestroyDB) *)

Module Files.

Inductive FileType :=
| kLogFile
| kDBLockFile
| kTableFile
| kDescriptorFile
| kCurrentFile
| kTempFile
| kInfoLogFile.

(** What the functions ask of [Env] and of the table cache. *)
Inductive Call :=
| NewWritableFile (fname : string)
| AddRecord (comparator : string) (log_number next_file last_sequence : Z)
| Sync
| Close
| SetCurrentFile (descriptor_number : Z)
| RemoveFile (fname : string)
| RemoveDir (dirname : string)
| UnlockFile
| Evict (number : Z).

Section Names.

(** db/filename.cc is not among the sources: how a file name is parsed
    and how the names of the lock file and of a descriptor are built
    are taken as they come. *)
Context (ParseFileName : string -> option (Z * FileType))
        (LockFileName : string -> string)
        (DescriptorFileName : string -> Z -> string).

(** *** [DBImpl::NewDB] *)

Record NewDBEnv := {
  new_writable_file : Status;
  add_record : Status;
  sync : Status;
  close : Status;
  set_current_file : Status
}.

Definition NewDB (env : NewDBEnv) (dbname comparator_name : string)
  : Status * list Call :=
  let manifest := DescriptorFileName dbname 1 in
  let s := new_writable_file env in
  if negb (ok s) then (s, [NewWritableFile manifest])
  else
    let s := add_record env in
    let c1 := [NewWritableFile manifest; AddRecord comparator_name 0 2 0] in
    let '(s, c2) := if ok s then (sync env, [Sync]) else (s, []) in
    let '(s, c3) := if ok s then (close env, [Close]) else (s, []) in
    if ok s then
      (* Make "CURRENT" file that points to the new manifest file. *)
      (set_current_file env, (c1 ++ c2 ++ c3 ++ [SetCurrentFile 1])%list)
    else
      (s, (c1 ++ c2 ++ c3 ++ [RemoveFile manifest])%list).

(** *** [DBImpl::RemoveObsoleteFiles] *)

Record Obsolete := {
  bg_error_ : Status;
  pending_outputs_ : list Z;
  live_files : list Z;           (* versions_->AddLiveFiles *)
  LogNumber : Z;
  PrevLogNumber : Z;
  ManifestFileNumber : Z;
  filenames : list string        (* env_->GetChildren *)
}.

Definition live (st : Obsolete) (number : Z) : bool :=
  bool_decide (number ∈ (pending_outputs_ st ++ live_files st)%list).

Definition keep (st : Obsolete) (number : Z) (type : FileType) : bool :=
  match type with
  | kLogFile => (number >=? LogNumber st) || (number =? PrevLogNumber st)
  | kDescriptorFile =>
      (* Keep my manifest file, and any newer incarnations' *)
      number >=? ManifestFileNumber st
  | kTableFile => live st number
  | kTempFile => live st number
  | kCurrentFile | kDBLockFile | kInfoLogFile => true
  end.

(** The loop over the directory: the names to delete and the table
    cache entries evicted on the way. *)
Fixpoint obsolete (st : Obsolete) (names : list string)
  : list string * list Call :=
  match names with
  | [] => ([], [])
  | filename :: r =>
      let '(files_to_delete, calls) := obsolete st r in
      match ParseFileName filename with
      | Some (number, type) =>
          if keep st number type then (files_to_delete, calls)
          else
            (filename :: files_to_delete,
             match type with
             | kTableFile => Evict number :: calls
             | _ => calls
             end)
      | None => (files_to_delete, calls)
      end
  end.

Definition RemoveObsoleteFiles (st : Obsolete) (dbname : string) : list Call :=
  if negb (ok (bg_error_ st)) then []
  else
    let '(files_to_delete, calls) := obsolete st (filenames st) in
    (calls ++ ((fun filename => RemoveFile (dbname ++ "/" ++ filename)%string)
                 <$> files_to_delete))%list.

(** *** [DestroyDB] *)

Record DestroyEnv := {
  get_children : Status * list string;
  lock_file : Status;
  remove_file : string -> Status
}.

Fixpoint remove_each (env : DestroyEnv) (dbname : string)
    (names : list string) (result : Status) : Status * list Call :=
  match names with
  | [] => (result, [])
  | filename :: r =>
      match ParseFileName filename with
      | Some (number, type) =>
          match type with
          | kDBLockFile => remove_each env dbname r result
              (* Lock file will be deleted at end *)
          | _ =>
              let del := remove_file env (dbname ++ "/" ++ filename) in
              let result :=
                if ok result && negb (ok del) then del else result in
              let '(s, calls) := remove_each env dbname r result in
              (s, RemoveFile (dbname ++ "/" ++ filename) :: calls)
          end
      | None => remove_each env dbname r result
      end
  end.

Definition DestroyDB (env : DestroyEnv) (dbname : string)
  : Status * list Call :=
  let '(result, names) := get_children env in
  if negb (ok result) then
    (* Ignore error in case directory does not exist *)
    (OK, [])
  else
    let lockname := LockFileName dbname in
    let result := lock_file env in
    if ok result then
      let '(result, calls) := remove_each env dbname names result in
      (result,
       (calls ++ [UnlockFile; RemoveFile lockname; RemoveDir dbname])%list)
    else (result, []).

(** The names [DestroyDB] removes in its loop. *)
Definition doomed (filename : string) : bool :=
  match ParseFileName filename with
  | Some (_, kDBLockFile) => false
  | Some _ => true
  | None => false
  end.

End Names.

End Files.

(** A directory used in examples. *)
Module FilesExamples.
Import Files.

Definition parse (filename : string) : option (Z * FileType) :=
  if String.eqb filename "000005.ldb" then Some (5, kTableFile)
  else if String.eqb filename "000007.ldb" then Some (7, kTableFile)
  else if String.eqb filename "000003.log" then Some (3, kLogFile)
  else if String.eqb filename "MANIFEST-000002" then Some (2, kDescriptorFile)
  else if String.eqb filename "CURRENT" then Some (0, kCurrentFile)
  else if String.eqb filename "LOCK" then Some (0, kDBLockFile)
  else None.

Definition directory : list string :=
  ["000003.log"; "000005.ldb"; "000007.ldb"; "CURRENT"; "LOCK";
   "MANIFEST-000002"; "notes.txt"].

(** Table 5 has been compacted away; table 7 is live; log 4 is the
    current log. *)
Definition after_compaction : Obsolete :=
  {| bg_error_ := OK; pending_outputs_ := []; live_files := [7];
     LogNumber := 4; PrevLogNumber := 0; ManifestFileNumber := 2;
     filenames := directory |}.

End FilesExamples.

(** ** Group commit (db_impl.cc: BuildBatchGroup) *)

Module Group.
Import Int.

(** What [BuildBatchGroup] reads of a [WriteBatch]:
    [WriteBatchInternal::ByteSize] and [WriteBatchInternal::Count]. *)
Record WriteBatch := { ByteSize : Z; Count : Z }.

(** [DBImpl::Writer]; [batch] is [None] for [nullptr]. *)
Record Writer := { batch : option WriteBatch; sync : bool }.

(** The batch [result] points to: the first writer's own batch, or
    [tmp_batch_]. *)
Inductive Batch :=
| first_batch
| tmp_batch_.

(** [WriteBatchInternal::Append(tmp_batch_, w->batch)], for the writer
    [w] at position [src] of [writers_]. *)
Inductive Call :=
| Append (src : nat).

(** The loop over the writers behind the first one.  [w] is the writer
    at position [i]; [tmp] is what [tmp_batch_] points to on entry. *)
Fixpoint grow (NDEBUG : bool) (tmp : WriteBatch) (first_sync : bool)
    (max_size : Z) (rest : list Writer) (i : nat) (size : Z)
    (result : Batch) (last_writer : nat)
  : Result (Batch * nat * list Call) :=
  match rest with
  | [] => Val (result, last_writer, [])
  | w :: r =>
      if sync w && negb first_sync then
        (* Do not include a sync write into a batch handled by a
           non-sync write. *)
        Val (result, last_writer, [])
      else
        match batch w with
        | Some b =>
            let size := u64 (size + ByteSize b) in
            if size >? max_size then
              (* Do not make batch too big *)
              Val (result, last_writer, [])
            else
              c1 <- match result with
                    | first_batch =>
                        (* Switch to temporary batch instead of
                           disturbing caller's batch *)
                        assert_ NDEBUG (Count tmp =? 0)
                          "WriteBatchInternal::Count(result) == 0" ;;;
                        Val [Append 0]
                    | tmp_batch_ => Val []
                    end ;;
              g <- grow NDEBUG tmp first_sync max_size r (S i) size
                     tmp_batch_ i ;;
              Val (g.1.1, g.1.2, (c1 ++ Append i :: g.2)%list)
        | None =>
            grow NDEBUG tmp first_sync max_size r (S i) size result i
        end
  end.

(** [BuildBatchGroup]: the batch to write, the position of
    [*last_writer], and the appends made to [tmp_batch_]. *)
Definition BuildBatchGroup (NDEBUG : bool) (writers_ : list Writer)
    (tmp : WriteBatch) : Result (Batch * nat * list Call) :=
  assert_ NDEBUG (negb (bool_decide (writers_ = []))) "!writers_.empty()" ;;;
  match writers_ with
  | [] => Fail (OutOfBounds "writers_.front()")
  | first :: rest =>
      assert_ NDEBUG (bool_decide (batch first <> None)) "result != nullptr" ;;;
      match batch first with
      | None => Fail (NullDereference "WriteBatchInternal::ByteSize(first->batch)")
      | Some b =>
          let size := ByteSize b in
          let max_size :=
            if size <=? 128 * 2 ^ 10 then u64 (size + 128 * 2 ^ 10)
            else 2 ^ 20 in
          grow NDEBUG tmp (sync first) max_size rest 1 size
            first_batch 0
      end
  end.

(** The bytes of the batches of some writers. *)
Fixpoint bytes (ws : list Writer) : Z :=
  match ws with
  | [] => 0
  | w :: r => from_option ByteSize 0 (batch w) + bytes r
  end.

(** The positions, counted from [i], of the writers that bring a batch. *)
Fixpoint with_batch (i : nat) (ws : list Writer) : list nat :=
  match ws with
  | [] => []
  | w :: r =>
      match batch w with
      | Some _ => i :: with_batch (S i) r
      | None => with_batch (S i) r
      end
  end.

(** Why the loop stops before a writer: a sync write behind a non-sync
    one, or a batch that would make the group too big. *)
Definition stops (first_sync : bool) (max_size size : Z) (w : Writer) : Prop :=
  (sync w = true /\ first_sync = false) \/
  exists b, batch w = Some b /\ size + ByteSize b > max_size.

End Group.

(** ** Recovery (db_impl.cc: Recover) *)

Module Recovery.
Import Int.

(** What [Recover] asks of the environment, of the VersionSet and of
    [RecoverLogFile]. *)
Inductive Call :=
| CreateDir (dirname : string)
| LockFile (fname : string)
| NewDB (calls : list Files.Call)
| VersionSet_Recover
| GetChildren (dirname : string)
| RecoverLogFile (log_number : Z) (last_log : bool)
| MarkFileNumberUsed (number : Z)
| SetLastSequence (s : Z).

(** The answers.  [LogNumber], [PrevLogNumber], [live_files] and
    [LastSequence] are those of [versions_] once its own [Recover] has
    run.  [recover_log_file] gives, for a log number and the [last_log]
    flag, the status of [RecoverLogFile] and the largest sequence number
    it has met in the log (0 when it met none): the function only ever
    raises [*max_sequence] to such a number. *)
Record RecoverEnv := {
  lock_file : Status;
  current_exists : bool;
  new_db : Files.NewDBEnv;
  versions_recover : Status;
  LogNumber : Z;
  PrevLogNumber : Z;
  live_files : list Z;
  LastSequence : Z;
  get_children : Status * list string;
  recover_log_file : Z -> bool -> Status * Z
}.

(** [std::sort] on numbers, and a [std::set<uint64_t>] as the
    ascending list of its elements. *)
Fixpoint insert_sorted (x : Z) (l : list Z) : list Z :=
  match l with
  | [] => [x]
  | y :: r => if x <=? y then x :: y :: r else y :: insert_sorted x r
  end.

Definition sort (l : list Z) : list Z := foldr insert_sorted [] l.

Definition to_set (l : list Z) : list Z := sort (remove_dups l).

Definition erase (x : Z) (s : list Z) : list Z :=
  List.filter (fun y => negb (y =? x)) s.

Fixpoint increasing (l : list Z) : bool :=
  match l with
  | x :: r =>
      match r with
      | y :: _ => (x <=? y) && increasing r
      | [] => true
      end
  | [] => true
  end.

Section Names.

(** db/filename.cc, util/status.cc and [snprintf] are not among the
    sources: the names of files, the way a Status joins its two
    messages and the decimal form of a number are taken as they
    come. *)
Context (ParseFileName : string -> option (Z * Files.FileType))
        (LockFileName : string -> string)
        (DescriptorFileName : string -> Z -> string)
        (TableFileName : string -> Z -> string)
        (message : string -> string -> string)
        (decimal : Z -> string).

(** The loop over the directory (lines 384-390): what is left of
    [expected], and [logs]. *)
Fixpoint scan (min_log prev_log : Z) (filenames : list string)
    (expected : list Z) : list Z * list Z :=
  match filenames with
  | [] => (expected, [])
  | filename :: r =>
      match ParseFileName filename with
      | Some (number, type) =>
          let '(expected1, logs) :=
            scan min_log prev_log r (erase number expected) in
          (expected1,
           match type with
           | Files.kLogFile =>
               if (number >=? min_log) || (number =? prev_log)
               then number :: logs else logs
           | _ => logs
           end)
      | None => scan min_log prev_log r expected
      end
  end.

(** The loop over the logs (lines 400-412). *)
Fixpoint replay (env : RecoverEnv) (logs : list Z) (max_sequence : Z)
  : Status * Z * list Call :=
  match logs with
  | [] => (OK, max_sequence, [])
  | log :: r =>
      let last_log := bool_decide (r = []) in
      let '(s, seen) := recover_log_file env log last_log in
      let max_sequence := Z.max max_sequence seen in
      if negb (ok s) then (s, max_sequence, [RecoverLogFile log last_log])
      else
        (* The previous incarnation may not have written any MANIFEST
           records after allocating this log number. *)
        let '(s1, m1, calls) := replay env r max_sequence in
        (s1, m1,
         RecoverLogFile log last_log :: MarkFileNumberUsed log :: calls)
  end.

Definition Recover (NDEBUG : bool) (options_ : Sanitize.Options)
    (comparator_name : string) (db_lock_ : bool) (env : RecoverEnv)
    (dbname_ : string) : Result (Status * list Call) :=
  assert_ NDEBUG (negb db_lock_) "db_lock_ == nullptr" ;;;
  let c0 := [CreateDir dbname_; LockFile (LockFileName dbname_)] in
  let s := lock_file env in
  if negb (ok s) then Val (s, c0)
  else
    let '(s, c1) :=
      if negb (current_exists env) then
        if Sanitize.create_if_missing options_ then
          let '(s, calls) :=
            Files.NewDB DescriptorFileName (new_db env) dbname_
              comparator_name in
          (s, [NewDB calls])
        else
          (InvalidArgument
             (message dbname_ "does not exist (create_if_missing is false)"),
           [])
      else if Sanitize.error_if_exists options_ then
        (InvalidArgument (message dbname_ "exists (error_if_exists is true)"),
         [])
      else (s, []) in
    if negb (ok s) then Val (s, (c0 ++ c1)%list)
    else
      let s := versions_recover env in
      let c2 := (c0 ++ c1 ++ [VersionSet_Recover])%list in
      if negb (ok s) then Val (s, c2)
      else
        let '(s, filenames) := get_children env in
        let c3 := (c2 ++ [GetChildren dbname_])%list in
        if negb (ok s) then Val (s, c3)
        else
          let '(expected, logs) :=
            scan (LogNumber env) (PrevLogNumber env) filenames
              (to_set (live_files env)) in
          match expected with
          | missing :: _ =>
              Val (Corruption
                     (message
                        (decimal (conv c_int (Z.of_nat (length expected)))
                         ++ " missing files; e.g.")
                        (TableFileName dbname_ missing)),
                   c3)
          | [] =>
              (* Recover in the order in which the logs were generated *)
              let '(s, max_sequence, c4) := replay env (sort logs) 0 in
              if negb (ok s) then Val (s, (c3 ++ c4)%list)
              else
                Val (OK,
                     (c3 ++ c4 ++
                      if LastSequence env <? max_sequence
                      then [SetLastSequence max_sequence] else [])%list)
          end.

(** The numbers of the logs [Recover] has to replay. *)
Definition logs_to_replay (env : RecoverEnv) : list Z :=
  sort (scan (LogNumber env) (PrevLogNumber env) (get_children env).2
          (to_set (live_files env))).2.

End Names.

(** The logs replayed, as the trace shows them. *)
Definition replayed (calls : list Call) : list Z :=
  omap (fun c => match c with
                 | RecoverLogFile log _ => Some log
                 | _ => None
                 end) calls.

(** No call sets the last sequence. *)
Definition no_sequence_set (calls : list Call) : Prop :=
  forall x, SetLastSequence x ∉ calls.

(** [max_sequence] after the logs have been replayed. *)
Fixpoint max_sequence_after (env : RecoverEnv) (logs : list Z)
    (max_sequence : Z) : Z :=
  match logs with
  | [] => max_sequence
  | log :: r =>
      max_sequence_after env r
        (Z.max max_sequence
           (recover_log_file env log (bool_decide (r = []))).2)
  end.

(** A live file of which the directory has no trace. *)
Definition missing_file (ParseFileName : string -> option (Z * Files.FileType))
    (env : RecoverEnv) (x : Z) : Prop :=
  x ∈ live_files env /\
  forall f t, f ∈ (get_children env).2 -> ParseFileName f <> Some (x, t).

End Recovery.

(** A recovery used in examples: the directory of [FilesExamples], with
    the log 3 to replay. *)
Module RecoveryExamples.
Import Recovery.

Definition lock_name (dbname : string) : string := dbname ++ "/LOCK".
Definition descriptor_name (dbname : string) (number : Z) : string :=
  dbname ++ "/MANIFEST".
Definition table_name (dbname : string) (number : Z) : string :=
  dbname ++ "/table".
Definition joined (msg msg2 : string) : string := msg ++ ": " ++ msg2.
Definition digits (n : Z) : string := "some".

Definition answers : Files.NewDBEnv :=
  {| Files.new_writable_file := OK; Files.add_record := OK;
     Files.sync := OK; Files.close := OK; Files.set_current_file := OK |}.

Definition recovery (live : list Z) (log3 : Status) : RecoverEnv :=
  {| lock_file := OK; current_exists := true; new_db := answers;
     versions_recover := OK; LogNumber := 3; PrevLogNumber := 0;
     live_files := live; LastSequence := 10;
     get_children := (OK, FilesExamples.directory);
     recover_log_file := fun log last_log => (log3, 12) |}.

Definition run (live : list Z) (log3 : Status)
  : Result (Status * list Call) :=
  Recover FilesExamples.parse lock_name descriptor_name table_name joined
    digits false Sanitize.default_options "leveldb.BytewiseComparator" false
    (recovery live log3) "db".

End RecoveryExamples.

(** ** The end of a table ([~RemoteMemTableMetaData], db/version_edit.h) *)

Module Destroy.
Import Int Edit.

(** The loops of the memory node: every [ibv_mr] of a map is deleted. *)
Definition delete_each (map : list (Z * Z)) : list Call :=
  (fun it => delete_mr it.2) <$> map.

(** The destructor.  [node_id] is [rdma_mg->node_id]; [slot_freed] and
    [RPC] are the answers of the RDMA manager, as for
    [Remote_blocks_deallocate] and [Prepare_Batch_Deallocate]. *)
Definition RemoteMemTableMetaData_dtor (NDEBUG : bool) (node_id : Z)
    (slot_freed : Z -> bool) (RPC : bool) (f : RemoteMemTableMetaData)
  : Result (list Call) :=
  assert_ NDEBUG (Z.of_nat (length (remote_dataindex_mrs f)) =? 1)
    "remote_dataindex_mrs.size() == 1" ;;;
  assert_ NDEBUG ((this_machine_type f =? 0) || (this_machine_type f =? 1))
    "this_machine_type ==0 || this_machine_type == 1" ;;;
  assert_ NDEBUG ((creator_node_id f =? 0) || (creator_node_id f =? 1))
    "creator_node_id == 0 || creator_node_id == 1" ;;;
  if this_machine_type f =? 0 then
    if creator_node_id f =? node_id then
      let '(b1, c1) := Remote_blocks_deallocate slot_freed (remote_data_mrs f) in
      if b1 then
        let '(b2, c2) :=
          Remote_blocks_deallocate slot_freed (remote_dataindex_mrs f) in
        if b2 then
          let '(b3, c3) :=
            Remote_blocks_deallocate slot_freed (remote_filter_mrs f) in
          if b3 then Val (c1 ++ c2 ++ c3)%list
          else assert_ NDEBUG false "false" ;;; Val (c1 ++ c2 ++ c3)%list
        else assert_ NDEBUG false "false" ;;; Val (c1 ++ c2)%list
      else assert_ NDEBUG false "false" ;;; Val c1
    else
      r <- Prepare_Batch_Deallocate NDEBUG RPC f ;; Val r.2
  else if this_machine_type f =? 1 then
    Val (delete_each (remote_data_mrs f)
         ++ delete_each (remote_dataindex_mrs f)
         ++ delete_each (remote_filter_mrs f))%list
  else Val [].

(** The [ibv_mr] objects deleted, and the slots handed back, as the
    trace shows them. *)
Definition deleted (calls : list Call) : list Z :=
  omap (fun c => match c with delete_mr addr => Some addr | _ => None end)
    calls.

Definition freed (slot_freed : Z -> bool) (calls : list Call) : list Z :=
  omap (fun c => match c with
                 | Deallocate_Remote_RDMA_Slot addr =>
                     if slot_freed addr then Some addr else None
                 | _ => None
                 end) calls.

(** The chunks of a table, in the order in which the destructor walks
    them. *)
Definition chunks (f : RemoteMemTableMetaData) : list Z :=
  ((remote_data_mrs f).*2 ++ (remote_dataindex_mrs f).*2
   ++ (remote_filter_mrs f).*2)%list.

End Destroy.

(** ** Replaying a log (db_impl.cc: RecoverLogFile, MaybeIgnoreError) *)

Module LogRecovery.
Import Int.

(** One successful [reader.ReadRecord]: what the reader reports to the
    [LogReporter] on the way, the size of the record, and what the
    batch made of it answers: the status of
    [WriteBatchInternal::InsertInto], its sequence number and count,
    and [mem->ApproximateMemoryUsage()] once it is inserted. *)
Record Read := {
  reports : list Status;
  record_size : Z;
  insert_status : Status;
  batch_sequence : Z;
  batch_count : Z;
  usage : Z
}.

(** The log and the environment.  [final_reports] is what the reader
    reports in the [ReadRecord] that finds no further record;
    [write_level0] is the status of [WriteLevel0Table] for a MemTable
    holding the given records (numbered from 0 in the order read). *)
Record LogEnv := {
  open_status : Status;
  reads : list Read;
  final_reports : list Status;
  write_level0 : list nat -> Status;
  get_file_size_ok : bool;
  new_appendable_file_ok : bool
}.

Inductive Call :=
| NewSequentialFile (log_number : Z)
| InsertInto (record : nat)
| WriteLevel0Table (records : list nat)
| GetFileSize
| NewAppendableFile.

(** [DBImpl::MaybeIgnoreError]. *)
Definition MaybeIgnoreError (paranoid_checks : bool) (s : Status) : Status :=
  if ok s || paranoid_checks then s (* No change needed *) else OK.

(** [LogReporter::Corruption]: [this->status] is null unless
    [paranoid_checks]. *)
Definition Corruption_reported (paranoid_checks : bool) (status s : Status)
  : Status :=
  if paranoid_checks && ok status then s else status.

(** The locals of [RecoverLogFile] and what it has done so far; [mem]
    holds the records inserted into the MemTable being filled, [None]
    for [nullptr]. *)
Record Locals := {
  status : Status;
  mem : option (list nat);
  compactions : Z;
  save_manifest : bool;
  max_sequence : Z;
  calls : list Call
}.

(** The loop over the records (lines 471-503); [i] numbers the record
    about to be read. *)
Fixpoint read_records (paranoid_checks : bool) (write_buffer_size : Z)
    (env : LogEnv) (rs : list Read) (i : nat) (l : Locals) : Locals :=
  match rs with
  | [] =>
      {| status := foldl (Corruption_reported paranoid_checks) (status l)
                     (final_reports env);
         mem := mem l; compactions := compactions l;
         save_manifest := save_manifest l; max_sequence := max_sequence l;
         calls := calls l |}
  | r :: rest =>
      let status1 :=
        foldl (Corruption_reported paranoid_checks) (status l) (reports r) in
      if negb (ok status1) then
        {| status := status1; mem := mem l; compactions := compactions l;
           save_manifest := save_manifest l; max_sequence := max_sequence l;
           calls := calls l |}
      else if record_size r <? 12 then
        read_records paranoid_checks write_buffer_size env rest (S i)
          {| status := Corruption_reported paranoid_checks status1
                         (Corruption "log record too small");
             mem := mem l; compactions := compactions l;
             save_manifest := save_manifest l;
             max_sequence := max_sequence l; calls := calls l |}
      else
        let mem1 := (default [] (mem l) ++ [i])%list in
        let status2 := MaybeIgnoreError paranoid_checks (insert_status r) in
        if negb (ok status2) then
          {| status := status2; mem := Some mem1;
             compactions := compactions l; save_manifest := save_manifest l;
             max_sequence := max_sequence l;
             calls := (calls l ++ [InsertInto i])%list |}
        else
          let last_seq := u64 (u64 (batch_sequence r + batch_count r) - 1) in
          let max1 :=
            if last_seq >? max_sequence l then last_seq else max_sequence l in
          if usage r >? write_buffer_size then
            let status3 := write_level0 env mem1 in
            let l1 :=
              {| status := status3; mem := None;
                 compactions := compactions l + 1; save_manifest := true;
                 max_sequence := max1;
                 calls := (calls l ++ [InsertInto i; WriteLevel0Table mem1])%list |} in
            if negb (ok status3) then
              (* Reflect errors immediately so that conditions like full
                 file-systems cause the DB::Open() to fail. *)
              l1
            else read_records paranoid_checks write_buffer_size env rest (S i) l1
          else
            read_records paranoid_checks write_buffer_size env rest (S i)
              {| status := status2; mem := Some mem1;
                 compactions := compactions l;
                 save_manifest := save_manifest l; max_sequence := max1;
                 calls := (calls l ++ [InsertInto i])%list |}
  end.

(** What [RecoverLogFile] leaves: its status, [*save_manifest],
    [*max_sequence], the records of the MemTable stored in [mem_] when
    the log is reused, and the trace. *)
Record Recovered := {
  returned : Status;
  save_manifest_out : bool;
  max_sequence_out : Z;
  reused : option (list nat);
  trace : list Call
}.

Definition RecoverLogFile (NDEBUG : bool) (options_ : Sanitize.Options)
    (logfile_null log_null mem_null : bool) (env : LogEnv) (log_number : Z)
    (last_log : bool) (save_manifest0 : bool) (max_sequence0 : Z)
  : Result Recovered :=
  let paranoid_checks := Sanitize.paranoid_checks options_ in
  let status0 := open_status env in
  if negb (ok status0) then
    Val {| returned := MaybeIgnoreError paranoid_checks status0;
           save_manifest_out := save_manifest0;
           max_sequence_out := max_sequence0; reused := None;
           trace := [NewSequentialFile log_number] |}
  else
    let l :=
      read_records paranoid_checks (Sanitize.write_buffer_size options_) env
        (reads env) 0
        {| status := status0; mem := None; compactions := 0;
           save_manifest := save_manifest0; max_sequence := max_sequence0;
           calls := [NewSequentialFile log_number] |} in
    (* See if we should keep reusing the last log file. *)
    lr <- (if ok (status l) && Sanitize.reuse_logs options_ && last_log
              && (compactions l =? 0) then
             assert_ NDEBUG logfile_null "logfile_ == nullptr" ;;;
             assert_ NDEBUG log_null "log_ == nullptr" ;;;
             assert_ NDEBUG mem_null "mem_ == nullptr" ;;;
             if get_file_size_ok env then
               if new_appendable_file_ok env then
                 Val ({| status := status l; mem := None;
                         compactions := compactions l;
                         save_manifest := save_manifest l;
                         max_sequence := max_sequence l;
                         calls := (calls l ++ [GetFileSize; NewAppendableFile])%list |},
                      Some (default [] (mem l)))
               else
                 Val ({| status := status l; mem := mem l;
                         compactions := compactions l;
                         save_manifest := save_manifest l;
                         max_sequence := max_sequence l;
                         calls := (calls l ++ [GetFileSize; NewAppendableFile])%list |},
                      None)
             else
               Val ({| status := status l; mem := mem l;
                       compactions := compactions l;
                       save_manifest := save_manifest l;
                       max_sequence := max_sequence l;
                       calls := (calls l ++ [GetFileSize])%list |},
                    None)
           else Val (l, None)) ;;
    let '(l1, r) := lr in
    match mem l1 with
    | Some records =>
        (* mem did not get reused; compact it. *)
        if ok (status l1) then
          Val {| returned := write_level0 env records;
                 save_manifest_out := true;
                 max_sequence_out := max_sequence l1; reused := r;
                 trace := (calls l1 ++ [WriteLevel0Table records])%list |}
        else
          Val {| returned := status l1;
                 save_manifest_out := save_manifest l1;
                 max_sequence_out := max_sequence l1; reused := r;
                 trace := calls l1 |}
    | None =>
        Val {| returned := status l1; save_manifest_out := save_manifest l1;
               max_sequence_out := max_sequence l1; reused := r;
               trace := calls l1 |}
    end.

(** The records handed to [InsertInto], and those of the tables
    written, as the trace shows them. *)
Definition inserted (calls : list Call) : list nat :=
  omap (fun c => match c with InsertInto i => Some i | _ => None end) calls.

Definition flushed (calls : list Call) : list nat :=
  concat (omap (fun c => match c with
                         | WriteLevel0Table records => Some records
                         | _ => None
                         end) calls).

(** The records of a log that are large enough to hold a batch,
    numbered from [i]. *)
Fixpoint proper (i : nat) (rs : list Read) : list nat :=
  match rs with
  | [] => []
  | r :: rest =>
      if record_size r <? 12 then proper (S i) rest
      else i :: proper (S i) rest
  end.

(** Whether a table has been written. *)
Definition wrote (calls : list Call) : bool :=
  existsb (fun c => match c with WriteLevel0Table _ => true | _ => false end)
    calls.

(** What the loop keeps true of its locals: every record inserted is in
    a table written or in the MemTable being filled; [compactions]
    counts the tables written; [*save_manifest] is set once a table has
    been written. *)
Definition consistent (save_manifest0 : bool) (l : Locals) : Prop :=
  inserted (calls l) = (flushed (calls l) ++ default [] (mem l))%list /\
  0 <= compactions l /\
  (compactions l = 0 -> wrote (calls l) = false) /\
  save_manifest l = save_manifest0 || wrote (calls l).

(** A status that is OK, or that a [WriteLevel0Table] has returned. *)
Definition blamed (env : LogEnv) (s : Status) (calls : list Call) : Prop :=
  ok s = true \/
  exists records, WriteLevel0Table records ∈ calls /\
                  s = write_level0 env records.

End LogRecovery.

(** A damaged log used in examples: a good record, a record that is too
    small, a batch that cannot be inserted, and a torn tail. *)
Module LogRecoveryExamples.
Import LogRecovery.

Definition log_damaged : LogEnv :=
  {| open_status := OK;
     reads :=
       [ {| reports := []; record_size := 20; insert_status := OK;
            batch_sequence := 5; batch_count := 1; usage := 100 |};
         {| reports := []; record_size := 4; insert_status := OK;
            batch_sequence := 0; batch_count := 0; usage := 0 |};
         {| reports := [Corruption "checksum mismatch"]; record_size := 30;
            insert_status := Corruption "bad entry";
            batch_sequence := 6; batch_count := 2; usage := 200 |} ];
     final_reports := [Corruption "truncated record at end of file"];
     write_level0 := fun records => OK;
     get_file_size_ok := true;
     new_appendable_file_ok := true |}.

Definition replayed_damaged : Recovered :=
  {| returned := OK; save_manifest_out := true; max_sequence_out := 7;
     reused := None;
     trace := [NewSequentialFile 7; InsertInto 0; InsertInto 2;
               WriteLevel0Table [0%nat; 2%nat]] |}.

End LogRecoveryExamples.

(** ** Compaction (db_impl.cc: DoCompactionWork,
    OpenCompactionOutputFile, FinishCompactionOutputFile) *)

Module Compact.
Import Int.

Inductive ValueType := kTypeDeletion | kTypeValue.

(** What [ParseInternalKey] makes of a key of the input. *)
Inductive Key :=
| Parsed (user_key : string) (sequence : Z) (type : ValueType)
| Unparsed (raw : string).

(** An entry of the input iterator, with what the loop is told while it
    stands at the entry: [shutting_down_] at the loop test, whether an
    immutable MemTable waits ([has_imm_] and [imm_ != nullptr]),
    [ShouldStopBefore(key)], [input->status()], and whether the builder
    has reached [MaxOutputFileSize()] once the entry is added. *)
Record Item := {
  key : Key;
  value : string;
  shutting_down : bool;
  imm_pending : bool;
  ShouldStopBefore : bool;
  input_status : Status;
  full : bool
}.

(** What the environment and the builder answer for one output file. *)
Record FileAnswers := {
  NewWritableFile : Status;
  Finish : Status;
  FileSize : Z;
  Sync : Status;
  Close : Status;
  verify : Status
}.

(** The answers for a compaction.  [NewFileNumber] and [file] are
    indexed by the position of the output in [compact->outputs]. *)
Record CompactionEnv := {
  NumLevelFiles_positive : bool;
  snapshots_ : list Z;                 (* oldest first *)
  LastSequence : Z;
  IsBaseLevelForKey : string -> bool;
  NewFileNumber : nat -> Z;
  file : nat -> FileAnswers;
  shutting_down_after : bool;          (* shutting_down_ after the loop *)
  final_input_status : Status;         (* input->status() after the loop *)
  install_status : Status              (* InstallCompactionResults *)
}.

(** [CompactionState::Output]; [file_size] is not set before the file
    is finished. *)
Record Output := {
  number : Z;
  file_size : option Z;
  smallest : option Key;
  largest : option Key
}.

(** [CompactionState]; [builder] holds [NumEntries()], [None] for
    [nullptr]; [outfile] tells whether the pointer is set. *)
Record CompactionState := {
  smallest_snapshot : Z;
  outputs : list Output;
  outfile : bool;
  builder : option Z;
  total_bytes : Z
}.

Inductive Call :=
| CompactMemTable
| OpenFile (number : Z)
| Add (k : Key) (v : string)
| FinishFile (number : Z)
| AbandonFile (number : Z)
| InstallCompactionResults (files : list Z)
| RecordBackgroundError (s : Status).

Definition set_current_output (f : Output -> Output) (outs : list Output)
  : list Output :=
  alter f (length outs - 1)%nat outs.

Definition OpenCompactionOutputFile (NDEBUG : bool) (env : CompactionEnv)
    (compact : CompactionState)
  : Result (Status * CompactionState * list Call) :=
  assert_ NDEBUG (bool_decide (builder compact = None))
    "compact->builder == nullptr" ;;;
  let i := length (outputs compact) in
  let file_number := NewFileNumber env i in
  let out := {| number := file_number; file_size := None;
                smallest := None; largest := None |} in
  (* Make the output file *)
  let s := NewWritableFile (file env i) in
  Val (s,
       {| smallest_snapshot := smallest_snapshot compact;
          outputs := (outputs compact ++ [out])%list;
          outfile := if ok s then true else outfile compact;
          builder := if ok s then Some 0 else builder compact;
          total_bytes := total_bytes compact |},
       [OpenFile file_number]).

Definition FinishCompactionOutputFile (NDEBUG : bool) (env : CompactionEnv)
    (compact : CompactionState) (input : Status)
  : Result (Status * CompactionState * list Call) :=
  assert_ NDEBUG (outfile compact) "compact->outfile != nullptr" ;;;
  assert_ NDEBUG (bool_decide (builder compact <> None))
    "compact->builder != nullptr" ;;;
  match last (outputs compact) with
  | None => Fail (OutOfBounds "compact->current_output()")
  | Some out =>
      let i := (length (outputs compact) - 1)%nat in
      let output_number := number out in
      assert_ NDEBUG (negb (output_number =? 0)) "output_number != 0" ;;;
      match builder compact with
      | None => Fail (NullDereference "compact->builder->NumEntries()")
      | Some current_entries =>
          (* Check for iterator errors *)
          let s := input in
          let s1 := if ok s then Finish (file env i) else s in
          let current_bytes := FileSize (file env i) in
          (* Finish and check for file errors *)
          c <- (if ok s1 && negb (outfile compact)
                then Fail (NullDereference "compact->outfile->Sync()")
                else Val tt) ;;
          let s2 := if ok s1 then Sync (file env i) else s1 in
          let s3 := if ok s2 then Close (file env i) else s2 in
          let s4 :=
            if ok s3 && (current_entries >? 0)
            then (* Verify that the table is usable *) verify (file env i)
            else s3 in
          Val (s4,
               {| smallest_snapshot := smallest_snapshot compact;
                  outputs :=
                    set_current_output
                      (fun o => {| number := number o;
                                   file_size := Some current_bytes;
                                   smallest := smallest o;
                                   largest := largest o |})
                      (outputs compact);
                  outfile := false;
                  builder := None;
                  total_bytes := u64 (total_bytes compact + current_bytes) |},
               [if ok s then FinishFile output_number
                else AbandonFile output_number])
      end
  end.

Section Work.

(** db/dbformat.h is not among the sources: [kMaxSequenceNumber] is
    taken as it comes. *)
Context (kMaxSequenceNumber : Z).
Context (NDEBUG : bool) (env : CompactionEnv).

(** The locals of the loop of [DoCompactionWork]. *)
Record Locals := {
  compact : CompactionState;
  status : Status;
  current_user_key : string;
  has_current_user_key : bool;
  last_sequence_for_key : Z;
  calls : list Call
}.

(** Lines 1014-1041: whether the entry is dropped, and the three
    locals afterwards. *)
Definition decide (smallest_snapshot : Z) (k : Key) (current_user_key : string)
    (has_current_user_key : bool) (last_sequence_for_key : Z)
  : bool * (string * bool * Z) :=
  match k with
  | Unparsed _ =>
      (* Do not hide error keys *)
      (false, ("", false, kMaxSequenceNumber))
  | Parsed user_key sequence type =>
      let first :=
        negb has_current_user_key
        || negb (String.eqb user_key current_user_key) in
      let current_user_key :=
        if first then user_key else current_user_key in
      let last_sequence_for_key :=
        if first then kMaxSequenceNumber else last_sequence_for_key in
      let drop :=
        if last_sequence_for_key <=? smallest_snapshot then
          (* Hidden by an newer entry for same user key *)
          true
        else
          match type with
          | kTypeDeletion =>
              (sequence <=? smallest_snapshot)
              && IsBaseLevelForKey env user_key
          | kTypeValue => false
          end in
      (drop, (current_user_key, true, sequence))
  end.

Definition with_compact (r : Status * CompactionState * list Call)
    (l : Locals) : Locals :=
  {| compact := r.1.2; status := r.1.1;
     current_user_key := current_user_key l;
     has_current_user_key := has_current_user_key l;
     last_sequence_for_key := last_sequence_for_key l;
     calls := (calls l ++ r.2)%list |}.

Definition set_calls (calls1 : list Call) (l : Locals) : Locals :=
  {| compact := compact l; status := status l;
     current_user_key := current_user_key l;
     has_current_user_key := has_current_user_key l;
     last_sequence_for_key := last_sequence_for_key l;
     calls := calls1 |}.

(** Lines 1005-1011: the current output is finished before the key. *)
Definition stop_before (it : Item) (l : Locals) : Result Locals :=
  if ShouldStopBefore it && bool_decide (builder (compact l) <> None) then
    r <- FinishCompactionOutputFile NDEBUG env (compact l) (input_status it) ;;
    Val (with_compact r l)
  else Val l.

(** Lines 1054-1059: open output file if necessary. *)
Definition open_output (l : Locals) : Result Locals :=
  match builder (compact l) with
  | None =>
      r <- OpenCompactionOutputFile NDEBUG env (compact l) ;;
      Val (with_compact r l)
  | Some _ => Val l
  end.

(** Lines 1060-1064: the entry is added to the current output. *)
Definition add_entry (it : Item) (l : Locals) : Result Locals :=
  match builder (compact l), last (outputs (compact l)) with
  | None, _ => Fail (NullDereference "compact->builder->NumEntries()")
  | Some _, None => Fail (OutOfBounds "compact->current_output()")
  | Some n, Some _ =>
      let c := compact l in
      Val {| compact :=
               {| smallest_snapshot := smallest_snapshot c;
                  outputs :=
                    set_current_output
                      (fun o =>
                         {| number := number o; file_size := file_size o;
                            smallest :=
                              if n =? 0 then Some (key it) else smallest o;
                            largest := Some (key it) |})
                      (outputs c);
                  outfile := outfile c;
                  builder := Some (u64 (n + 1));
                  total_bytes := total_bytes c |};
             status := status l;
             current_user_key := current_user_key l;
             has_current_user_key := has_current_user_key l;
             last_sequence_for_key := last_sequence_for_key l;
             calls := (calls l ++ [Add (key it) (value it)])%list |}
  end.

(** Lines 1066-1073: close output file if it is big enough. *)
Definition close_if_full (it : Item) (l : Locals) : Result Locals :=
  if full it then
    r <- FinishCompactionOutputFile NDEBUG env (compact l) (input_status it) ;;
    Val (with_compact r l)
  else Val l.

(** The loop (lines 991-1076). *)
Fixpoint work (items : list Item) (l : Locals) : Result Locals :=
  match items with
  | [] => Val l
  | it :: rest =>
      if shutting_down it then Val l
      else
        (* Prioritize immutable compaction work: the call of
           CompactMemTable() is recorded.  What it does to the DBImpl
           (it takes mutex_ again at line 633, or records a background
           error at line 647) is outside this trace, which goes on as
           if the call returned. *)
        let l :=
          if imm_pending it
          then set_calls (calls l ++ [CompactMemTable])%list l else l in
        l1 <- stop_before it l ;;
        if negb (ok (status l1)) then Val l1
        else
          let '(drop, (cuk, has, last_seq)) :=
            decide (smallest_snapshot (compact l1)) (key it)
              (current_user_key l1) (has_current_user_key l1)
              (last_sequence_for_key l1) in
          let l2 :=
            {| compact := compact l1; status := status l1;
               current_user_key := cuk; has_current_user_key := has;
               last_sequence_for_key := last_seq; calls := calls l1 |} in
          if drop then work rest l2
          else
            l3 <- open_output l2 ;;
            if negb (ok (status l3)) then Val l3
            else
              l4 <- add_entry it l3 ;;
              l5 <- close_if_full it l4 ;;
              if negb (ok (status l5)) then Val l5
              else work rest l5
  end.

(** [DoCompactionWork]; the statistics are left out. *)
Definition DoCompactionWork (compact0 : CompactionState) (items : list Item)
  : Result (Status * CompactionState * list Call) :=
  assert_ NDEBUG (NumLevelFiles_positive env)
    "versions_->NumLevelFiles(compact->compaction->level()) > 0" ;;;
  assert_ NDEBUG (bool_decide (builder compact0 = None))
    "compact->builder == nullptr" ;;;
  assert_ NDEBUG (negb (outfile compact0)) "compact->outfile == nullptr" ;;;
  let c :=
    {| smallest_snapshot :=
         match snapshots_ env with
         | [] => LastSequence env
         | oldest :: _ => oldest
         end;
       outputs := outputs compact0; outfile := outfile compact0;
       builder := builder compact0; total_bytes := total_bytes compact0 |} in
  l <- work items
         {| compact := c; status := OK; current_user_key := "";
            has_current_user_key := false;
            last_sequence_for_key := kMaxSequenceNumber; calls := [] |} ;;
  let status1 :=
    if ok (status l) && shutting_down_after env
    then IOError "Deleting DB during compaction" else status l in
  r <- (if ok status1 && bool_decide (builder (compact l) <> None) then
          FinishCompactionOutputFile NDEBUG env (compact l)
            (final_input_status env)
        else Val (status1, compact l, [])) ;;
  let '(status2, c2, calls2) := r in
  let status3 := if ok status2 then final_input_status env else status2 in
  let installed := [InstallCompactionResults (number <$> outputs c2)] in
  let status4 := if ok status3 then install_status env else status3 in
  Val (status4, c2,
       (calls l ++ calls2
        ++ (if ok status3 then installed else [])
        ++ (if ok status4 then [] else [RecordBackgroundError status4]))%list).

End Work.

(** The entries added to the output files, as the trace shows them. *)
Definition added (calls : list Call) : list (Key * string) :=
  omap (fun c => match c with Add k v => Some (k, v) | _ => None end) calls.

(** The entries the loop keeps: those it does not drop. *)
Fixpoint kept (kMaxSequenceNumber : Z) (env : CompactionEnv)
    (smallest_snapshot : Z) (items : list Item) (current_user_key : string)
    (has_current_user_key : bool) (last_sequence_for_key : Z)
  : list (Key * string) :=
  match items with
  | [] => []
  | it :: rest =>
      let '(drop, (cuk, has, last_seq)) :=
        decide kMaxSequenceNumber env smallest_snapshot (key it)
          current_user_key has_current_user_key last_sequence_for_key in
      if drop
      then kept kMaxSequenceNumber env smallest_snapshot rest cuk has last_seq
      else (key it, value it)
           :: kept kMaxSequenceNumber env smallest_snapshot rest cuk has
                last_seq
  end.

(** What the steps of the loop leave alone. *)
Definition same_scan (la lb : Locals) : Prop :=
  smallest_snapshot (compact lb) = smallest_snapshot (compact la) /\
  current_user_key lb = current_user_key la /\
  has_current_user_key lb = has_current_user_key la /\
  last_sequence_for_key lb = last_sequence_for_key la /\
  added (calls lb) = added (calls la).

(** The locals of the scan after an entry of user key [u] and sequence
    number [q], and at the start. *)
Definition scan_after (kMaxSequenceNumber : Z) (prev : option (string * Z))
  : string * bool * Z :=
  match prev with
  | Some (u, q) => (u, true, q)
  | None => ("", false, kMaxSequenceNumber)
  end.

(** The entries of the user key [k] that follow are hidden. *)
Definition hidden (smallest_snapshot : Z) (prev : option (string * Z))
    (k : string) : Prop :=
  match prev with
  | Some (u, q) => u = k /\ q <= smallest_snapshot
  | None => False
  end.

(** The calls the loop makes on the output files, as opposed to the
    flush nested in it and to the calls that end [DoCompactionWork]. *)
Definition loop_call (c : Call) : bool :=
  match c with
  | OpenFile _ | Add _ _ | FinishFile _ | AbandonFile _ => true
  | _ => false
  end.

(** [later] extends the trace of [earlier] by calls on the output
    files. *)
Definition extends (earlier later : Locals) : Prop :=
  exists more, calls later = (calls earlier ++ more)%list /\
               Forall (fun c => loop_call c = true) more.

(** The entries of the input. *)
Definition entries (items : list Item) : list (Key * string) :=
  (fun it => (key it, value it)) <$> items.

Definition parsed (k : Key) : bool :=
  match k with Parsed _ _ _ => true | Unparsed _ => false end.

(** What a read of the user key [k] at the snapshot [s] finds in a
    sorted run of entries: the value of the first entry of the key
    whose sequence number is at most [s], nothing when there is none or
    when it is a deletion. *)
Definition seen (k : string) (s : Z) (e : Key * string) : bool :=
  match e.1 with
  | Parsed user_key sequence _ => String.eqb user_key k && (sequence <=? s)
  | Unparsed _ => false
  end.

Definition read (k : string) (s : Z) (run : list (Key * string))
  : option string :=
  match find (seen k s) run with
  | Some (Parsed _ _ kTypeValue, v) => Some v
  | _ => None
  end.

(** The order of internal keys under a user comparator [lt]: ascending
    user key, then descending sequence number. *)
Definition key_lt (lt : string -> string -> Prop) (a b : Key) : Prop :=
  match a, b with
  | Parsed ua sa _, Parsed ub sb _ => lt ua ub \/ (ua = ub /\ sb < sa)
  | _, _ => False
  end.

Fixpoint sorted (lt : string -> string -> Prop) (keys : list Key) : Prop :=
  match keys with
  | [] => True
  | a :: r => Forall (key_lt lt a) r /\ sorted lt r
  end.

End Compact.

(** A compaction used in examples: two versions of one key and a
    deleted key, with no snapshot held. *)
Module CompactExamples.
Import Compact.

Definition kMaxSequenceNumber : Z := 2 ^ 56 - 1.

Definition shorter (a b : string) : Prop :=
  (String.length a < String.length b)%nat.

Definition entry (k : string) (seq : Z) (t : ValueType) (v : string) : Item :=
  {| key := Parsed k seq t; value := v; shutting_down := false;
     imm_pending := false; ShouldStopBefore := false; input_status := OK;
     full := false |}.

Definition input : list Item :=
  [entry "a" 9 kTypeValue "new"; entry "a" 5 kTypeValue "old";
   entry "bb" 7 kTypeDeletion ""; entry "bb" 3 kTypeValue "gone"].

Definition quiet : CompactionEnv :=
  {| NumLevelFiles_positive := true; snapshots_ := []; LastSequence := 10;
     IsBaseLevelForKey := fun _ => true;
     NewFileNumber := fun i => 12 + Z.of_nat i;
     file := fun _ => {| NewWritableFile := OK; Finish := OK;
                         FileSize := 4096; Sync := OK; Close := OK;
                         verify := OK |};
     shutting_down_after := false; final_input_status := OK;
     install_status := OK |}.

Definition fresh : CompactionState :=
  {| smallest_snapshot := 0; outputs := []; outfile := false;
     builder := None; total_bytes := 0 |}.

Definition compacted : CompactionState :=
  {| smallest_snapshot := 10;
     outputs := [{| number := 12; file_size := Some 4096;
                    smallest := Some (Parsed "a" 9 kTypeValue);
                    largest := Some (Parsed "a" 9 kTypeValue) |}];
     outfile := false; builder := None; total_bytes := 4096 |}.

Definition compaction_trace : list Call :=
  [OpenFile 12; Add (Parsed "a" 9 kTypeValue) "new"; FinishFile 12;
   InstallCompactionResults [12]].

End CompactExamples.

(** * Properties *)

(** ** Machine integers *)

Lemma swrap32_id x : Int.INT_MIN <= x <= Int.INT_MAX -> Int.swrap 32 x = x.
Proof.
  unfold Int.swrap, Int.INT_MIN, Int.INT_MAX. intros H.
  change (2 ^ (32 - 1)) with 2147483648.
  change (2 ^ 32) with 4294967296.
  change (2 ^ 31) with 2147483648 in H.
  rewrite Z.mod_small by lia. lia.
Qed.

Lemma wrap_id w x : 0 <= x < 2 ^ w -> Int.wrap w x = x.
Proof. intros H. unfold Int.wrap. now apply Z.mod_small. Qed.

Lemma u64_id x : 0 <= x < 2 ^ 64 -> Int.u64 x = x.
Proof. apply wrap_id. Qed.

Lemma u64_range x : 0 <= Int.u64 x < 2 ^ 64.
Proof. unfold Int.u64, Int.wrap. apply Z.mod_pos_bound. reflexivity. Qed.

Lemma conv_id t x : Int.in_type t x -> Int.conv t x = x.
Proof.
  destruct t; simpl; intros H.
  - now apply swrap32_id.
  - now apply wrap_id.
Qed.

(** ** SanitizeOptions *)

Section SanitizeFacts.
Import Int Sanitize Examples.

(** When the value survives the cast to [V = int], [ClipToRange] is the
    clamp to the nearest bound. *)
Lemma ClipToRange_int T ptr lo hi :
  INT_MIN <= ptr <= INT_MAX ->
  INT_MIN <= lo <= hi -> hi <= INT_MAX ->
  in_type T lo -> in_type T hi ->
  ClipToRange T c_int ptr lo hi = clamp lo hi ptr.
Proof.
  intros Hp Hlo Hhi Tlo Thi. unfold ClipToRange, clamp.
  rewrite (conv_id T lo Tlo), (conv_id T hi Thi).
  cbn [conv]. rewrite (swrap32_id ptr Hp).
  destruct (Z.gtb_spec ptr hi) as [Hgt | Hle].
  - rewrite swrap32_id by (split; lia).
    destruct (Z.ltb_spec hi lo); lia.
  - rewrite swrap32_id by exact Hp.
    destruct (Z.ltb_spec ptr lo); lia.
Qed.

(** [max_open_files] is an [int]: it is clipped for every input. *)
Lemma SanitizeOptions_max_open_files l o :
  in_type c_int (max_open_files o) ->
  max_open_files (SanitizeOptions l o) = clamp 74 50000 (max_open_files o).
Proof.
  intros H. cbn [SanitizeOptions max_open_files].
  apply ClipToRange_int; cbn in *; unfold INT_MIN, INT_MAX in *;
    unfold kNumNonTableCacheFiles; lia.
Qed.

(** The three sizes are clipped as long as they fit an [int]. *)
Lemma SanitizeOptions_sizes_within_int l o :
  0 <= write_buffer_size o <= INT_MAX ->
  0 <= max_file_size o <= INT_MAX ->
  0 <= block_size o <= INT_MAX ->
  write_buffer_size (SanitizeOptions l o)
    = clamp (64 * 1024) (1024 * 1024 * 1024) (write_buffer_size o) /\
  max_file_size (SanitizeOptions l o)
    = clamp (1024 * 1024) (1024 * 1024 * 1024) (max_file_size o) /\
  block_size (SanitizeOptions l o)
    = clamp 1024 (4 * 1024 * 1024) (block_size o).
Proof.
  intros Hw Hf Hb.
  cbn [SanitizeOptions write_buffer_size max_file_size block_size].
  unfold INT_MAX in *.
  repeat split;
    (rewrite ClipToRange_int;
     [ reflexivity | unfold INT_MIN, INT_MAX; lia
     | vm_compute; split; discriminate | vm_compute; discriminate
     | vm_compute; split; [discriminate | reflexivity]
     | vm_compute; split; [discriminate | reflexivity] ]).
Qed.

(** C8 (the code at the failing inputs).  A [size_t] value beyond the
    range of [int] is compared after [static_cast<int>]: 4 GiB + 1 MiB
    is seen as 1 MiB and left as it is, far above the 1 GiB bound, and
    2 GiB is seen as a negative number and replaced by the lower bound
    64 KiB although the upper bound is the nearest one. *)
Theorem SanitizeOptions_wide_size_not_clipped :
  let big := with_write_buffer_size (2 ^ 32 + 2 ^ 20) in
  let neg := with_write_buffer_size (2 ^ 31) in
  well_typed big /\ well_typed neg /\
  write_buffer_size (SanitizeOptions None big) = 2 ^ 32 + 2 ^ 20 /\
  ~ (64 * 1024 <= write_buffer_size (SanitizeOptions None big)
       <= 1024 * 1024 * 1024) /\
  write_buffer_size (SanitizeOptions None neg) = 64 * 1024 /\
  clamp (64 * 1024) (1024 * 1024 * 1024) (write_buffer_size neg)
    = 1024 * 1024 * 1024.
Proof.
  cbv zeta. repeat split; try (vm_compute; congruence).
  vm_compute. intros [_ H]. apply H. reflexivity.
Qed.

End SanitizeFacts.

(** ** Blocks *)

Section BlockFacts.
Import Int Block.

(** In table/block.cc a block that carries the error marker cannot be
    iterated: the assertion of [NumRestarts] fails, and without
    assertions the count is read from the four bytes before the
    buffer. *)
Lemma NewIterator_error_marker ndebug b :
  size_ b = 0 ->
  NewIterator ndebug b =
    Fail (if ndebug then OutOfBounds "DecodeFixed32(data_ + size_ - 4)"
          else AssertionFailure "size_ >= sizeof(uint32_t)").
Proof.
  intros H. unfold NewIterator, NumRestarts, assert_. rewrite H.
  destruct ndebug; reflexivity.
Qed.

Lemma Block_ctor_short ndebug contents type b :
  Z.of_nat (length (data contents)) < 4 ->
  Block_ctor ndebug contents type = Val b -> size_ b = 0.
Proof.
  intros Hlen. unfold Block_ctor.
  destruct (assert_ _ _ _); [|discriminate]. cbn [bind].
  destruct (Z.ltb_spec (Z.of_nat (length (data contents))) sizeof_uint32_t)
    as [_ | Hge]; [| unfold sizeof_uint32_t in Hge; lia].
  cbn. intros [= <-]. reflexivity.
Qed.

(** The earlier copy (part_000) does what the error marker is for. *)
Lemma Part000_Block_ctor_total ndebug contents type :
  exists b, Part000.Block_ctor ndebug contents type = Val b /\
    data_ b = data contents /\
    (size_ b = 0 \/ size_ b = Z.of_nat (length (data contents))).
Proof.
  unfold Part000.Block_ctor.
  destruct (Z.ltb_spec (Z.of_nat (length (data contents))) sizeof_uint32_t)
    as [Hlt | Hge].
  - eexists; split; [reflexivity|]. cbn. auto.
  - unfold NumRestarts, assert_.
    destruct (Z.leb_spec sizeof_uint32_t (Z.of_nat (length (data contents))));
      [|lia].
    rewrite orb_true_r. cbn [bind].
    unfold DecodeFixed32.
    generalize dependent (data contents). intros d Hge H.
    assert (Hb : forall i, 0 <= i < 4 ->
               exists v, byte_at d (Z.of_nat (length d) - sizeof_uint32_t + i)
                         = Some v).
    { intros i Hi. unfold byte_at, sizeof_uint32_t in *.
      destruct (Z.ltb_spec (Z.of_nat (length d) - 4 + i) 0); [lia|].
      destruct (lookup_lt_is_Some_2 d (Z.to_nat (Z.of_nat (length d) - 4 + i)))
        as [x Hx]; [lia|].
      rewrite Hx. eauto. }
    destruct (Hb 0) as [b0 H0]; [lia|]. rewrite Z.add_0_r in H0.
    destruct (Hb 1) as [b1 H1]; [lia|].
    destruct (Hb 2) as [b2 H2]; [lia|].
    destruct (Hb 3) as [b3 H3]; [lia|].
    rewrite H0, H1, H2, H3. cbn [bind].
    destruct (_ >? _); eexists; (split; [reflexivity|]); cbn; auto.
Qed.

Lemma Part000_bad_block_contents ndebug contents type b n :
  Z.of_nat (length (data contents)) < 4 \/
  (trailing_restarts (data contents) = Val n /\
   n > (Z.of_nat (length (data contents)) - 4) / 4) ->
  Part000.Block_ctor ndebug contents type = Val b ->
  size_ b = 0 /\
  Part000.NewIterator ndebug b
    = Val (ErrorIterator (Corruption "bad block contents")).
Proof.
  intros Hbad Hc.
  assert (Hs : size_ b = 0).
  { revert Hc. unfold Part000.Block_ctor.
    destruct (Z.ltb_spec (Z.of_nat (length (data contents))) sizeof_uint32_t)
      as [Hlt | Hge].
    - cbn. intros [= <-]. reflexivity.
    - destruct Hbad as [Hlt | [Ht Hn]]; [unfold sizeof_uint32_t in Hge; lia|].
      unfold NumRestarts, assert_.
      destruct (Z.leb_spec sizeof_uint32_t (Z.of_nat (length (data contents))));
        [|lia].
      rewrite orb_true_r. cbn [bind].
      unfold trailing_restarts in Ht. rewrite Ht. cbn [bind].
      unfold sizeof_uint32_t.
      destruct (Z.gtb_spec n ((Z.of_nat (length (data contents)) - 4) / 4));
        [|lia].
      cbn. intros [= <-]. reflexivity. }
  split; [exact Hs|].
  unfold Part000.NewIterator. rewrite Hs. reflexivity.
Qed.

(** C10 (the code at the failing inputs).  With table/block.cc, the
    empty contents give a block with the error marker, and
    [NewIterator] on it does not return the Corruption iterator: the
    assertion of [NumRestarts] fails, or, with assertions compiled out,
    the restart count is read outside the buffer.  Contents whose
    trailing count (5) exceeds what fits make the constructor itself
    run into [assert(false)]; without assertions the block gets the
    marker and [NewIterator] reads outside the buffer again. *)
Theorem NewIterator_ignores_error_marker :
  let short := {| data := [] |} in
  let many := {| data := ["005"; "000"; "000"; "000"]%byte |} in
  (forall ndebug, exists b,
      Block_ctor ndebug short DataBlock = Val b /\ size_ b = 0 /\
      NewIterator ndebug b =
        Fail (if ndebug then OutOfBounds "DecodeFixed32(data_ + size_ - 4)"
              else AssertionFailure "size_ >= sizeof(uint32_t)")) /\
  trailing_restarts (data many) = Val 5 /\
  Block_ctor false many DataBlock = Fail (AssertionFailure "false") /\
  (exists b, Block_ctor true many DataBlock = Val b /\ size_ b = 0 /\
      NewIterator true b = Fail (OutOfBounds "DecodeFixed32(data_ + size_ - 4)")).
Proof.
  cbv zeta. repeat split.
  - intros ndebug. destruct ndebug; eexists; repeat split; reflexivity.
  - eexists. repeat split; reflexivity.
Qed.

(** A well-formed block with no restart point gives the empty iterator
    in both copies of the file. *)
Lemma NewIterator_zero_restarts ndebug b :
  4 <= size_ b ->
  NumRestarts ndebug (data_ b) (size_ b) = Val 0 ->
  NewIterator ndebug b = Val EmptyIterator /\
  Part000.NewIterator ndebug b = Val EmptyIterator.
Proof.
  intros Hs Hn. unfold NewIterator, Part000.NewIterator.
  rewrite Hn. cbn [bind]. unfold assert_. cbn.
  rewrite orb_true_r. cbn.
  destruct (Z.ltb_spec (size_ b) sizeof_uint32_t) as [H|H];
    [unfold sizeof_uint32_t in H; lia|]. auto.
Qed.

End BlockFacts.

Lemma ok_OK s : ok s = true -> s = OK.
Proof. destruct s; cbn; congruence. Qed.

(** ** Background errors and scheduling *)

Section ScheduleFacts.
Import DB.

Lemma set_scheduled_neq n st : n <> scheduled_ st -> set_scheduled n st <> st.
Proof. intros Hn Heq. apply (f_equal scheduled_) in Heq. cbn in Heq. congruence. Qed.

Lemma MaybeScheduleCompaction_cases st :
  MaybeScheduleCompaction st
    = if nothing_to_schedule st then st
      else set_scheduled (S (scheduled_ st)) st.
Proof.
  unfold MaybeScheduleCompaction, nothing_to_schedule.
  repeat match goal with |- context [if ?c then _ else _] => destruct c end;
    reflexivity.
Qed.

Lemma nothing_to_schedule_spec st :
  nothing_to_schedule st = true <->
  shutting_down_ st = true \/ bg_error_ st <> OK \/
  (imm_ st = None /\ manual_compaction_ st = false /\
   needs_compaction_ (versions_ st) = false).
Proof.
  unfold nothing_to_schedule.
  destruct (shutting_down_ st); [tauto|].
  destruct (bg_error_ st); cbn;
    try (split; [intros _; right; left; discriminate | reflexivity]).
  destruct (imm_ st), (manual_compaction_ st),
    (needs_compaction_ (versions_ st)); cbn;
    split; intros H; try discriminate; try reflexivity;
    try (right; right; done);
    destruct H as [H | [H | (H1 & H2 & H3)]]; congruence.
Qed.

(** C6 (counterexample).  Nothing to flush and no manual compaction
    pending, but the Version asks for a compaction: the call is not a
    no-op, it hands a [BGWork] to the environment; and a second call in
    the resulting state is not a no-op either. *)
Lemma MaybeScheduleCompaction_not_noop :
  let st :=
    {| heap := [SetLargestSeq 63 new_MemTable]; mem_ := Some 0%nat;
       imm_ := None; has_imm_ := false; shutting_down_ := false;
       bg_error_ := OK; manual_compaction_ := false; logfile_number_ := 2;
       versions_ :=
         {| last_sequence_ := 0; next_file_number_ := 3; log_number_ := 0;
            prev_log_number_ := 0; current_ := [];
            needs_compaction_ := true |};
       scheduled_ := 0; memtable_counter := 0; kv_counter0 := 0;
       kv_counter1 := 0 |} in
  shutting_down_ st = false /\ bg_error_ st = OK /\
  imm_ st = None /\ manual_compaction_ st = false /\
  scheduled_ (MaybeScheduleCompaction st) = 1%nat /\
  MaybeScheduleCompaction st <> st /\
  scheduled_ (MaybeScheduleCompaction (MaybeScheduleCompaction st)) = 2%nat /\
  MaybeScheduleCompaction (MaybeScheduleCompaction st)
    <> MaybeScheduleCompaction st.
Proof. cbv zeta. repeat split; try reflexivity; discriminate. Qed.

(** C6 (amended).  [MaybeScheduleCompaction] leaves the state as it is
    exactly when shutdown has been requested, or a background error is
    latched, or there is no immutable MemTable, no manual compaction
    and the Version does not need a compaction; in every other state
    it hands one [BGWork] to the environment and changes nothing
    else. *)
Theorem MaybeScheduleCompaction_decision st :
  (MaybeScheduleCompaction st = st <->
     shutting_down_ st = true \/ bg_error_ st <> OK \/
     (imm_ st = None /\ manual_compaction_ st = false /\
      needs_compaction_ (versions_ st) = false)) /\
  (MaybeScheduleCompaction st <> st ->
     MaybeScheduleCompaction st = set_scheduled (S (scheduled_ st)) st).
Proof.
  rewrite <- nothing_to_schedule_spec.
  rewrite !MaybeScheduleCompaction_cases.
  destruct (nothing_to_schedule st) eqn:E.
  - repeat split; try congruence; intros; congruence.
  - repeat split; try congruence.
    intros H. exfalso. revert H. apply set_scheduled_neq. cbn. lia.
Qed.

End ScheduleFacts.

(** ** DB::Open *)

Section OpenFacts.
Import Int DB Examples.

Lemma MaybeScheduleCompaction_frame st :
  heap (MaybeScheduleCompaction st) = heap st /\
  mem_ (MaybeScheduleCompaction st) = mem_ st /\
  imm_ (MaybeScheduleCompaction st) = imm_ st /\
  bg_error_ (MaybeScheduleCompaction st) = bg_error_ st /\
  shutting_down_ (MaybeScheduleCompaction st) = shutting_down_ st /\
  versions_ (MaybeScheduleCompaction st) = versions_ st.
Proof.
  rewrite MaybeScheduleCompaction_cases.
  destruct (nothing_to_schedule st); repeat split.
Qed.

Lemma LogAndApply_frame s needs edit st st1 s1 :
  LogAndApply s needs edit st = (st1, s1) ->
  heap st1 = heap st /\ mem_ st1 = mem_ st /\ imm_ st1 = imm_ st /\
  bg_error_ st1 = bg_error_ st /\ s1 = s.
Proof.
  unfold LogAndApply. destruct (ok s); intros [= <- <-]; repeat split.
Qed.

Lemma Open_create_memtable_fresh SIZE env impl s edit :
  recover_mem env = None ->
  Open_create_memtable SIZE env = (impl, s, edit) ->
  ok s = true ->
  mem_ impl = Some 0%nat /\
  heap impl = [SetLargestSeq (u64 (SIZE - 1)) (SetFirstSeq 0 new_MemTable)] /\
  imm_ impl = None /\ bg_error_ impl = OK.
Proof.
  intros Hmem. unfold Open_create_memtable, after_Recover. rewrite Hmem.
  cbn [mem_ versions_ NewFileNumber].
  destruct (ok (recover_status env)) eqn:E1.
  - destruct (ok (new_log_status env)) eqn:E2.
    + cbn. intros [= <- <- <-] _. repeat split.
    + cbn. intros [= <- <- <-]. congruence.
  - cbn. intros [= <- <- <-]. congruence.
Qed.

(** C9.  After a successful [Open] that recovered no MemTable, [mem_]
    is not null and points to a MemTable whose window is
    [0, MEMTABLE_SEQ_SIZE - 1]: it begins at sequence 0. *)
Theorem Open_fresh_window MEMTABLE_SEQ_SIZE NDEBUG env s impl :
  0 < MEMTABLE_SEQ_SIZE <= 2 ^ 64 ->
  recover_mem env = None ->
  Open MEMTABLE_SEQ_SIZE NDEBUG env = Val (s, Some impl) ->
  s = OK /\
  exists p m, mem_ impl = Some p /\ heap impl !! p = Some m /\
    first_seq m = 0 /\
    largest_seq_supposed m = MEMTABLE_SEQ_SIZE - 1 /\
    kv_num m = 0 /\ table m = [] /\ imm_ impl = None.
Proof.
  intros Hsize Hmem. unfold Open.
  destruct (Open_create_memtable _ env) as [[impl1 s1] edit1] eqn:E1.
  destruct (Open_save_manifest env impl1 s1 edit1) as [impl2 s2] eqn:E2.
  destruct (ok s2) eqn:Hs2; [|discriminate].
  unfold assert_, bind.
  destruct (NDEBUG || _); [|discriminate].
  intros [= <- <-].
  assert (Hs1 : ok s1 = true /\ heap impl2 = heap impl1 /\
                mem_ impl2 = mem_ impl1 /\ imm_ impl2 = imm_ impl1).
  { revert E2. unfold Open_save_manifest.
    destruct (ok s1) eqn:Hs1; cbn [andb].
    - destruct (recover_save_manifest env).
      + intros H. apply LogAndApply_frame in H. tauto.
      + intros [= <- <-]. tauto.
    - intros [= <- <-]. congruence. }
  destruct Hs1 as (Hs1 & Hh & Hm & Hi).
  destruct (Open_create_memtable_fresh _ _ _ _ _ Hmem E1 Hs1)
    as (Hm1 & Hh1 & Hi1 & _).
  destruct (MaybeScheduleCompaction_frame impl2) as (Fh & Fm & Fi & _).
  split; [now apply ok_OK|].
  exists 0%nat, (SetLargestSeq (u64 (MEMTABLE_SEQ_SIZE - 1))
                   (SetFirstSeq 0 new_MemTable)).
  rewrite Fh, Fm, Fi, Hh, Hm, Hi, Hh1, Hm1, Hi1.
  repeat split. cbn. apply u64_id. lia.
Qed.

Lemma Open_fresh_window_witness :
  Open 64 false fresh_env = Val (OK, Some (fresh_db 64)) /\
  exists p m, mem_ (fresh_db 64) = Some p /\ heap (fresh_db 64) !! p = Some m /\
    first_seq m = 0 /\ largest_seq_supposed m = 63.
Proof.
  split; [vm_compute; reflexivity|].
  destruct (Open_fresh_window 64 false fresh_env OK (fresh_db 64))
    as (_ & p & m & H1 & H2 & H3 & H4 & _).
  - lia.
  - reflexivity.
  - vm_compute; reflexivity.
  - exists p, m. repeat split; assumption.
Defined.

End OpenFacts.

(** ** The flush worker, run on its own *)

Section CompactFacts.
Import Int DB Examples.

Lemma lookup_update p f st q :
  heap (update p f st) !! q
    = if decide (p = q) then f <$> heap st !! q else heap st !! q.
Proof.
  unfold update. cbn. destruct (decide (p = q)) as [->|Hne].
  - apply list_lookup_alter_eq.
  - now apply list_lookup_alter_ne.
Qed.

Lemma lookup_update_eq p f st :
  heap (update p f st) !! p = f <$> heap st !! p.
Proof. rewrite lookup_update. now destruct (decide (p = p)). Qed.

Lemma run_bg_step nd n stop env st pc st1 pc1 :
  stop pc = false -> spinning st pc = false ->
  bg_step nd env st pc = Val (st1, pc1) ->
  run_bg nd (S n) stop env st pc = run_bg nd n stop env st1 pc1.
Proof. intros H1 H2 H3. cbn [run_bg]. now rewrite H1, H2, H3. Qed.

Lemma run_bg_stop nd n stop env st pc :
  stop pc = true -> run_bg nd n stop env st pc = Returned st tt.
Proof. intros H. destruct n; cbn [run_bg]; now rewrite H. Qed.

#[local] Arguments run_bg : simpl never.

Ltac bg_next :=
  etransitivity;
  [ apply run_bg_step; [ reflexivity | cbn | cbn ] | ].

Lemma CompactMemTable_failure_run NDEBUG env st i m :
  imm_ st = Some i -> heap st !! i = Some m ->
  able_to_flush m = true -> CheckFlushScheduled m = false ->
  ok (flush_status env st) = false ->
  CompactMemTable NDEBUG env st =
    Returned
      (RecordBackgroundError (flush_status env st)
         (set_versions (snd (NewFileNumber (versions_ st)))
            (update i (SetFlushState FLUSH_SCHEDULED) st))) tt.
Proof.
  intros Himm Hm Hable Hsched Hs.
  unfold CompactMemTable.
  bg_next.
  { reflexivity. }
  { unfold assert_, deref_opt, deref. rewrite Himm. cbn. rewrite Hm. cbn.
    rewrite Hsched, !orb_true_r. cbn. reflexivity. }
  bg_next.
  { now rewrite Hm, Hable. }
  { unfold deref. rewrite Hm. cbn. rewrite Hable. reflexivity. }
  bg_next.
  { reflexivity. }
  { unfold deref. rewrite Hm. cbn. reflexivity. }
  bg_next.
  { reflexivity. }
  { unfold deref_opt, deref. rewrite Himm. cbn.
    rewrite list_lookup_alter_eq, Hm. cbn. reflexivity. }
  etransitivity.
  { eapply (run_bg_step _ _ _ _ _ _ _ (Compact_apply (flush_status env st) _));
      [reflexivity | reflexivity |].
    cbn. unfold flush_status.
    destruct (ok (build_status env) && shutting_down_ st); reflexivity. }
  bg_next.
  { reflexivity. }
  { rewrite Hs. reflexivity. }
  bg_next.
  { reflexivity. }
  { rewrite Hs. reflexivity. }
  apply run_bg_stop. reflexivity.
Qed.

(** C7 (counterexample).  The immutable table is complete, nothing is
    shutting down, and [BuildTable] fails with a Corruption: what
    [CompactMemTable] latches is that Corruption, not an IOError
    "Deleting DB during ...". *)
Lemma CompactMemTable_build_failure_is_not_IOError :
  shutting_down_ db_rotated = false /\
  imm_ db_rotated = Some 0%nat /\
  exists st,
    CompactMemTable false failing_build db_rotated = Returned st tt /\
    bg_error_ st = Corruption "bad table" /\
    (forall msg, bg_error_ st <> IOError msg).
Proof.
  repeat split. eexists. split; [vm_compute; reflexivity|].
  split; [reflexivity|]. intros msg. discriminate.
Qed.

(** C7 (amended).  When the immutable table is complete and the flush
    fails before the version edit is applied, [CompactMemTable] returns
    with the failure handed to [RecordBackgroundError]: the IOError
    "Deleting DB during memtable compaction" when the table was built
    and [shutting_down_] is then seen set, the status of the build
    itself when the build fails.  [RecordBackgroundError] latches it
    unless an earlier error is latched.  [imm_] and [mem_] keep their
    tables and the current Version is the one from before; the flush
    state of the table has already been set to FLUSH_SCHEDULED. *)
Theorem CompactMemTable_failure NDEBUG env st i m :
  imm_ st = Some i -> heap st !! i = Some m ->
  able_to_flush m = true -> CheckFlushScheduled m = false ->
  ok (flush_status env st) = false ->
  exists st1,
    CompactMemTable NDEBUG env st = Returned st1 tt /\
    (ok (build_status env) = true -> shutting_down_ st = true ->
       flush_status env st = IOError "Deleting DB during memtable compaction") /\
    (ok (build_status env) = false -> flush_status env st = build_status env) /\
    bg_error_ st1 =
      (if ok (bg_error_ st) then flush_status env st else bg_error_ st) /\
    imm_ st1 = Some i /\ mem_ st1 = mem_ st /\
    current_ (versions_ st1) = current_ (versions_ st) /\
    heap st1 !! i = Some (SetFlushState FLUSH_SCHEDULED m).
Proof.
  intros Himm Hm Hable Hsched Hs.
  eexists. split.
  { eapply CompactMemTable_failure_run; eassumption. }
  unfold flush_status, RecordBackgroundError.
  repeat split.
  - intros -> ->. reflexivity.
  - intros ->. reflexivity.
  - cbn. destruct (ok (bg_error_ st)); reflexivity.
  - cbn. destruct (ok (bg_error_ st)); cbn; assumption.
  - cbn. destruct (ok (bg_error_ st)); reflexivity.
  - cbn. destruct (ok (bg_error_ st)); reflexivity.
  - cbn. destruct (ok (bg_error_ st)); cbn;
      now rewrite list_lookup_alter_eq, Hm.
Qed.

Lemma CompactMemTable_failure_witness :
  exists st1,
    CompactMemTable false failing_build db_rotated = Returned st1 tt /\
    bg_error_ st1 = Corruption "bad table" /\
    imm_ st1 = Some 0%nat /\
    current_ (versions_ st1) = current_ (versions_ db_rotated).
Proof.
  destruct (CompactMemTable_failure false failing_build db_rotated 0%nat
              {| first_seq := 0; largest_seq_supposed := 1; kv_num := 2;
                 flush_state := FLUSH_REQUESTED;
                 table := [entry_of (BatchPut "a" "1") 0;
                           entry_of (BatchPut "b" "2") 1] |})
    as (st1 & Hrun & _ & _ & Herr & Himm & _ & Hcur & _);
    try (vm_compute; reflexivity).
  exists st1. repeat split; assumption.
Defined.

End CompactFacts.

(** ** The write path *)

Section WriteFacts.
Import Int DB Examples.

Ltac break_step H :=
  unfold write_step, bg_step, bind, assert_, deref_opt, deref,
    loop_head, search_head, alloc, WriteLevel0Table, LogAndApply,
    AssignSequnceNumbers, NewFileNumber in H;
  cbn in H; repeat case_match; simplify_eq;
  repeat match goal with
         | E : bool_decide _ = true |- _ => apply bool_decide_eq_true in E
         | E : bool_decide _ = false |- _ => apply bool_decide_eq_false in E
         end.

Lemma write_step_bg_error SIZE nd updates st pc st1 pc1 :
  write_step SIZE nd updates st pc = Val (st1, pc1) ->
  bg_error_ st1 = bg_error_ st /\ shutting_down_ st1 = shutting_down_ st.
Proof.
  intros H. destruct pc; break_step H; cbn;
    rewrite ?MaybeScheduleCompaction_cases; repeat case_match; auto.
Qed.

Lemma write_step_carries_OK SIZE nd updates st pc st1 pc1 :
  write_step SIZE nd updates st pc = Val (st1, pc1) ->
  carries_OK pc -> carries_OK pc1.
Proof.
  intros H Hc. destruct pc; break_step H; cbn in *; auto; congruence.
Qed.

(** How the heap of MemTables evolves. *)

Lemma cell_le_refl m : cell_le m m.
Proof. unfold cell_le. lia. Qed.

Lemma heap_le_refl h : heap_le h h.
Proof. intros p m H. exists m. split; [exact H | apply cell_le_refl]. Qed.

Lemma heap_le_trans h1 h2 h3 : heap_le h1 h2 -> heap_le h2 h3 -> heap_le h1 h3.
Proof.
  intros H12 H23 p m H.
  destruct (H12 p m H) as (m2 & H2 & L2).
  destruct (H23 p m2 H2) as (m3 & H3 & L3).
  exists m3. split; [exact H3|]. unfold cell_le in *. intuition congruence || lia.
Qed.

Lemma heap_le_snoc h m : heap_le h (h ++ [m]).
Proof.
  intros p x H. exists x. split; [|apply cell_le_refl].
  rewrite lookup_app_l; [exact H|]. now apply lookup_lt_Some in H.
Qed.

Lemma heap_le_alter h p f :
  (forall m, cell_le m (f m)) -> heap_le h (alter f p h).
Proof.
  intros Hf q m H. destruct (decide (p = q)) as [->|Hne].
  - exists (f m). rewrite list_lookup_alter_eq, H. split; [reflexivity | apply Hf].
  - exists m. rewrite list_lookup_alter_ne by exact Hne.
    split; [exact H | apply cell_le_refl].
Qed.

Lemma no_new_scheduled_refl h : no_new_scheduled h h.
Proof. intros p m H Hp. eauto. Qed.

Lemma no_new_scheduled_snoc h m :
  ~ past_FlushRequested m -> no_new_scheduled h (h ++ [m]).
Proof.
  intros Hm p x H Hp. apply lookup_snoc_Some in H as [[_ H] | [_ ->]].
  - eauto.
  - contradiction.
Qed.

Lemma no_new_scheduled_alter h p f :
  (forall m, past_FlushRequested (f m) -> past_FlushRequested m) ->
  no_new_scheduled h (alter f p h).
Proof.
  intros Hf q x H Hp. destruct (decide (p = q)) as [->|Hne].
  - rewrite list_lookup_alter_eq in H.
    destruct (h !! q) as [m|] eqn:E; [|discriminate].
    injection H as <-. eauto.
  - rewrite list_lookup_alter_ne in H by exact Hne. eauto.
Qed.

Lemma Count_nonneg b : 0 <= Count b.
Proof. unfold Count. lia. Qed.

Lemma from_option_Count_nonneg u : 0 <= from_option Count 0 u.
Proof. destruct u; cbn; [apply Count_nonneg | lia]. Qed.

Lemma cell_le_SetFlushState f m : cell_le m (SetFlushState f m).
Proof. unfold cell_le. cbn. lia. Qed.

Lemma cell_le_set_table t m : cell_le m (set_table t m).
Proof. unfold cell_le. cbn. lia. Qed.

Lemma cell_le_increase n m : 0 <= n -> cell_le m (increase_kv_num n m).
Proof. unfold cell_le. cbn. lia. Qed.

Lemma next_MemTable_not_past SIZE l : ~ past_FlushRequested (next_MemTable SIZE l).
Proof. intros [H|H]; discriminate. Qed.

Lemma write_step_heap_le SIZE nd updates st pc st1 pc1 :
  write_step SIZE nd updates st pc = Val (st1, pc1) ->
  heap_le (heap st) (heap st1).
Proof.
  intros H. destruct pc; break_step H; cbn;
    rewrite ?(proj1 (MaybeScheduleCompaction_frame _));
    first [ apply heap_le_refl | apply heap_le_snoc
          | apply heap_le_alter; intros m;
            first [ apply cell_le_SetFlushState | apply cell_le_set_table
                  | apply cell_le_increase, from_option_Count_nonneg ] ].
Qed.

Lemma write_step_no_new_scheduled SIZE nd updates st pc st1 pc1 :
  write_step SIZE nd updates st pc = Val (st1, pc1) ->
  no_new_scheduled (heap st) (heap st1).
Proof.
  intros H. destruct pc; break_step H; cbn;
    rewrite ?(proj1 (MaybeScheduleCompaction_frame _));
    first [ apply no_new_scheduled_refl
          | apply no_new_scheduled_snoc, next_MemTable_not_past
          | apply no_new_scheduled_alter; intros m [Hm|Hm]; cbn in Hm;
            first [ discriminate | left; exact Hm | right; exact Hm ] ].
Qed.

Lemma bg_step_heap_le nd env st pc st1 pc1 :
  bg_step nd env st pc = Val (st1, pc1) ->
  heap_le (heap st) (heap st1).
Proof.
  intros H. destruct pc; break_step H; cbn;
    unfold RecordBackgroundError; repeat case_match; cbn;
    rewrite ?(proj1 (MaybeScheduleCompaction_frame _));
    first [ apply heap_le_refl
          | apply heap_le_alter; intros m; apply cell_le_SetFlushState ].
Qed.

Lemma bg_step_no_new_scheduled nd env st pc st1 pc1 :
  bg_step nd env st pc = Val (st1, pc1) ->
  no_new_scheduled (heap st) (heap st1) \/
  exists imm, pc = Compact_set_state imm /\
    heap st1 = alter (SetFlushState FLUSH_SCHEDULED) imm (heap st).
Proof.
  intros H. destruct pc; break_step H; cbn;
    unfold RecordBackgroundError; repeat case_match; cbn;
    rewrite ?(proj1 (MaybeScheduleCompaction_frame _));
    first [ left; apply no_new_scheduled_refl | right; eauto ].
Qed.

Lemma write_step_mem SIZE nd updates st pc st1 pc1 :
  write_step SIZE nd updates st pc = Val (st1, pc1) ->
  mem_ st1 = mem_ st \/
  exists seq a b, pc = Pickup_cas seq a b /\
    mem_ st = Some a /\ mem_ st1 = Some b.
Proof.
  intros H. destruct pc; break_step H; cbn;
    rewrite ?(proj1 (proj2 (MaybeScheduleCompaction_frame _)));
    first [ left; congruence | right; eauto 10 ].
Qed.

Lemma bg_step_mem nd env st pc st1 pc1 :
  bg_step nd env st pc = Val (st1, pc1) -> mem_ st1 = mem_ st.
Proof.
  intros H. destruct pc; break_step H; cbn;
    unfold RecordBackgroundError; repeat case_match; cbn;
    rewrite ?(proj1 (proj2 (MaybeScheduleCompaction_frame _)));
    reflexivity.
Qed.

Lemma next_window_le SIZE st st1 a b :
  heap_le (heap st) (heap st1) ->
  next_window SIZE st a b -> next_window SIZE st1 a b.
Proof.
  intros Hle (ma & mb & Ha & Hb & Hf & Hl).
  destruct (Hle a ma Ha) as (ma1 & Ha1 & Fa & La & _).
  destruct (Hle b mb Hb) as (mb1 & Hb1 & Fb & Lb & _).
  exists ma1, mb1. repeat split; congruence.
Qed.

Lemma write_step_rotating SIZE nd updates st pc st1 pc1 a b :
  write_step SIZE nd updates st pc = Val (st1, pc1) ->
  rotating (Writer updates pc1) = Some (a, b) ->
  rotating (Writer updates pc) = Some (a, b) \/ next_window SIZE st1 a b.
Proof.
  intros H Hr. destruct pc; break_step H; cbn in Hr; simplify_eq;
    try (left; reflexivity).
  right. unfold next_window. cbn [heap set_heap].
  match goal with
  | Hm : heap st !! ?p = Some ?m |- _ =>
      exists m, (next_MemTable SIZE (largest_seq_supposed m));
      split; [rewrite lookup_app_l; [exact Hm | now apply lookup_lt_Some in Hm]|]
  end.
  split; [apply list_lookup_middle; reflexivity|].
  split; reflexivity.
Qed.

Lemma complete_le st st1 i :
  heap_le (heap st) (heap st1) -> complete st i -> complete st1 i.
Proof.
  intros Hle (m & Hm & Hc).
  destruct (Hle i m Hm) as (m1 & Hm1 & Hf & Hl & Hk).
  exists m1. split; [exact Hm1|]. unfold window_size in *. lia.
Qed.

Lemma bg_step_about_to_schedule nd env st pc st1 pc1 i :
  bg_step nd env st pc = Val (st1, pc1) ->
  about_to_schedule (Flusher env pc1) = Some i ->
  complete st1 i.
Proof.
  intros H Hi. destruct pc; break_step H; cbn in Hi; simplify_eq.
  match goal with
  | Hm : heap ?s !! i = Some ?m, Ha : able_to_flush ?m = true |- _ =>
      exists m; split; [exact Hm|];
      unfold able_to_flush in Ha; apply Z.eqb_eq in Ha; lia
  end.
Qed.

End WriteFacts.

(** ** Threads side by side: what every action preserves *)

Section SystemFacts.
Import Int DB Examples.

Lemma Get_frame st snapshot key stats st1 r :
  Get st snapshot key stats = Val (st1, r) ->
  heap st1 = heap st /\ mem_ st1 = mem_ st /\ imm_ st1 = imm_ st /\
  bg_error_ st1 = bg_error_ st.
Proof.
  unfold Get, bind, deref_opt, deref. intros H.
  destruct (MaybeScheduleCompaction_frame st) as (F1 & F2 & F3 & F4 & _).
  repeat case_match; simplify_eq; repeat split; assumption.
Qed.

Lemma thread_step_heap_le SIZE nd st t st1 t1 :
  thread_step SIZE nd st t = Val (st1, t1) -> heap_le (heap st) (heap st1).
Proof.
  destruct t as [u pc | env pc]; cbn; unfold bind; intros H.
  - destruct (write_step SIZE nd u st pc) as [[x y]|] eqn:E; cbn in H;
      simplify_eq. eapply write_step_heap_le, E.
  - destruct (bg_step nd env st pc) as [[x y]|] eqn:E; cbn in H;
      simplify_eq. eapply bg_step_heap_le, E.
Qed.

Lemma thread_step_mem SIZE nd st t st1 t1 :
  thread_step SIZE nd st t = Val (st1, t1) ->
  mem_ st1 = mem_ st \/
  exists a b, rotating t = Some (a, b) /\ mem_ st = Some a /\ mem_ st1 = Some b.
Proof.
  destruct t as [u pc | env pc]; cbn; unfold bind; intros H.
  - destruct (write_step SIZE nd u st pc) as [[x y]|] eqn:E; cbn in H;
      simplify_eq.
    destruct (write_step_mem _ _ _ _ _ _ _ E) as [Hm | (seq & a & b & -> & Ha & Hb)];
      [left; exact Hm | right; exists a, b; auto].
  - destruct (bg_step nd env st pc) as [[x y]|] eqn:E; cbn in H;
      simplify_eq. left. eapply bg_step_mem, E.
Qed.

Lemma thread_step_rotating SIZE nd st t st1 t1 a b :
  thread_step SIZE nd st t = Val (st1, t1) ->
  rotating t1 = Some (a, b) ->
  rotating t = Some (a, b) \/ next_window SIZE st1 a b.
Proof.
  destruct t as [u pc | env pc]; cbn; unfold bind; intros H Hr.
  - destruct (write_step SIZE nd u st pc) as [[x y]|] eqn:E; cbn in H;
      simplify_eq. eapply write_step_rotating; eassumption.
  - destruct (bg_step nd env st pc) as [[x y]|] eqn:E; cbn in H;
      [injection H as <- <-; discriminate Hr | discriminate H].
Qed.

(** The three ways a thread of the next state came about. *)
Lemma act_threads SIZE nd a s s1 j t1 :
  act SIZE nd a s = Some s1 ->
  threads s1 !! j = Some t1 ->
  threads s !! j = Some t1 \/
  (exists t, threads s !! j = Some t /\
             thread_step SIZE nd (db s) t = Val (db s1, t1)) \/
  just_started t1.
Proof.
  intros Ha Hj. destruct a; cbn in Ha.
  - destruct (threads s !! i) as [t|] eqn:Ei; [|discriminate].
    destruct (thread_step SIZE nd (db s) t) as [[st t2]|] eqn:Es;
      [|discriminate].
    injection Ha as <-. cbn in *.
    destruct (decide (i = j)) as [->|Hne].
    + rewrite list_lookup_insert_eq in Hj by (now apply lookup_lt_Some in Ei).
      injection Hj as <-. right. left. eauto.
    + rewrite list_lookup_insert_ne in Hj by exact Hne. now left.
  - injection Ha as <-. cbn in *.
    apply lookup_snoc_Some in Hj as [[_ Hj] | [_ <-]]; [now left|].
    right. right. exact I.
  - destruct (Get _ _ _ _) as [[st r]|]; [|discriminate].
    injection Ha as <-. now left.
  - destruct (scheduled_ (db s)); [discriminate|].
    injection Ha as <-. cbn in *.
    apply lookup_snoc_Some in Hj as [[_ Hj] | [_ <-]]; [now left|].
    right. right. exact I.
  - injection Ha as <-. now left.
Qed.

(** What an action does to the heap and to [mem_]. *)
Lemma act_db SIZE nd a s s1 :
  act SIZE nd a s = Some s1 ->
  (heap (db s1) = heap (db s) /\ mem_ (db s1) = mem_ (db s)) \/
  exists i t t1, a = Run i /\ threads s !! i = Some t /\
    thread_step SIZE nd (db s) t = Val (db s1, t1).
Proof.
  intros Ha. destruct a; cbn in Ha.
  - destruct (threads s !! i) as [t|] eqn:Ei; [|discriminate].
    destruct (thread_step SIZE nd (db s) t) as [[st t2]|] eqn:Es;
      [|discriminate].
    injection Ha as <-. right. exists i, t, t2. auto.
  - injection Ha as <-. now left.
  - destruct (Get _ _ _ _) as [[st r]|] eqn:E; [|discriminate].
    injection Ha as <-. apply Get_frame in E. left. cbn. tauto.
  - destruct (scheduled_ (db s)); [discriminate|].
    injection Ha as <-. now left.
  - injection Ha as <-. now left.
Qed.

Lemma act_heap_le SIZE nd a s s1 :
  act SIZE nd a s = Some s1 -> heap_le (heap (db s)) (heap (db s1)).
Proof.
  intros Ha. destruct (act_db _ _ _ _ _ Ha) as [[Hh _] | (i & t & t1 & _ & _ & Hs)].
  - rewrite Hh. apply heap_le_refl.
  - eapply thread_step_heap_le, Hs.
Qed.

Lemma Open_create_memtable_heap SIZE env impl s edit :
  Open_create_memtable SIZE env = (impl, s, edit) ->
  ok s = true ->
  exists m0, mem_ impl = Some 0%nat /\ heap impl = [m0] /\
    flush_state m0 = FLUSH_NOT_REQUESTED /\ kv_num m0 = 0 /\
    imm_ impl = None /\ bg_error_ impl = OK.
Proof.
  destruct (recover_mem env) as [es|] eqn:Hmem.
  - unfold Open_create_memtable, after_Recover. rewrite Hmem.
    cbn [mem_]. rewrite andb_false_r.
    intros [= <- <- <-] _. eexists. repeat split.
  - intros H Hs.
    destruct (Open_create_memtable_fresh _ _ _ _ _ Hmem H Hs)
      as (H1 & H2 & H3 & H4).
    eexists. repeat split; eauto.
Qed.

Lemma Open_success SIZE nd env s impl :
  Open SIZE nd env = Val (s, Some impl) ->
  exists m0, mem_ impl = Some 0%nat /\ heap impl = [m0] /\
    flush_state m0 = FLUSH_NOT_REQUESTED /\ kv_num m0 = 0 /\
    imm_ impl = None /\ bg_error_ impl = OK.
Proof.
  unfold Open.
  destruct (Open_create_memtable _ env) as [[impl1 s1] edit1] eqn:E1.
  destruct (Open_save_manifest env impl1 s1 edit1) as [impl2 s2] eqn:E2.
  destruct (ok s2) eqn:Hs2; [|discriminate].
  unfold assert_, bind.
  destruct (nd || _); [|discriminate].
  intros [= <- <-].
  assert (Hs1 : ok s1 = true /\ heap impl2 = heap impl1 /\
                mem_ impl2 = mem_ impl1 /\ imm_ impl2 = imm_ impl1 /\
                bg_error_ impl2 = bg_error_ impl1).
  { revert E2. unfold Open_save_manifest.
    destruct (ok s1) eqn:Hs1; cbn [andb].
    - destruct (recover_save_manifest env).
      + intros H. apply LogAndApply_frame in H. tauto.
      + intros [= <- <-]. tauto.
    - intros [= <- <-]. congruence. }
  destruct Hs1 as (Hs1 & Hh & Hm & Hi & Hb).
  destruct (Open_create_memtable_heap _ _ _ _ _ E1 Hs1)
    as (m0 & Hm1 & Hh1 & Hf & Hk & Hi1 & Hb1).
  destruct (MaybeScheduleCompaction_frame impl2)
    as (Fh & Fm & Fi & Fb & _).
  exists m0. rewrite Fh, Fm, Fi, Fb, Hh, Hm, Hi, Hb. repeat split; assumption.
Qed.

Lemma snoc_pairs (l : list nat) x i a b :
  (l ++ [x])%list !! i = Some a -> (l ++ [x])%list !! S i = Some b ->
  (l !! i = Some a /\ l !! S i = Some b) \/ (last l = Some a /\ b = x).
Proof.
  intros Ha Hb. apply lookup_snoc_Some in Hb as [[Hlt Hb] | [Hlen ->]].
  - left. split; [|exact Hb].
    rewrite lookup_app_l in Ha by lia. exact Ha.
  - right. split; [|reflexivity].
    rewrite lookup_app_l in Ha by lia.
    rewrite last_lookup, <- Hlen. exact Ha.
Qed.

(** The MemTables installed so far form a chain that ends in [mem_];
    each is the successor window of the one before; and a writer that
    is about to try its compare-and-swap holds a successor window of
    the table it read. *)
Lemma execution_rotation_invariant SIZE nd s0 h s p0 :
  threads s0 = [] -> mem_ (db s0) = Some p0 ->
  execution SIZE nd s0 h s ->
  mem_ (db s) = last (p0 :: h) /\
  (forall i a b, (p0 :: h) !! i = Some a -> (p0 :: h) !! S i = Some b ->
     next_window SIZE (db s) a b) /\
  (forall j t a b, threads s !! j = Some t -> rotating t = Some (a, b) ->
     next_window SIZE (db s) a b).
Proof.
  intros Ht Hm Hex. induction Hex as [|h s s1 Hex IH [act Ha]].
  - split; [exact Hm|]. split.
    + intros i a b _ Hb. destruct i; discriminate.
    + intros j t a b Hj. rewrite Ht in Hj. discriminate.
  - destruct IH as (I1 & I2 & I3).
    pose proof (act_heap_le _ _ _ _ _ Ha) as Hle.
    assert (I3' : forall j t a b, threads s1 !! j = Some t ->
              rotating t = Some (a, b) -> next_window SIZE (db s1) a b).
    { intros j t x y Hj Hr.
      destruct (act_threads _ _ _ _ _ _ _ Ha Hj)
        as [Hold | [(t0 & Hold & Hstep) | Hnew]].
      - eapply next_window_le; eauto.
      - destruct (thread_step_rotating _ _ _ _ _ _ _ _ Hstep Hr)
          as [Hr0 | Hnw]; [eapply next_window_le; eauto | exact Hnw].
      - destruct t as [u []| e []]; cbn in Hnew, Hr;
          try contradiction; discriminate. }
    unfold installed. case_bool_decide as Hmem.
    + rewrite app_nil_r. split; [congruence|]. split; [|exact I3'].
      intros; eapply next_window_le; eauto.
    + destruct (act_db _ _ _ _ _ Ha)
        as [[_ Hsame] | (i & t & t1 & -> & Hi & Hstep)]; [contradiction|].
      destruct (thread_step_mem _ _ _ _ _ _ Hstep)
        as [Hsame | (x & y & Hr & Hx & Hy)]; [contradiction|].
      rewrite Hy. change (p0 :: h ++ [y])%list with ((p0 :: h) ++ [y])%list.
      split; [now rewrite last_snoc|]. split; [|exact I3'].
      intros k a b Hka Hkb.
      destruct (snoc_pairs _ _ _ _ _ Hka Hkb) as [[H1 H2] | [H1 ->]].
      * eapply next_window_le; eauto.
      * assert (a = x) by congruence. subst a.
        eapply next_window_le; [exact Hle|]. eapply I3; eauto.
Qed.

(** As long as [new] never hands out an address twice ([alloc]): in
    every execution from a freshly opened database, under any
    interleaving of writers and flush workers, each MemTable installed
    by a rotation has the window computed from its predecessor's:
    first = largest + 1 and largest = largest + MEMTABLE_SEQ_SIZE in
    64-bit arithmetic; as long as the sequence numbers do not wrap
    around, the new window starts exactly one past the old one and
    spans exactly MEMTABLE_SEQ_SIZE numbers, so successive windows are
    contiguous and do not overlap. *)
Theorem rotation_windows_contiguous SIZE nd s0 h s p0 i a b :
  opened SIZE nd s0 -> mem_ (db s0) = Some p0 ->
  execution SIZE nd s0 h s ->
  (p0 :: h) !! i = Some a -> (p0 :: h) !! S i = Some b ->
  exists ma mb,
    heap (db s) !! a = Some ma /\ heap (db s) !! b = Some mb /\
    first_seq mb = u64 (largest_seq_supposed ma + 1) /\
    largest_seq_supposed mb = u64 (largest_seq_supposed ma + SIZE) /\
    (0 < SIZE -> 0 <= largest_seq_supposed ma ->
     largest_seq_supposed ma + SIZE < 2 ^ 64 ->
     first_seq mb = largest_seq_supposed ma + 1 /\
     largest_seq_supposed mb = first_seq mb + SIZE - 1 /\
     window_size mb = SIZE /\
     largest_seq_supposed ma < first_seq mb).
Proof.
  intros [Ht _] Hm Hex Ha Hb.
  destruct (execution_rotation_invariant _ _ _ _ _ _ Ht Hm Hex) as (_ & I2 & _).
  destruct (I2 i a b Ha Hb) as (ma & mb & Hma & Hmb & Hf & Hl).
  exists ma, mb. do 4 (split; [assumption|]).
  intros H1 H2 H3. unfold window_size. rewrite Hl, Hf.
  rewrite !u64_id by lia. lia.
Qed.

(** *** The flush barrier *)

Lemma thread_step_about_to_schedule SIZE nd st t st1 t1 i :
  thread_step SIZE nd st t = Val (st1, t1) ->
  about_to_schedule t1 = Some i ->
  complete st1 i.
Proof.
  destruct t as [u pc | env pc]; cbn; unfold bind; intros H Hi.
  - destruct (write_step SIZE nd u st pc) as [[x y]|] eqn:E; cbn in H;
      [injection H as <- <-; discriminate Hi | discriminate H].
  - destruct (bg_step nd env st pc) as [[x y]|] eqn:E; cbn in H;
      [injection H as <- <- | discriminate H].
    eapply bg_step_about_to_schedule; eassumption.
Qed.

Lemma thread_step_scheduled SIZE nd st t st1 t1 :
  thread_step SIZE nd st t = Val (st1, t1) ->
  no_new_scheduled (heap st) (heap st1) \/
  exists imm, about_to_schedule t = Some imm /\
    heap st1 = alter (SetFlushState FLUSH_SCHEDULED) imm (heap st).
Proof.
  destruct t as [u pc | env pc]; cbn; unfold bind; intros H.
  - destruct (write_step SIZE nd u st pc) as [[x y]|] eqn:E; cbn in H;
      [injection H as <- <- | discriminate H].
    left. eapply write_step_no_new_scheduled, E.
  - destruct (bg_step nd env st pc) as [[x y]|] eqn:E; cbn in H;
      [injection H as <- <- | discriminate H].
    destruct (bg_step_no_new_scheduled _ _ _ _ _ _ E) as [Hn | (imm & -> & Hh)];
      [left; exact Hn | right; exists imm; auto].
Qed.

Lemma act_scheduled SIZE nd a s s1 :
  act SIZE nd a s = Some s1 ->
  no_new_scheduled (heap (db s)) (heap (db s1)) \/
  exists j t imm, threads s !! j = Some t /\
    about_to_schedule t = Some imm /\
    heap (db s1) = alter (SetFlushState FLUSH_SCHEDULED) imm (heap (db s)).
Proof.
  intros Ha.
  destruct (act_db _ _ _ _ _ Ha) as [[Hh _] | (i & t & t1 & _ & Hi & Hs)].
  - left. rewrite Hh. apply no_new_scheduled_refl.
  - destruct (thread_step_scheduled _ _ _ _ _ _ Hs) as [Hn | (imm & Hi2 & Hh)];
      [left; exact Hn | right; eauto 10].
Qed.

(** A MemTable past FlushRequested is complete, and so is the table
    held by a flush worker that has left the wait of lines 605-613. *)
Lemma execution_flush_invariant SIZE nd s0 h s :
  threads s0 = [] ->
  (forall p m, heap (db s0) !! p = Some m -> ~ past_FlushRequested m) ->
  execution SIZE nd s0 h s ->
  (forall p m, heap (db s) !! p = Some m -> past_FlushRequested m ->
     window_size m <= kv_num m) /\
  (forall j t i, threads s !! j = Some t -> about_to_schedule t = Some i ->
     complete (db s) i).
Proof.
  intros Ht H0 Hex. induction Hex as [|h s s1 Hex IH [act Ha]].
  - split.
    + intros p m Hm Hp. exfalso. eapply H0; eauto.
    + intros j t i Hj. rewrite Ht in Hj. discriminate.
  - destruct IH as (J1 & J2).
    pose proof (act_heap_le _ _ _ _ _ Ha) as Hle.
    split.
    + intros p m1 Hm1 Hp.
      assert (Hold : forall m, heap (db s) !! p = Some m ->
                window_size m <= kv_num m -> window_size m1 <= kv_num m1).
      { intros m Hm Hc. destruct (Hle p m Hm) as (m2 & Hm2 & Hf & Hl & Hk).
        assert (m2 = m1) by congruence. subst m2.
        unfold window_size in *. lia. }
      destruct (act_scheduled _ _ _ _ _ Ha) as [Hn | (j & t & imm & Hj & Hi & Hh)].
      * destruct (Hn p m1 Hm1 Hp) as (m & Hm & Hpm). eauto.
      * destruct (J2 j t imm Hj Hi) as (m & Hm & Hc).
        destruct (decide (imm = p)) as [->|Hne].
        -- eauto.
        -- rewrite Hh, list_lookup_alter_ne in Hm1 by exact Hne. eauto.
    + intros j t i Hj Hi.
      destruct (act_threads _ _ _ _ _ _ _ Ha Hj)
        as [Hold | [(t0 & Hold & Hstep) | Hnew]].
      * eapply complete_le; eauto.
      * eapply thread_step_about_to_schedule; eauto.
      * destruct t as [u []| e []]; cbn in Hnew, Hi;
          try contradiction; discriminate.
Qed.

(** The count alone, with [alloc] as above.  In every execution from
    a freshly opened database, under any interleaving of writers and
    flush workers, a
    MemTable whose flush state is past FlushRequested (FLUSH_SCHEDULED,
    or Flushed) never has fewer applied key-value pairs than its window
    holds, whichever sequence numbers they carry; and a
    flush worker that stands at line 614, about to set FLUSH_SCHEDULED,
    holds a table for which this is already so: it has seen
    [able_to_flush]. *)
Theorem flush_scheduled_only_when_complete SIZE nd s0 h s :
  opened SIZE nd s0 ->
  execution SIZE nd s0 h s ->
  (forall p m, heap (db s) !! p = Some m -> past_FlushRequested m ->
     ~ kv_num m < window_size m) /\
  (forall j env imm, threads s !! j = Some (Flusher env (Compact_set_state imm)) ->
     exists m, heap (db s) !! imm = Some m /\ ~ kv_num m < window_size m).
Proof.
  intros [Ht (env & Hopen)] Hex.
  destruct (Open_success _ _ _ _ _ Hopen) as (m0 & _ & Hh & Hf & _).
  assert (H0 : forall p m, heap (db s0) !! p = Some m -> ~ past_FlushRequested m).
  { intros p m Hm [Hp|Hp]; rewrite Hh in Hm;
      destruct p; cbn in Hm; simplify_eq; congruence. }
  destruct (execution_flush_invariant _ _ _ _ _ Ht H0 Hex) as (J1 & J2).
  split.
  - intros p m Hm Hp. specialize (J1 p m Hm Hp). lia.
  - intros j e imm Hj. destruct (J2 j _ imm Hj eq_refl) as (m & Hm & Hc).
    exists m. split; [exact Hm | lia].
Qed.

End SystemFacts.

(** ** Calls of the write path, run on their own *)

Section WriteRuns.
Import Int DB Examples.

Lemma run_pickup_step SIZE nd n st pc st1 pc1 :
  match pc with
  | Write_after_pickup _ _ _ | Pickup_wait _ _ => False
  | _ => True
  end ->
  write_step SIZE nd None st pc = Val (st1, pc1) ->
  run_pickup SIZE nd (S n) st pc = run_pickup SIZE nd n st1 pc1.
Proof.
  intros Hpc H. destruct pc; try contradiction; cbn [run_pickup];
    now rewrite H.
Qed.

Lemma run_pickup_return SIZE nd n st seq s p :
  run_pickup SIZE nd n st (Write_after_pickup seq s p) = Returned st (s, p).
Proof. destruct n; reflexivity. Qed.

#[local] Arguments run_pickup : simpl never.

Ltac pickup_next :=
  etransitivity; [ apply run_pickup_step; [ exact I | cbn ] | ].

(** The rotation, run without interference: whenever the sequence
    number is past the window of [mem_] and [imm_] is null, the call
    installs the successor window and returns the new table, whatever
    the sequence number and whatever [bg_error_] holds. *)
Lemma PickupTableToWrite_rotates SIZE nd st p m seq :
  mem_ st = Some p -> heap st !! p = Some m ->
  seq > largest_seq_supposed m ->
  imm_ st = None ->
  nd = true \/ prev_log_number_ (versions_ st) = 0 ->
  exists st1,
    PickupTableToWrite SIZE nd st seq
      = Returned st1 (OK, length (heap st)) /\
    mem_ st1 = Some (length (heap st)) /\
    imm_ st1 = Some p /\
    heap st1 !! length (heap st)
      = Some (next_MemTable SIZE (largest_seq_supposed m)) /\
    heap st1 !! p = Some (SetFlushState FLUSH_REQUESTED m) /\
    bg_error_ st1 = bg_error_ st /\
    versions_ st1 = versions_ st.
Proof.
  intros Hmem Hm Hseq Himm Hlog.
  assert (Hp : (p < length (heap st))%nat) by (now apply lookup_lt_Some in Hm).
  assert (Ha : nd || (prev_log_number_ (versions_ st) =? 0) = true).
  { destruct Hlog as [-> | ->]; [reflexivity | apply orb_true_r]. }
  eexists. split.
  { unfold PickupTableToWrite.
    pickup_next.
    { unfold deref_opt, deref. rewrite Hmem. cbn. rewrite Hm. cbn.
      unfold loop_head.
      destruct (Z.gtb_spec seq (largest_seq_supposed m)); [reflexivity | lia]. }
    pickup_next.
    { unfold deref, assert_. rewrite Hm, Himm, Ha. cbn. reflexivity. }
    pickup_next.
    { unfold deref. cbn. rewrite lookup_app_l, Hm by exact Hp. cbn. reflexivity. }
    pickup_next.
    { rewrite Hmem. rewrite bool_decide_eq_true_2 by reflexivity. reflexivity. }
    pickup_next.
    { reflexivity. }
    pickup_next.
    { unfold assert_. rewrite Himm.
      rewrite bool_decide_eq_true_2 by reflexivity.
      rewrite orb_true_r. cbn. reflexivity. }
    pickup_next.
    { reflexivity. }
    pickup_next.
    { reflexivity. }
    apply run_pickup_return. }
  destruct (MaybeScheduleCompaction_frame
    (set_imm (Some p)
       (set_has_imm true
          (set_counters (memtable_counter st + 1) (kv_counter0 st)
             (kv_counter1 st)
             (set_mem (Some (length (heap st)))
                (update p (SetFlushState FLUSH_REQUESTED)
                   (set_heap (heap st ++ [next_MemTable SIZE (largest_seq_supposed m)])
                      st)))))))
    as (F1 & F2 & F3 & F4 & F5 & F6).
  cbn in F1, F2, F3, F4, F5, F6 |- *.
  rewrite F1, F2, F3, F4, F6.
  repeat split.
  - rewrite list_lookup_alter_ne by lia. apply list_lookup_middle. reflexivity.
  - rewrite list_lookup_alter_eq, lookup_app_l, Hm by exact Hp. reflexivity.
Qed.

Lemma run_write_outcome SIZE nd updates fuel :
  forall st pc, carries_OK pc ->
  match run_write SIZE nd fuel updates st pc with
  | Returned st1 s => s = OK /\ bg_error_ st1 = bg_error_ st
  | Blocked st1 => bg_error_ st1 = bg_error_ st
  | _ => True
  end.
Proof.
  induction fuel as [|n IH]; intros st pc Hc.
  - destruct pc; cbn; auto.
  - destruct pc; cbn [run_write]; auto;
      match goal with
      | |- context [write_step SIZE nd updates st ?pc] =>
          destruct (write_step SIZE nd updates st pc) as [[st1 pc1]|] eqn:E;
          [|exact I];
          pose proof (write_step_carries_OK _ _ _ _ _ _ _ E Hc) as Hc1;
          destruct (write_step_bg_error _ _ _ _ _ _ _ E) as [Hb _];
          specialize (IH st1 pc1 Hc1);
          destruct (run_write SIZE nd n updates st1 pc1);
          rewrite <- ?Hb; exact IH
      end.
Qed.

Lemma Write_returns_OK SIZE nd st updates st1 s :
  Write SIZE nd st updates = Returned st1 s ->
  s = OK /\ bg_error_ st1 = bg_error_ st.
Proof.
  unfold Write. intros Hw.
  pose proof (run_write_outcome SIZE nd updates 24 st Write_entry I) as H.
  rewrite Hw in H. exact H.
Qed.

Lemma Write_blocked_bg_error SIZE nd st updates st1 :
  Write SIZE nd st updates = Blocked st1 ->
  bg_error_ st1 = bg_error_ st.
Proof.
  unfold Write. intros Hw.
  pose proof (run_write_outcome SIZE nd updates 24 st Write_entry I) as H.
  rewrite Hw in H. exact H.
Qed.

(** C1 (the code at the failing inputs).  Window size 2.  The flush of
    the immutable table has failed and the Corruption is latched.  The
    next [Put] does not return it: it is applied to the mutable table,
    returns OK and can be read back.  The [Put] after that needs a new
    window while [imm_] is still set: it does not return the error
    either, it waits in [Memtable_full_cv.Wait()], and no
    [BackgroundCall] will ever clear [imm_].  And with an error latched
    while [imm_] is null, the rotator does not refuse: the [Put] that
    needs a new window installs a new MemTable and returns OK. *)
Theorem Write_ignores_background_error :
  bg_error_ db_flush_failed = Corruption "bad table" /\
  (exists st, Put 2 false db_flush_failed "d" "4" = Returned st OK /\
     bg_error_ st = Corruption "bad table" /\
     Get st None "d" false = Val (st, (OK, Some "4"))) /\
  (Put 2 false db_flush_failed "d" "4" = Returned db_after_failed_flush OK /\
   exists st, Put 2 false db_after_failed_flush "e" "5" = Blocked st /\
     imm_ st = Some 0%nat /\ bg_error_ st = Corruption "bad table" /\
     forall env, BackgroundCall false env st = Returned st tt) /\
  let latched := RecordBackgroundError (IOError "disk") db_full in
  bg_error_ latched = IOError "disk" /\ imm_ latched = None /\
  mem_ latched = Some 0%nat /\
  exists st, Put 2 false latched "c" "3" = Returned st OK /\
    mem_ st = Some 1%nat /\ imm_ st = Some 0%nat /\
    length (heap st) = S (length (heap latched)).
Proof.
  split; [vm_compute; reflexivity|]. split.
  { eexists. split; [vm_compute; reflexivity|]. split; vm_compute; reflexivity. }
  split.
  { split; [vm_compute; reflexivity|].
    eexists. split; [vm_compute; reflexivity|].
    split; [reflexivity|]. split; [reflexivity|].
    intros env. vm_compute. reflexivity. }
  cbv zeta. repeat split; try (vm_compute; reflexivity).
  eexists. split; [vm_compute; reflexivity|]. repeat split.
Qed.

(** In general.  [RecordBackgroundError] latches the first status
    that is not OK, and later statuses do not replace it.  The write
    path never reads [bg_error_]: a [Write] that returns returns OK,
    not the latched error, and leaves the error latched, as does a
    [Write] that blocks in [Memtable_full_cv.Wait()];
    [PickupTableToWrite] still installs a new MemTable whenever the
    sequence number is past the window of [mem_] and [imm_] is null.
    What the latched error stops is the background side:
    [MaybeScheduleCompaction] hands nothing to the environment. *)
Theorem background_error_is_sticky SIZE nd st e updates :
  ok e = false -> ok (bg_error_ st) = true ->
  let latched := RecordBackgroundError e st in
  bg_error_ latched = e /\
  (forall e2, RecordBackgroundError e2 latched = latched) /\
  (forall st1 s, Write SIZE nd latched updates = Returned st1 s ->
     s = OK /\ bg_error_ st1 = e) /\
  (forall st1, Write SIZE nd latched updates = Blocked st1 ->
     bg_error_ st1 = e) /\
  (forall p m seq,
     mem_ st = Some p -> heap st !! p = Some m ->
     seq > largest_seq_supposed m -> imm_ st = None ->
     nd = true \/ prev_log_number_ (versions_ st) = 0 ->
     exists st1,
       PickupTableToWrite SIZE nd latched seq
         = Returned st1 (OK, length (heap st)) /\
       mem_ st1 = Some (length (heap st)) /\ bg_error_ st1 = e) /\
  MaybeScheduleCompaction latched = latched.
Proof.
  intros He Hok. cbv zeta.
  assert (Hlat : RecordBackgroundError e st = set_bg_error e st).
  { unfold RecordBackgroundError. now rewrite Hok. }
  rewrite Hlat.
  assert (Hl : bg_error_ (set_bg_error e st) = e) by reflexivity.
  split; [exact Hl|]. split.
  { intros e2. unfold RecordBackgroundError. rewrite Hl. now rewrite He. }
  split.
  { intros st1 s Hw.
    destruct (Write_returns_OK _ _ _ _ _ _ Hw) as [-> Hb].
    split; [reflexivity | exact Hb]. }
  split.
  { intros st1 Hw. exact (Write_blocked_bg_error _ _ _ _ _ Hw). }
  split.
  { intros p m seq Hmem Hm Hseq Himm Hlog.
    destruct (PickupTableToWrite_rotates SIZE nd (set_bg_error e st) p m seq)
      as (st1 & Hrun & H1 & _ & _ & _ & H5 & _); try assumption.
    exists st1. auto. }
  rewrite MaybeScheduleCompaction_cases.
  unfold nothing_to_schedule. rewrite Hl, He. cbn.
  now destruct (shutting_down_ st).
Qed.

Lemma background_error_is_sticky_witness :
  bg_error_ (RecordBackgroundError (IOError "disk") db_full) = IOError "disk" /\
  (forall st1 s,
     Write 2 false (RecordBackgroundError (IOError "disk") db_full)
       (put "c" "3") = Returned st1 s -> s = OK) /\
  exists st1 s,
    Write 2 false (RecordBackgroundError (IOError "disk") db_full)
      (put "c" "3") = Returned st1 s.
Proof.
  destruct (background_error_is_sticky 2 false db_full (IOError "disk")
              (put "c" "3")) as (H1 & _ & H3 & _).
  - reflexivity.
  - vm_compute; reflexivity.
  - split; [exact H1|]. split.
    + intros st1 s Hw. exact (proj1 (H3 st1 s Hw)).
    + eexists _, _. vm_compute. reflexivity.
Defined.

End WriteRuns.

(** ** Executions along a schedule *)

Section ScheduleFacts2.
Import Int DB Examples.

Lemma schedule_execution SIZE nd l :
  forall s0 h s s1,
    execution SIZE nd s0 h s -> schedule SIZE nd l s = Some s1 ->
    execution SIZE nd s0 (h ++ history SIZE nd l s) s1.
Proof.
  induction l as [|a r IH]; intros s0 h s s1 Hex Hs; cbn in *.
  - injection Hs as <-. now rewrite app_nil_r.
  - destruct (act SIZE nd a s) as [s2|] eqn:Ea; [|discriminate].
    rewrite app_assoc. eapply IH; [|exact Hs].
    apply execution_step; [exact Hex | now exists a].
Qed.

Lemma start_opened : opened 2 false start.
Proof. split; [reflexivity|]. exists fresh_env. vm_compute. reflexivity. Qed.

Lemma after_execution l s :
  schedule 2 false l start = Some s ->
  execution 2 false start (history 2 false l start) s.
Proof.
  intros H. apply (schedule_execution 2 false l start [] start s);
    [apply execution_start | exact H].
Qed.

Lemma rotation_windows_contiguous_witness :
  opened 2 false start /\
  execution 2 false start [1%nat] (after false rotate_and_flush) /\
  exists ma mb,
    heap (db (after false rotate_and_flush)) !! 0%nat = Some ma /\
    heap (db (after false rotate_and_flush)) !! 1%nat = Some mb /\
    first_seq mb = u64 (largest_seq_supposed ma + 1) /\
    largest_seq_supposed mb = u64 (largest_seq_supposed ma + 2).
Proof.
  assert (Hex : execution 2 false start [1%nat] (after false rotate_and_flush)).
  { apply (after_execution rotate_and_flush). vm_compute. reflexivity. }
  split; [exact start_opened|]. split; [exact Hex|].
  destruct (rotation_windows_contiguous 2 false start [1%nat]
              (after false rotate_and_flush) 0%nat 0%nat 0%nat 1%nat
              start_opened eq_refl Hex eq_refl eq_refl)
    as (ma & mb & Ha & Hb & Hf & Hl & _).
  exists ma, mb. repeat split; assumption.
Defined.

Lemma flush_scheduled_only_when_complete_witness :
  opened 2 false start /\
  execution 2 false start [1%nat] (after false rotate_and_flush) /\
  exists m, heap (db (after false rotate_and_flush)) !! 0%nat = Some m /\
    flush_state m = FLUSH_SCHEDULED /\ ~ kv_num m < window_size m.
Proof.
  assert (Hex : execution 2 false start [1%nat] (after false rotate_and_flush)).
  { apply (after_execution rotate_and_flush). vm_compute. reflexivity. }
  split; [exact start_opened|]. split; [exact Hex|].
  destruct (flush_scheduled_only_when_complete 2 false start [1%nat]
              (after false rotate_and_flush) start_opened Hex) as [J1 _].
  eexists. split; [vm_compute; reflexivity|]. split; [reflexivity|].
  apply (J1 0%nat); [vm_compute; reflexivity | left; reflexivity].
Defined.

(** The rotation returns the table it has installed without comparing
    the sequence number with the new window: a sequence number more
    than one window ahead gets a table that does not contain it. *)
Lemma PickupTableToWrite_two_windows_ahead SIZE nd st p m seq :
  mem_ st = Some p -> heap st !! p = Some m ->
  imm_ st = None ->
  nd = true \/ prev_log_number_ (versions_ st) = 0 ->
  0 <= largest_seq_supposed m -> 0 < SIZE ->
  largest_seq_supposed m + SIZE < seq -> seq < 2 ^ 64 ->
  exists st1 q m1,
    PickupTableToWrite SIZE nd st seq = Returned st1 (OK, q) /\
    heap st1 !! q = Some m1 /\ in_window seq m1 = false.
Proof.
  intros Hmem Hm Himm Hlog H0 HS Hseq Hmax.
  destruct (PickupTableToWrite_rotates SIZE nd st p m seq)
    as (st1 & Hrun & _ & _ & Hq & _); try assumption; [lia|].
  exists st1, (length (heap st)), (next_MemTable SIZE (largest_seq_supposed m)).
  split; [exact Hrun|]. split; [exact Hq|].
  unfold in_window, next_MemTable. cbn.
  rewrite !u64_id by lia.
  apply andb_false_iff. right. apply Z.leb_gt. lia.
Qed.

(** C4 (the code at the failing inputs).  Window size 2.
    (1) Five writers reserve the sequence numbers 0..4 and the holder
    of 4 is the first to run [PickupTableToWrite]: it rotates once and
    is handed the new table, whose window is [2, 3].  Its next step is
    the assertion of line 1386, which fails; with assertions compiled
    out the batch is inserted into that table and the write returns
    OK.
    (2) The same without any concurrency: a database reopened with
    last sequence 4 gets the window [0, 1], and its first [Write] is
    handed the window [2, 3] for sequence 4. *)
Theorem Write_outside_the_window :
  let s := after false late_writer_first in
  let late := Writer (put "e" "5") (Write_after_pickup 4 OK 1) in
  opened 2 false start /\
  execution 2 false start [1%nat] s /\
  threads s !! 4%nat = Some late /\
  (first_seq <$> heap (db s) !! 1%nat) = Some 2 /\
  (largest_seq_supposed <$> heap (db s) !! 1%nat) = Some 3 /\
  thread_step 2 false (db s) late
    = Fail (AssertionFailure
              "sequence <= mem->Getlargest_seq_supposed() && sequence >= mem->GetFirstseq()") /\
  (let s1 := default start (schedule 2 true late_writer_returns start) in
   threads s1 !! 4%nat = Some (Writer (put "e" "5") (Write_returned OK)) /\
   heap (db s1) !! 1%nat
     = Some {| first_seq := 2; largest_seq_supposed := 3; kv_num := 1;
               flush_state := FLUSH_NOT_REQUESTED;
               table := [entry_of (BatchPut "e" "5") 4] |}) /\
  Open 2 false reopened_env = Val (OK, Some reopened_db) /\
  last_sequence_ (versions_ reopened_db) = 4 /\
  Write 2 false reopened_db (put "x" "y")
    = Aborted (AssertionFailure
                 "sequence <= mem->Getlargest_seq_supposed() && sequence >= mem->GetFirstseq()") /\
  exists st, Write 2 true reopened_db (put "x" "y") = Returned st OK /\
    heap st !! 1%nat
      = Some {| first_seq := 2; largest_seq_supposed := 3; kv_num := 1;
                flush_state := FLUSH_NOT_REQUESTED;
                table := [entry_of (BatchPut "x" "y") 4] |}.
Proof.
  cbv zeta.
  split; [exact start_opened|].
  split; [apply (after_execution late_writer_first); vm_compute; reflexivity|].
  repeat match goal with |- _ /\ _ => split end;
    try (vm_compute; reflexivity).
  eexists. split; vm_compute; reflexivity.
Qed.

(** C2 (the code at the failing schedule).  Window size 2.  The writes
    of "a" and "b" have returned OK and fill the first MemTable.  A
    third writer rotates: its compare-and-swap of line 1520 has
    published the new, empty table in [mem_], and line 1530 has not
    yet stored the old one into [imm_].  A [Get] of "a" at this point
    finds the key neither in [mem_] nor in [imm_] (null) nor in the
    Version, and answers NotFound, although no write to "a" followed.
    Before the third writer started, and once it has finished, the
    same [Get] answers "1". *)
Theorem Get_misses_write_during_rotation :
  let before := after false two_writes in
  let during := after false rotate_half_way in
  let done := after false three_writes in
  opened 2 false start /\
  execution 2 false start [] before /\
  execution 2 false start [1%nat] during /\
  execution 2 false start [1%nat] done /\
  threads during !! 0%nat = Some (Writer (put "a" "1") (Write_returned OK)) /\
  threads during !! 1%nat = Some (Writer (put "b" "2") (Write_returned OK)) /\
  threads during !! 2%nat = Some (Writer (put "c" "3") (Pickup_won 2 0 1)) /\
  length (threads during) = 3%nat /\
  mem_ (db during) = Some 1%nat /\ imm_ (db during) = None /\
  Get (db before) None "a" false = Val (db before, (OK, Some "1")) /\
  Get (db during) None "a" false = Val (db during, (NotFound, None)) /\
  Get (db during) (Some 0) "a" false = Val (db during, (NotFound, None)) /\
  Get (db done) None "a" false = Val (db done, (OK, Some "1")).
Proof.
  cbv zeta.
  split; [exact start_opened|].
  split; [apply (after_execution two_writes); vm_compute; reflexivity|].
  split; [apply (after_execution rotate_half_way); vm_compute; reflexivity|].
  split; [apply (after_execution three_writes); vm_compute; reflexivity|].
  repeat match goal with |- _ /\ _ => split end; vm_compute; reflexivity.
Qed.

Lemma start_opened_NDEBUG : opened 2 true start.
Proof. split; [reflexivity|]. exists fresh_env. vm_compute. reflexivity. Qed.

(** C5 (the code at the failing schedule).  Window size 2, assertions
    compiled out.  Five writers reserve the sequence numbers 0 to 4.
    The holder of 4 rotates and, handed the new table without a look at
    its window [2, 3], writes into it.  The holders of 0 and 1 fill the
    immutable table, which is flushed.  The holder of 2 writes: the
    table [2, 3] now counts two key-value pairs, which is its window
    size, so [able_to_flush] holds.  A sixth writer rotates again and
    the next flush worker, past its wait, sets FLUSH_SCHEDULED on that
    table.  It holds the sequence numbers 2 and 4; the holder of 3 has
    not yet looked for its table.  With assertions, line 1386 stops the
    holder of 4 before it writes. *)
Theorem flush_scheduled_with_a_sequence_missing :
  let s := default start (schedule 2 true flush_with_a_hole start) in
  opened 2 true start /\
  execution 2 true start [1%nat; 2%nat] s /\
  threads s !! 3%nat = Some (Writer (put "d" "4") (Pickup_load_mem 3)) /\
  threads s !! 7%nat = Some (Flusher good_flush (Compact_write 1)) /\
  imm_ (db s) = Some 1%nat /\
  (exists m,
     heap (db s) !! 1%nat = Some m /\
     first_seq m = 2 /\ largest_seq_supposed m = 3 /\
     flush_state m = FLUSH_SCHEDULED /\
     kv_num m = window_size m /\ able_to_flush m = true /\
     table m = [entry_of (BatchPut "c" "3") 2; entry_of (BatchPut "e" "5") 4] /\
     Forall (fun e => sequence e <> 3) (table m) /\
     Exists (fun e => in_window (sequence e) m = false) (table m)) /\
  thread_step 2 false (db (after false late_writer_first))
    (Writer (put "e" "5") (Write_after_pickup 4 OK 1))
    = Fail (AssertionFailure
              "sequence <= mem->Getlargest_seq_supposed() && sequence >= mem->GetFirstseq()").
Proof.
  cbv zeta.
  split; [exact start_opened_NDEBUG|].
  split.
  { apply (schedule_execution 2 true flush_with_a_hole start [] start);
      [apply execution_start | vm_compute; reflexivity]. }
  do 3 (split; [vm_compute; reflexivity|]).
  split; [|vm_compute; reflexivity].
  eexists. split; [vm_compute; reflexivity|].
  do 6 (split; [vm_compute; reflexivity|]).
  split.
  - repeat constructor; cbn; discriminate.
  - apply Exists_cons_tl, Exists_cons_hd. vm_compute. reflexivity.
Qed.

End ScheduleFacts2.

(** ** A MemTable address that is handed out again *)

Section ReclaimFacts.
Import Int DB Examples Reclaim ReclaimExamples.

(** C3 (the code at the failing schedule).  Window size 2.  The first
    MemTable, at address 0, is full.  A writer prepares its rotation,
    so that its [temp_mem] has the window [2, 3], and is stopped in
    front of the compare-and-swap of line 1520 with [mem_r] = 0.
    Another writer rotates, the first table is flushed, and line 636
    drops its last reference: it is deleted.  The next rotation is
    given address 0 for its new table, whose window is [4, 5], and
    installs it.  The stopped writer goes on: its compare-and-swap
    finds in [mem_] the pointer it expects and installs its table, so
    that the window [2, 3] follows the window [4, 5].  With assertions
    the writer is stopped afterwards, by the assertion of line 1529. *)
Theorem stale_compare_exchange_installs_old_window :
  exists w1 w s1 s2 old new,
    opened 2 false start /\
    run 2 false (Do <$> stalled_rotation) fresh_world = Some w1 /\
    deleted w1 = [0%nat] /\
    mem_ (db (sys w1)) = Some 2%nat /\ imm_ (db (sys w1)) = None /\
    run 2 false reused_address fresh_world = Some w /\
    threads (sys w) !! 2%nat
      = Some (Writer (put "c" "3") (Pickup_cas 2 0 1)) /\
    mem_ (db (sys w)) = Some 0%nat /\
    heap (db (sys w)) !! 0%nat = Some old /\
    first_seq old = 4 /\ largest_seq_supposed old = 5 /\
    act 2 false (Run 2) (sys w) = Some s1 /\
    mem_ (db s1) = Some 1%nat /\
    heap (db s1) !! 1%nat = Some new /\
    first_seq new = 2 /\ largest_seq_supposed new = 3 /\
    first_seq new <> largest_seq_supposed old + 1 /\
    act 2 false (Run 2) s1 = Some s2 /\
    threads s2 !! 2%nat
      = Some (Writer (put "c" "3") (Pickup_assert_imm 2 0 1)) /\
    thread_step 2 false (db s2) (Writer (put "c" "3") (Pickup_assert_imm 2 0 1))
      = Fail (AssertionFailure "imm_.load() == nullptr").
Proof.
  eexists _, _, _, _, _, _.
  split; [exact start_opened|].
  split; [vm_compute; reflexivity|].
  do 3 (split; [reflexivity|]).
  split; [vm_compute; reflexivity|].
  do 2 (split; [reflexivity|]).
  split; [vm_compute; reflexivity|].
  do 2 (split; [reflexivity|]).
  split; [vm_compute; reflexivity|].
  split; [reflexivity|].
  split; [vm_compute; reflexivity|].
  do 2 (split; [reflexivity|]).
  split; [discriminate|].
  split; [vm_compute; reflexivity|].
  split; [reflexivity|].
  vm_compute. reflexivity.
Qed.

End ReclaimFacts.

(** * Properties of the rest of the code *)

(** ** Option sanitising and the table cache *)

Section SanitizeMore.
Import Int Sanitize Examples TableCache.

Lemma ClipToRange_seen T ptr lo hi :
  INT_MIN <= lo <= hi -> hi <= INT_MAX ->
  in_type T lo -> in_type T hi ->
  lo <= conv c_int (ClipToRange T c_int ptr lo hi) <= hi.
Proof.
  intros Hlo Hhi Tlo Thi. unfold ClipToRange.
  rewrite (conv_id T lo Tlo), (conv_id T hi Thi).
  assert (Ch : conv c_int hi = hi) by (apply swrap32_id; lia).
  assert (Cl : conv c_int lo = lo) by (apply swrap32_id; lia).
  destruct (Z.gtb_spec (conv c_int ptr) hi) as [Hgt | Hle].
  - rewrite Ch. destruct (Z.ltb_spec hi lo); [lia|]. rewrite Ch. lia.
  - destruct (Z.ltb_spec (conv c_int ptr) lo); [rewrite Cl; lia | lia].
Qed.

Lemma ClipToRange_idempotent T ptr lo hi :
  INT_MIN <= lo <= hi -> hi <= INT_MAX ->
  in_type T lo -> in_type T hi ->
  ClipToRange T c_int (ClipToRange T c_int ptr lo hi) lo hi
    = ClipToRange T c_int ptr lo hi.
Proof.
  intros Hlo Hhi Tlo Thi.
  pose proof (ClipToRange_seen T ptr lo hi Hlo Hhi Tlo Thi) as Hs.
  generalize dependent (ClipToRange T c_int ptr lo hi). intros r Hr.
  unfold ClipToRange.
  destruct (Z.gtb_spec (conv c_int r) hi); [lia|].
  destruct (Z.ltb_spec (conv c_int r) lo); [lia|]. reflexivity.
Qed.

(** Whatever the caller passes, the value of each sanitised option, as the
    comparisons of [ClipToRange] see it (cast to [int]), lies within its
    bounds. *)
Theorem SanitizeOptions_seen_within_bounds l o :
  74 <= conv c_int (max_open_files (SanitizeOptions l o)) <= 50000 /\
  64 * 1024 <= conv c_int (write_buffer_size (SanitizeOptions l o))
    <= 1024 * 1024 * 1024 /\
  1024 * 1024 <= conv c_int (max_file_size (SanitizeOptions l o))
    <= 1024 * 1024 * 1024 /\
  1024 <= conv c_int (block_size (SanitizeOptions l o)) <= 4 * 1024 * 1024.
Proof.
  cbn [SanitizeOptions max_open_files write_buffer_size max_file_size block_size].
  repeat match goal with |- _ /\ _ => split end;
    apply ClipToRange_seen; vm_compute; intuition discriminate.
Qed.

(** Sanitising twice is sanitising once. *)
Theorem SanitizeOptions_idempotent l o :
  SanitizeOptions l (SanitizeOptions l o) = SanitizeOptions l o.
Proof.
  unfold SanitizeOptions at 1 3.
  cbn [comparator filter_policy create_if_missing error_if_exists
       paranoid_checks reuse_logs max_open_files write_buffer_size
       max_file_size block_size info_log block_cache SanitizeOptions].
  f_equal.
  - now destruct (filter_policy o).
  - apply ClipToRange_idempotent; vm_compute; intuition discriminate.
  - apply ClipToRange_idempotent; vm_compute; intuition discriminate.
  - apply ClipToRange_idempotent; vm_compute; intuition discriminate.
  - apply ClipToRange_idempotent; vm_compute; intuition discriminate.
  - destruct (info_log o); [reflexivity|]. now destruct l.
  - now destruct (block_cache o).
Qed.

(** The table cache gets between 64 and 49990 slots. *)
Theorem TableCacheSize_sanitized l o :
  in_type c_int (max_open_files o) ->
  TableCacheSize (SanitizeOptions l o)
    = clamp 74 50000 (max_open_files o) - 10 /\
  64 <= TableCacheSize (SanitizeOptions l o) <= 49990.
Proof.
  intros H. unfold TableCacheSize.
  rewrite (SanitizeOptions_max_open_files l o H).
  unfold kNumNonTableCacheFiles, clamp.
  assert (Hc : 64 <= Z.max 74 (Z.min 50000 (max_open_files o)) - 10 <= 49990) by lia.
  rewrite conv_id by (cbn; unfold INT_MIN, INT_MAX; lia).
  split; [reflexivity | exact Hc].
Qed.

Lemma TableCacheSize_sanitized_witness :
  TableCacheSize (SanitizeOptions None default_options) = 990.
Proof.
  destruct (TableCacheSize_sanitized None default_options) as [H _].
  - vm_compute. intuition discriminate.
  - rewrite H. reflexivity.
Defined.

Lemma SanitizeOptions_sizes_within_int_witness :
  write_buffer_size (SanitizeOptions None (with_write_buffer_size 1024))
    = 64 * 1024 /\
  max_file_size (SanitizeOptions None (with_write_buffer_size 1024))
    = 2 * 1024 * 1024.
Proof.
  destruct (SanitizeOptions_sizes_within_int None (with_write_buffer_size 1024))
    as (H1 & H2 & _).
  - vm_compute. intuition discriminate.
  - vm_compute. intuition discriminate.
  - vm_compute. intuition discriminate.
  - split; [rewrite H1 | rewrite H2]; reflexivity.
Defined.

End SanitizeMore.

(** ** Blocks: what the constructor accepts and rejects *)

Section BlockMore.
Import Int Block.

Lemma byte_at_nonneg d i v : byte_at d i = Some v -> 0 <= v.
Proof.
  unfold byte_at. destruct (i <? 0); [discriminate|].
  destruct (d !! Z.to_nat i); cbn; [|discriminate].
  intros [= <-]. lia.
Qed.

Lemma DecodeFixed32_nonneg d off n : DecodeFixed32 d off = Val n -> 0 <= n.
Proof.
  unfold DecodeFixed32.
  destruct (byte_at d off) as [b0|] eqn:E0; [|discriminate].
  destruct (byte_at d (off + 1)) as [b1|] eqn:E1; [|discriminate].
  destruct (byte_at d (off + 2)) as [b2|] eqn:E2; [|discriminate].
  destruct (byte_at d (off + 3)) as [b3|] eqn:E3; [|discriminate].
  intros [= <-].
  apply byte_at_nonneg in E0, E1, E2, E3.
  repeat (apply Z.lor_nonneg; split); try apply Z.shiftl_nonneg; assumption.
Qed.

Lemma restart_offset_of_exact size n :
  0 <= n -> 4 * (n + 1) <= size -> size < 2 ^ 32 ->
  restart_offset_of size n = size - 4 * (n + 1).
Proof.
  intros Hn Hle Hs. unfold restart_offset_of, sizeof_uint32_t, u32, u64.
  rewrite (wrap_id 32 (1 + n)) by lia.
  rewrite (wrap_id 64 ((1 + n) * 4)) by lia.
  rewrite (wrap_id 64) by lia.
  rewrite wrap_id by lia. lia.
Qed.

(** A block that is large enough for the restart count it ends with is
    taken as it is, in both copies of the file: the size is kept and the
    restart array, [n] offsets followed by the count, occupies the last
    [4 * (n + 1)] bytes, so it starts inside the block.  [NewIterator]
    then yields the empty iterator for [n = 0] and an iterator over the
    restart array otherwise. *)
Theorem Block_ctor_restart_array nd contents type n :
  let size := Z.of_nat (length (data contents)) in
  4 <= size < 2 ^ 32 ->
  trailing_restarts (data contents) = Val n ->
  n <= (size - 4) / 4 ->
  nd = true \/
    ((is_index_or_filter type = true \/ size < 8192) /\ n <= 64 * 1024 * 1024) ->
  let off := size - 4 * (n + 1) in
  0 <= off <= size - 4 /\
  exists b b0,
    Block_ctor nd contents type = Val b /\
    Part000.Block_ctor nd contents type = Val b0 /\
    data_ b = data contents /\ size_ b = size /\ restart_offset_ b = Some off /\
    data_ b0 = data contents /\ size_ b0 = size /\ restart_offset_ b0 = Some off /\
    NewIterator nd b
      = Val (if n =? 0 then EmptyIterator else Iter (Some off) n) /\
    Part000.NewIterator nd b0
      = Val (if n =? 0 then EmptyIterator else Iter (Some off) n).
Proof.
  cbv zeta. intros Hs Ht Hn Hnd.
  pose proof (DecodeFixed32_nonneg _ _ _ Ht) as H0.
  assert (Hle : 4 * (n + 1) <= Z.of_nat (length (data contents))).
  { pose proof (Z.mul_div_le (Z.of_nat (length (data contents)) - 4) 4). lia. }
  split; [lia|].
  assert (Hlt : (Z.of_nat (length (data contents)) <? sizeof_uint32_t) = false).
  { apply Z.ltb_ge. unfold sizeof_uint32_t. lia. }
  assert (Hge : (sizeof_uint32_t <=? Z.of_nat (length (data contents))) = true).
  { apply Z.leb_le. unfold sizeof_uint32_t. lia. }
  assert (Hmax : (n >? (Z.of_nat (length (data contents)) - sizeof_uint32_t)
                        / sizeof_uint32_t) = false).
  { unfold sizeof_uint32_t. destruct (Z.gtb_spec n
      ((Z.of_nat (length (data contents)) - 4) / 4)); [lia | reflexivity]. }
  assert (Ha : nd || (is_index_or_filter type
                      || (Z.of_nat (length (data contents)) <? 8192)) = true).
  { destruct Hnd as [-> | [[-> | H] _]]; [reflexivity | apply orb_true_r |].
    apply Z.ltb_lt in H. rewrite H. now rewrite !orb_true_r. }
  assert (Hb : nd || (n <=? 64 * 1024 * 1024) = true).
  { destruct Hnd as [-> | [_ H]]; [reflexivity|].
    apply Z.leb_le in H. rewrite H. apply orb_true_r. }
  unfold trailing_restarts in Ht.
  eexists _, _.
  unfold Block_ctor, Part000.Block_ctor, NumRestarts, assert_.
  rewrite Ha, Hlt, Hge, orb_true_r. cbn [bind].
  rewrite Ht. cbn [bind]. rewrite Hmax. cbn [bind fst snd].
  split; [reflexivity|]. split; [reflexivity|].
  unfold NewIterator, Part000.NewIterator, NumRestarts, assert_.
  cbn [data_ size_ restart_offset_].
  rewrite Hlt, Hge, orb_true_r. cbn [bind]. rewrite Ht. cbn [bind].
  rewrite Hb. cbn [bind].
  rewrite restart_offset_of_exact by lia.
  repeat match goal with |- _ /\ _ => split end; try reflexivity;
    destruct (n =? 0); reflexivity.
Qed.

Lemma Block_ctor_restart_array_witness :
  exists b,
    Block_ctor false {| data := ["001"; "000"; "000"; "000";
                                 "001"; "000"; "000"; "000"]%byte |} DataBlock
      = Val b /\
    size_ b = 8 /\ restart_offset_ b = Some 0 /\
    NewIterator false b = Val (Iter (Some 0) 1).
Proof.
  destruct (Block_ctor_restart_array false
              {| data := ["001"; "000"; "000"; "000";
                          "001"; "000"; "000"; "000"]%byte |} DataBlock 1)
    as (_ & b & b0 & H1 & _ & _ & H2 & H3 & _ & _ & _ & H4 & _).
  - vm_compute. intuition discriminate.
  - vm_compute. reflexivity.
  - vm_compute. discriminate.
  - right. vm_compute. intuition discriminate.
  - exists b. repeat split; assumption.
Defined.

(** The earlier copy of block.cc (part_000) handles a block that is too
    short for a restart count, or whose restart count does not fit: the
    constructor sets the error marker [size_ = 0], and [NewIterator]
    answers with an error iterator carrying Corruption "bad block
    contents" instead of reading the restart array. *)
Theorem Part000_bad_block nd contents type :
  Z.of_nat (length (data contents)) < 4 \/
  (exists n, trailing_restarts (data contents) = Val n /\
             n > (Z.of_nat (length (data contents)) - 4) / 4) ->
  exists b,
    Part000.Block_ctor nd contents type = Val b /\
    data_ b = data contents /\ size_ b = 0 /\
    Part000.NewIterator nd b
      = Val (ErrorIterator (Corruption "bad block contents")).
Proof.
  intros Hbad.
  destruct (Part000_Block_ctor_total nd contents type) as (b & Hb & Hd & _).
  exists b. split; [exact Hb|]. split; [exact Hd|].
  destruct Hbad as [Hlt | (n & Ht & Hn)].
  - apply (Part000_bad_block_contents nd contents type b 0); auto.
  - apply (Part000_bad_block_contents nd contents type b n); auto.
Qed.

Lemma Part000_bad_block_witness :
  exists b,
    Part000.Block_ctor false {| data := ["005"; "000"; "000"; "000"]%byte |}
      DataBlock = Val b /\
    Part000.NewIterator false b
      = Val (ErrorIterator (Corruption "bad block contents")).
Proof.
  destruct (Part000_bad_block false
              {| data := ["005"; "000"; "000"; "000"]%byte |} DataBlock)
    as (b & H1 & _ & _ & H2).
  - right. exists 5. split; [reflexivity | vm_compute; reflexivity].
  - exists b. split; assumption.
Defined.

End BlockMore.

(** ** The background call and the flush that succeeds *)

Section BackgroundMore.
Import Int DB Examples.

#[local] Arguments run_bg : simpl never.

Ltac bg_next :=
  etransitivity;
  [ apply run_bg_step; [ reflexivity | cbn | cbn ] | ].

(** [BackgroundCall] with nothing to flush, or after shutdown or a
    background error: no table, pointer or version is touched. *)
Theorem BackgroundCall_idle nd env st :
  shutting_down_ st = true \/ ok (bg_error_ st) = false \/ imm_ st = None ->
  BackgroundCall nd env st = Returned (MaybeScheduleCompaction st) tt /\
  (shutting_down_ st = true \/ ok (bg_error_ st) = false ->
   BackgroundCall nd env st = Returned st tt).
Proof.
  intros H.
  assert (Hrun : BackgroundCall nd env st
                 = Returned (MaybeScheduleCompaction st) tt).
  { unfold BackgroundCall.
    etransitivity.
    { apply (run_bg_step _ _ _ _ _ _ st BG_reschedule);
        [reflexivity | reflexivity |].
      cbn. destruct (shutting_down_ st); [reflexivity|].
      destruct (ok (bg_error_ st)); [|reflexivity]. cbn.
      destruct H as [H | [H | H]]; try discriminate.
      rewrite H. reflexivity. }
    bg_next.
    { reflexivity. }
    { reflexivity. }
    apply run_bg_stop. reflexivity. }
  split; [exact Hrun|].
  intros H1. rewrite Hrun. f_equal.
  unfold MaybeScheduleCompaction.
  destruct (shutting_down_ st); [reflexivity|].
  destruct H1 as [H1 | H1]; [discriminate|]. now rewrite H1.
Qed.

Lemma BackgroundCall_idle_witness :
  BackgroundCall false good_flush db_flush_failed = Returned db_flush_failed tt.
Proof.
  apply (BackgroundCall_idle false good_flush db_flush_failed).
  - right. left. vm_compute. reflexivity.
  - right. vm_compute. reflexivity.
Defined.

(** The flush that succeeds. *)
Theorem CompactMemTable_success nd env st i m :
  imm_ st = Some i -> heap st !! i = Some m ->
  able_to_flush m = true -> CheckFlushScheduled m = false ->
  ok (build_status env) = true -> shutting_down_ st = false ->
  ok (apply_status env) = true ->
  exists st1,
    CompactMemTable nd env st = Returned st1 tt /\
    imm_ st1 = None /\ has_imm_ st1 = false /\
    mem_ st1 = mem_ st /\ bg_error_ st1 = bg_error_ st /\
    heap st1 = alter (SetFlushState FLUSH_SCHEDULED) i (heap st) /\
    current_ (versions_ st1)
      = (current_ (versions_ st) ++
         if bool_decide (table m = []) then []
         else [{| number := next_file_number_ (versions_ st);
                  level := picked_level env; entries := table m |}])%list /\
    log_number_ (versions_ st1) = logfile_number_ st /\
    prev_log_number_ (versions_ st1) = 0.
Proof.
  intros Himm Hm Hable Hsched Hb Hsh Ha.
  eexists. split.
  { unfold CompactMemTable.
    bg_next.
    { reflexivity. }
    { unfold assert_, deref_opt, deref. rewrite Himm. cbn. rewrite Hm. cbn.
      rewrite Hsched, !orb_true_r. cbn. reflexivity. }
    bg_next.
    { now rewrite Hm, Hable. }
    { unfold deref. rewrite Hm. cbn. rewrite Hable. reflexivity. }
    bg_next.
    { reflexivity. }
    { unfold deref. rewrite Hm. cbn. reflexivity. }
    bg_next.
    { reflexivity. }
    { unfold deref_opt, deref. rewrite Himm. cbn.
      rewrite list_lookup_alter_eq, Hm. cbn. reflexivity. }
    bg_next.
    { reflexivity. }
    { rewrite Hb, Hsh. cbn. reflexivity. }
    bg_next.
    { reflexivity. }
    { rewrite Hb. unfold LogAndApply. rewrite Ha. cbn. reflexivity. }
    bg_next.
    { reflexivity. }
    { rewrite Ha. unfold deref_opt, deref. cbn. rewrite Himm. cbn.
      rewrite list_lookup_alter_eq, Hm. cbn. reflexivity. }
    bg_next.
    { reflexivity. }
    { reflexivity. }
    apply run_bg_stop. reflexivity. }
  cbn.
  repeat match goal with |- _ /\ _ => split end; try reflexivity.
  destruct (bool_decide (table m = [])); reflexivity.
Qed.

Lemma CompactMemTable_success_witness :
  exists st1,
    CompactMemTable false good_flush db_rotated = Returned st1 tt /\
    imm_ st1 = None /\
    current_ (versions_ st1)
      = [{| number := 3; level := 0;
            entries := [entry_of (BatchPut "a" "1") 0;
                        entry_of (BatchPut "b" "2") 1] |}].
Proof.
  destruct (CompactMemTable_success false good_flush db_rotated 0%nat
              {| first_seq := 0; largest_seq_supposed := 1; kv_num := 2;
                 flush_state := FLUSH_REQUESTED;
                 table := [entry_of (BatchPut "a" "1") 0;
                           entry_of (BatchPut "b" "2") 1] |})
    as (st1 & Hrun & Himm & _ & _ & _ & _ & Hcur & _);
    try (vm_compute; reflexivity).
  exists st1. split; [exact Hrun|]. split; [exact Himm|].
  rewrite Hcur. vm_compute. reflexivity.
Defined.

End BackgroundMore.

(** ** Windows and reads along executions *)

Section SafetyFacts.
Import Int DB Examples.

(** Once a MemTable has been allocated, its sequence window never
    changes and its count of applied key-value pairs never decreases,
    whatever the writers and flush workers do afterwards. *)
Theorem windows_never_change SIZE nd s0 h s p m :
  execution SIZE nd s0 h s ->
  heap (db s0) !! p = Some m ->
  exists m1, heap (db s) !! p = Some m1 /\
    first_seq m1 = first_seq m /\
    largest_seq_supposed m1 = largest_seq_supposed m /\
    kv_num m <= kv_num m1.
Proof.
  intros Hex. revert m. induction Hex as [|h s s1 Hex IH [a Ha]]; intros m Hm.
  - exists m. repeat split; [assumption | lia].
  - destruct (IH m Hm) as (m1 & Hm1 & Hf & Hl & Hk).
    destruct (act_heap_le _ _ _ _ _ Ha p m1 Hm1) as (m2 & Hm2 & Hf2 & Hl2 & Hk2).
    exists m2. repeat split; [assumption | congruence | congruence | lia].
Qed.

Lemma windows_never_change_witness :
  exists m1, heap (db (after false rotate_and_flush)) !! 0%nat = Some m1 /\
    first_seq m1 = 0 /\ largest_seq_supposed m1 = 1 /\ 0 <= kv_num m1.
Proof.
  destruct (windows_never_change 2 false start [1%nat]
              (after false rotate_and_flush) 0%nat
              {| first_seq := 0; largest_seq_supposed := 1; kv_num := 0;
                 flush_state := FLUSH_NOT_REQUESTED; table := [] |})
    as (m1 & H1 & H2 & H3 & H4).
  - apply (after_execution rotate_and_flush). vm_compute. reflexivity.
  - vm_compute. reflexivity.
  - exists m1. repeat split; assumption.
Defined.

(** [Get] reads: it changes no table, no pointer, no version and no
    error.  The one thing it may do is hand a [BGWork] to the
    environment, and only when both MemTables missed the key, the
    Version was consulted and its seek statistics asked for a
    compaction. *)
Theorem Get_read_only st snapshot key seek_stats st1 r :
  Get st snapshot key seek_stats = Val (st1, r) ->
  st1 = st \/
  (st1 = set_scheduled (S (scheduled_ st)) st /\ seek_stats = true /\
   nothing_to_schedule st = false /\
   r = Version_Get (current_ (versions_ st)) key
         (default (last_sequence_ (versions_ st)) snapshot)).
Proof.
  unfold Get, bind, deref_opt, deref. intros H.
  rewrite MaybeScheduleCompaction_cases in H.
  repeat case_match; simplify_eq; auto.
Qed.

Lemma Get_read_only_witness :
  db_rotated = db_rotated \/
  (db_rotated = set_scheduled (S (scheduled_ db_rotated)) db_rotated /\
   false = true /\ nothing_to_schedule db_rotated = false /\
   (NotFound, None)
     = Version_Get (current_ (versions_ db_rotated)) "zz"
         (default (last_sequence_ (versions_ db_rotated)) None)).
Proof.
  apply (Get_read_only db_rotated None "zz" false db_rotated (NotFound, None)).
  vm_compute. reflexivity.
Defined.

(** [DB::Open] never trips over its final assertion: whatever [Recover]
    and the environment answer, it returns a status, and it returns a
    database exactly when that status is OK.  The status is the one of
    the first step that failed; the database returned has a mutable
    MemTable, no immutable one and no background error. *)
Theorem Open_returns SIZE nd env :
  exists s o,
    Open SIZE nd env = Val (s, o) /\
    (ok s = true <-> is_Some o) /\
    (ok (recover_status env) = false -> s = recover_status env) /\
    (ok (recover_status env) = true -> recover_mem env = None ->
     ok (new_log_status env) = false -> s = new_log_status env) /\
    (forall impl, o = Some impl ->
       exists p m, mem_ impl = Some p /\ heap impl !! p = Some m /\
         imm_ impl = None /\ bg_error_ impl = OK /\ shutting_down_ impl = false).
Proof.
  unfold Open.
  destruct (Open_create_memtable SIZE env) as [[impl1 s1] edit1] eqn:E1.
  destruct (Open_save_manifest env impl1 s1 edit1) as [impl2 s2] eqn:E2.
  assert (H1 : shutting_down_ impl1 = false /\
               (ok (recover_status env) = false -> s1 = recover_status env) /\
               (ok (recover_status env) = true -> recover_mem env = None ->
                ok (new_log_status env) = false -> s1 = new_log_status env)).
  { revert E1. unfold Open_create_memtable, after_Recover.
    destruct (recover_mem env); cbn [mem_ versions_ NewFileNumber];
      destruct (ok (recover_status env)) eqn:Er; cbn;
      try destruct (ok (new_log_status env)) eqn:En; cbn;
      intros [= <- <- <-]; repeat split; cbn; congruence. }
  destruct H1 as (Hsh1 & Hr1 & Hn1).
  assert (H2 : shutting_down_ impl2 = shutting_down_ impl1 /\
               (ok s1 = false -> s2 = s1 /\ impl2 = impl1) /\
               (ok s2 = true -> ok s1 = true /\ heap impl2 = heap impl1 /\
                  mem_ impl2 = mem_ impl1 /\ imm_ impl2 = imm_ impl1 /\
                  bg_error_ impl2 = bg_error_ impl1)).
  { revert E2. unfold Open_save_manifest, LogAndApply.
    destruct (ok s1) eqn:Hs1; cbn [andb].
    - destruct (recover_save_manifest env).
      + destruct (ok (open_apply_status env)) eqn:Ea; intros [= <- <-];
          repeat split; cbn; congruence.
      + intros [= <- <-]. repeat split; congruence.
    - intros [= <- <-]. repeat split; congruence. }
  destruct H2 as (Hsh2 & Hf2 & Hok2).
  destruct (ok s2) eqn:Hs2.
  - destruct (Hok2 eq_refl) as (Hs1 & Hh & Hm & Hi & Hb).
    destruct (Open_create_memtable_heap _ _ _ _ _ E1 Hs1)
      as (m0 & Hm1 & Hh1 & _ & _ & Hi1 & Hb1).
    destruct (MaybeScheduleCompaction_frame impl2)
      as (Fh & Fm & Fi & Fb & Fs & _).
    unfold assert_, bind. rewrite Fm, Hm, Hm1.
    rewrite bool_decide_eq_false_2 by discriminate. cbn [negb].
    rewrite orb_true_r.
    eexists _, _. split; [reflexivity|].
    split; [split; [eauto | intros _; exact Hs2]|].
    split; [intros Hr; specialize (Hr1 Hr); subst s1; congruence|].
    split; [intros Hr Hmem Hn; specialize (Hn1 Hr Hmem Hn); subst s1; congruence|].
    intros impl [= <-]. exists 0%nat, m0.
    rewrite Fh, Fm, Fi, Fb, Fs, Hh, Hm, Hi, Hb, Hh1, Hm1, Hi1, Hb1, Hsh2, Hsh1.
    repeat split.
  - eexists _, _. split; [reflexivity|].
    split; [split; [rewrite Hs2; discriminate | intros [x Hx]; discriminate]|].
    split.
    { intros Hr. pose proof (Hr1 Hr) as E.
      assert (Hk : ok s1 = false) by (rewrite E; exact Hr).
      destruct (Hf2 Hk) as [-> _]. exact E. }
    split; [|intros impl [=]].
    intros Hr Hmem Hn. pose proof (Hn1 Hr Hmem Hn) as E.
    assert (Hk : ok s1 = false) by (rewrite E; exact Hn).
    destruct (Hf2 Hk) as [-> _]. exact E.
Qed.

End SafetyFacts.

(** ** Version edits *)

Section EditFacts.
Import Int Edit.

Lemma existsb_snd_elem (l : list (Z * nat)) (t : nat) :
  existsb (fun iter => Nat.eqb iter.2 t) l = true <-> t ∈ l.*2.
Proof.
  induction l as [|[lv x] l IH]; cbn.
  - split; [discriminate | intros H; inversion H].
  - rewrite orb_true_iff, IH, elem_of_cons, Nat.eqb_eq. intuition congruence.
Qed.

(** [AddFileIfNotExist] never adds a table twice and never adds a table
    with no bytes: it either leaves the edit as it is, or appends the
    table, which then was not among the new files and has a positive
    size.  So an edit whose new files are added this way lists each
    table once.  A second call for the same table, at whatever level,
    changes nothing. *)
Theorem AddFileIfNotExist_once tables level remote_table e e1 :
  AddFileIfNotExist tables level remote_table e = Val e1 ->
  (e1 = e \/
   (e1 = set_new_files (new_files_ e ++ [(level, remote_table)]) e /\
    (remote_table ∉ (new_files_ e).*2) /\
    exists f, tables !! remote_table = Some f /\ 0 < file_size f)) /\
  (NoDup (new_files_ e).*2 -> NoDup (new_files_ e1).*2) /\
  (forall level2, AddFileIfNotExist tables level2 remote_table e1 = Val e1).
Proof.
  unfold AddFileIfNotExist. intros H.
  destruct (existsb _ (new_files_ e)) eqn:Ex.
  - injection H as <-. split; [now left|]. split; [auto|].
    intros level2. now rewrite Ex.
  - assert (Hn : remote_table ∉ (new_files_ e).*2).
    { intros Hin. apply existsb_snd_elem in Hin. congruence. }
    destruct (tables !! remote_table) as [f|] eqn:Ef; [|discriminate].
    destruct (Z.gtb_spec (file_size f) 0) as [Hpos | Hz].
    + injection H as <-. split.
      { right. split; [reflexivity|]. split; [exact Hn|]. exists f. split; [reflexivity | lia]. }
      split.
      { intros Hd. cbn. rewrite fmap_app. cbn.
        apply NoDup_app. split; [exact Hd|]. split.
        - intros x Hx Hx1. apply list_elem_of_singleton in Hx1. now subst.
        - apply NoDup_singleton. }
      intros level2. cbn.
      assert (Ex1 : existsb (fun iter => Nat.eqb iter.2 remote_table)
                      (new_files_ e ++ [(level, remote_table)]) = true).
      { apply existsb_snd_elem. rewrite fmap_app. apply elem_of_app. right.
        cbn. apply list_elem_of_here. }
      now rewrite Ex1.
    + injection H as <-. split; [now left|]. split; [auto|].
      intros level2. rewrite Ex.
      destruct (Z.gtb_spec (file_size f) 0); [lia | reflexivity].
Qed.

Lemma AddFileIfNotExist_once_witness :
  let tables := [{| this_machine_type := 0; creator_node_id := 0;
                    number := 7; file_size := 4096;
                    remote_data_mrs := []; remote_dataindex_mrs := [];
                    remote_filter_mrs := [] |}] in
  let e := {| comparator_ := ""; log_number_ := 0; prev_log_number_ := 0;
              next_file_number_ := 0; last_sequence_ := 0;
              has_comparator_ := false; has_log_number_ := false;
              has_prev_log_number_ := false; has_next_file_number_ := false;
              has_last_sequence_ := false; compact_pointers_ := [];
              deleted_files_ := []; new_files_ := [] |} in
  AddFileIfNotExist tables 3 0%nat (set_new_files [(0, 0%nat)] e)
    = Val (set_new_files [(0, 0%nat)] e).
Proof.
  intros tables e.
  refine (proj2 (proj2 (AddFileIfNotExist_once tables 0 0%nat e
                          (set_new_files [(0, 0%nat)] e) _)) 3).
  vm_compute. reflexivity.
Defined.

Lemma tuple_lt_spec a b :
  tuple_lt a b = true <->
  a.1.1 < b.1.1 \/
  (a.1.1 = b.1.1 /\ (a.1.2 < b.1.2 \/ (a.1.2 = b.1.2 /\ a.2 < b.2))).
Proof.
  destruct a as [[l1 f1] n1], b as [[l2 f2] n2]. cbn.
  rewrite !orb_true_iff, !andb_true_iff, !orb_true_iff, !andb_true_iff,
    !Z.ltb_lt, !Z.eqb_eq. tauto.
Qed.

Lemma tuple_lt_irrefl a : tuple_lt a a = false.
Proof.
  apply not_true_is_false. rewrite tuple_lt_spec. lia.
Qed.

Lemma tuple_lt_asym a b : tuple_lt a b = true -> tuple_lt b a = false.
Proof.
  intros H. apply not_true_is_false. rewrite tuple_lt_spec in *. lia.
Qed.

Lemma tuple_lt_trans a b c :
  tuple_lt a b = true -> tuple_lt b c = true -> tuple_lt a c = true.
Proof. rewrite !tuple_lt_spec. lia. Qed.

Lemma tuple_lt_total a b :
  tuple_lt a b = false -> tuple_lt b a = false -> a = b.
Proof.
  intros H1 H2. apply not_true_iff_false in H1, H2.
  rewrite tuple_lt_spec in H1, H2.
  destruct a as [[l1 f1] n1], b as [[l2 f2] n2]. cbn in *.
  assert (l1 = l2) by lia. assert (f1 = f2) by lia. assert (n1 = n2) by lia.
  congruence.
Qed.

Lemma elem_of_set_insert x s y : y ∈ set_insert x s <-> y = x \/ y ∈ s.
Proof.
  induction s as [|z r IH]; cbn.
  - rewrite list_elem_of_singleton. split; [auto | intros [H|H]; [auto | inversion H]].
  - destruct (tuple_lt x z) eqn:E1; [apply elem_of_cons|].
    destruct (tuple_lt z x) eqn:E2.
    + rewrite !elem_of_cons, IH. tauto.
    + rewrite (tuple_lt_total _ _ E1 E2). rewrite !elem_of_cons. tauto.
Qed.

Lemma set_insert_head x s :
  exists r, set_insert x s = x :: r \/
    (exists z r0, s = z :: r0 /\ set_insert x s = z :: r /\
                  (tuple_lt z x = true \/ z = x)).
Proof.
  destruct s as [|z r0]; cbn; [eauto|].
  destruct (tuple_lt x z) eqn:E1; [eauto|].
  destruct (tuple_lt z x) eqn:E2.
  - eexists. right. eauto 10.
  - eexists. right. exists z, r0. rewrite (tuple_lt_total _ _ E1 E2). eauto.
Qed.

Lemma ascending_set_insert x s :
  ascending s = true -> ascending (set_insert x s) = true.
Proof.
  induction s as [|z r IH]; [reflexivity|].
  intros Hs. cbn [set_insert].
  destruct (tuple_lt x z) eqn:E1.
  - cbn [ascending]. now rewrite E1.
  - destruct (tuple_lt z x) eqn:E2; [|exact Hs].
    assert (Hr : ascending r = true).
    { cbn [ascending] in Hs. destruct r; [reflexivity|].
      now apply andb_true_iff in Hs. }
    specialize (IH Hr).
    destruct (set_insert_head x r) as (t & [Ht | (z0 & r0 & -> & Ht & _)]).
    + rewrite Ht in *. cbn [ascending]. cbn [ascending] in IH.
      now rewrite E2.
    + rewrite Ht in *. cbn [ascending]. cbn [ascending] in IH, Hs.
      apply andb_true_iff in Hs as [Hs _]. now rewrite Hs.
Qed.

Lemma set_insert_idempotent x s : set_insert x (set_insert x s) = set_insert x s.
Proof.
  induction s as [|z r IH]; cbn.
  - now rewrite tuple_lt_irrefl.
  - destruct (tuple_lt x z) eqn:E1.
    + cbn. now rewrite tuple_lt_irrefl.
    + destruct (tuple_lt z x) eqn:E2; cbn; rewrite E1, E2; [now rewrite IH | reflexivity].
Qed.

Lemma ascending_head x r y :
  ascending (x :: r) = true -> y ∈ r -> tuple_lt x y = true.
Proof.
  revert x. induction r as [|z r IH]; intros x Hs Hy; [inversion Hy|].
  cbn [ascending] in Hs. apply andb_true_iff in Hs as [Hxz Hr].
  apply elem_of_cons in Hy as [-> | Hy]; [exact Hxz|].
  eapply tuple_lt_trans; [exact Hxz | now apply IH].
Qed.

(** [RemoveFile] keeps [deleted_files_] a set: ascending, with the file
    added and nothing lost, and removing the same file again changes
    nothing.  [GetTrivalFile] then answers with the least file of the
    set; after a single [RemoveFile] on an edit without deleted files
    the edit is trivial and [GetTrivalFile] gives back the level, the
    file number and the node id that were passed. *)
Theorem RemoveFile_is_set_insertion NDEBUG level file node_id e e1 :
  ascending (deleted_files_ e) = true ->
  RemoveFile NDEBUG level file node_id e = Val e1 ->
  (NDEBUG = false -> node_id < 2) /\
  ascending (deleted_files_ e1) = true /\
  (forall y, y ∈ deleted_files_ e1 <->
     y = (level, file, node_id) \/ y ∈ deleted_files_ e) /\
  new_files_ e1 = new_files_ e /\
  RemoveFile NDEBUG level file node_id e1 = Val e1 /\
  (exists x, GetTrivalFile e1 = Val x /\
     forall y, y ∈ deleted_files_ e1 -> y = x \/ tuple_lt x y = true) /\
  (deleted_files_ e = [] ->
   IsTrival e1 = true /\ GetTrivalFile e1 = Val (level, file, node_id) /\
   compactlevel e1 = Val level).
Proof.
  intros Hs. unfold RemoveFile, assert_, bind.
  destruct (NDEBUG || (node_id <? 2)) eqn:Ea; [|discriminate].
  intros [= <-]. cbn [deleted_files_ set_deleted_files new_files_].
  split.
  { intros ->. cbn in Ea. now apply Z.ltb_lt. }
  split; [now apply ascending_set_insert|].
  split; [intros y; apply elem_of_set_insert|].
  split; [reflexivity|].
  split.
  { rewrite set_insert_idempotent. reflexivity. }
  split.
  { pose proof (ascending_set_insert (level, file, node_id) _ Hs) as Ha.
    unfold GetTrivalFile. cbn [deleted_files_ set_deleted_files].
    destruct (set_insert (level, file, node_id) (deleted_files_ e))
      as [|x r] eqn:E.
    - pose proof (proj2 (elem_of_set_insert (level, file, node_id)
                           (deleted_files_ e) (level, file, node_id))
                    (or_introl eq_refl)) as Hin.
      rewrite E in Hin. inversion Hin.
    - exists x. split; [reflexivity|].
      intros y Hy. apply elem_of_cons in Hy as [-> | Hy]; [now left|].
      right. eapply ascending_head; eauto. }
  intros ->. repeat split.
Qed.

Lemma RemoveFile_is_set_insertion_witness :
  let e := {| comparator_ := ""; log_number_ := 0; prev_log_number_ := 0;
              next_file_number_ := 0; last_sequence_ := 0;
              has_comparator_ := false; has_log_number_ := false;
              has_prev_log_number_ := false; has_next_file_number_ := false;
              has_last_sequence_ := false; compact_pointers_ := [];
              deleted_files_ := [(1, 9, 0)]; new_files_ := [] |} in
  GetTrivalFile (set_deleted_files [(0, 12, 1); (1, 9, 0)] e) = Val (0, 12, 1).
Proof.
  intros e.
  destruct (RemoveFile_is_set_insertion false 0 12 1 e
              (set_deleted_files [(0, 12, 1); (1, 9, 0)] e))
    as (_ & _ & _ & _ & _ & (x & Hx & _) & _).
  - reflexivity.
  - vm_compute. reflexivity.
  - reflexivity.
Defined.

Lemma number_files_lookup files : forall n tables t,
  0 <= n < 2 ^ 64 ->
  NoDup files.*2 ->
  (t ∉ files.*2 -> number_files files n tables !! t = tables !! t) /\
  (forall i lv, files !! i = Some (lv, t) ->
     number_files files n tables !! t
       = set_number (u64 (n + Z.of_nat i)) <$> tables !! t).
Proof.
  induction files as [|[lv0 t0] files IH]; intros n tables t Hn Hd.
  - split; [reflexivity|]. intros i lv Hi. destruct i; discriminate.
  - cbn [number_files snd]. cbn in Hd. apply NoDup_cons in Hd as [Hnot Hd].
    assert (Hn1 : 0 <= u64 (n + 1) < 2 ^ 64) by apply u64_range.
    destruct (IH (u64 (n + 1)) (alter (set_number n) t0 tables) t Hn1 Hd)
      as [IH1 IH2].
    split.
    + intros Ht. cbn in Ht. apply not_elem_of_cons in Ht as [Hne Ht].
      rewrite IH1 by exact Ht. apply list_lookup_alter_ne. congruence.
    + intros [|i] lv Hi; cbn in Hi.
      * injection Hi as -> ->. rewrite IH1 by exact Hnot.
        rewrite list_lookup_alter_eq. rewrite Z.add_0_r, u64_id by exact Hn.
        reflexivity.
      * assert (Hne : t0 <> t).
        { intros ->. apply Hnot. apply (list_elem_of_lookup_2 _ i).
          rewrite list_lookup_fmap. exact (f_equal (fmap snd) Hi). }
        rewrite (IH2 i lv Hi). rewrite list_lookup_alter_ne by exact Hne.
        f_equal. f_equal. unfold u64, wrap.
        rewrite Zplus_mod_idemp_l. f_equal. lia.
Qed.

(** [SetFileNumbers] numbers the new files of an edit consecutively, in
    the order they were added: when the edit lists each table once, the
    [i]-th table gets [file_number_end + i] (as a [uint64_t]); nothing
    else of a table changes, and tables that the edit does not list are
    left alone. *)
Theorem SetFileNumbers_consecutive file_number_end e tables :
  0 <= file_number_end < 2 ^ 64 ->
  NoDup (new_files_ e).*2 ->
  length (SetFileNumbers file_number_end e tables) = length tables /\
  (forall i lv t f, new_files_ e !! i = Some (lv, t) ->
     tables !! t = Some f ->
     SetFileNumbers file_number_end e tables !! t
       = Some (set_number (u64 (file_number_end + Z.of_nat i)) f)) /\
  (forall t, t ∉ (new_files_ e).*2 ->
     SetFileNumbers file_number_end e tables !! t = tables !! t).
Proof.
  intros Hn Hd. unfold SetFileNumbers. split.
  { generalize file_number_end tables. clear.
    induction (new_files_ e) as [|p r IH]; intros n tables; [reflexivity|].
    cbn. rewrite IH. apply length_alter. }
  split.
  - intros i lv t f Hi Hf.
    destruct (number_files_lookup (new_files_ e) file_number_end tables t Hn Hd)
      as [_ H2].
    rewrite (H2 i lv Hi), Hf. reflexivity.
  - intros t Ht.
    now destruct (number_files_lookup (new_files_ e) file_number_end tables t
                    Hn Hd) as [H1 _]; apply H1.
Qed.

Lemma SetFileNumbers_consecutive_witness :
  let f := {| this_machine_type := 0; creator_node_id := 0;
              number := 0; file_size := 4096;
              remote_data_mrs := []; remote_dataindex_mrs := [];
              remote_filter_mrs := [] |} in
  let e := {| comparator_ := ""; log_number_ := 0; prev_log_number_ := 0;
              next_file_number_ := 0; last_sequence_ := 0;
              has_comparator_ := false; has_log_number_ := false;
              has_prev_log_number_ := false; has_next_file_number_ := false;
              has_last_sequence_ := false; compact_pointers_ := [];
              deleted_files_ := [];
              new_files_ := [(0, 1%nat); (0, 0%nat)] |} in
  SetFileNumbers 40 e [f; f] !! 0%nat = Some (set_number 41 f).
Proof.
  intros f e.
  destruct (SetFileNumbers_consecutive 40 e [f; f]) as (_ & H & _).
  - lia.
  - cbn. repeat constructor; intros H; repeat (apply elem_of_cons in H as [H|H]);
      try discriminate; inversion H.
  - apply (H 1%nat 0 0%nat f); reflexivity.
Defined.

(** [Remote_blocks_deallocate] answers true exactly when the RDMA
    manager frees every slot of the map.  It deletes an [ibv_mr] only
    after its slot has been freed, and it stops at the first slot that
    cannot be freed: the regions behind it are neither freed nor
    deleted. *)
Theorem Remote_blocks_deallocate_stops slot_freed map :
  let '(result, calls) := Remote_blocks_deallocate slot_freed map in
  (result = true <-> forall it, it ∈ map -> slot_freed it.2 = true) /\
  (forall addr, delete_mr addr ∈ calls -> slot_freed addr = true) /\
  (result = true ->
   calls = flat_map (fun it => [Deallocate_Remote_RDMA_Slot it.2;
                                delete_mr it.2]) map) /\
  (result = false ->
   exists done it rest,
     map = (done ++ it :: rest)%list /\ slot_freed it.2 = false /\
     calls = (flat_map (fun it => [Deallocate_Remote_RDMA_Slot it.2;
                                   delete_mr it.2]) done
              ++ [Deallocate_Remote_RDMA_Slot it.2])%list).
Proof.
  induction map as [|it r IH]; cbn.
  - split; [split; [intros _ x Hx; inversion Hx | reflexivity]|].
    split; [intros a Ha; inversion Ha|]. split; [reflexivity | discriminate].
  - destruct (slot_freed it.2) eqn:Ef; cbn.
    + destruct (Remote_blocks_deallocate slot_freed r) as [b calls].
      destruct IH as (I1 & I2 & I3 & I4).
      split.
      { rewrite I1. split.
        - intros H x Hx. apply elem_of_cons in Hx as [-> | Hx]; auto.
        - intros H x Hx. apply H. now apply list_elem_of_further. }
      split.
      { intros a Ha. apply elem_of_cons in Ha as [Ha | Ha]; [discriminate|].
        apply elem_of_cons in Ha as [Ha | Ha]; [congruence | auto]. }
      split; [intros Hb; now rewrite (I3 Hb)|].
      intros Hb. destruct (I4 Hb) as (done & x & rest & -> & Hx & ->).
      exists (it :: done), x, rest. repeat split. exact Hx.
    + split.
      { split; [discriminate|]. intros H.
        rewrite (H it (list_elem_of_here _ _)) in Ef. discriminate. }
      split.
      { intros a Ha. apply list_elem_of_singleton in Ha. discriminate. }
      split; [discriminate|].
      intros _. exists [], it, r. repeat split. exact Ef.
Qed.

Lemma fill_spec map : forall index,
  0 <= index -> index + Z.of_nat (length map) < 2 ^ 64 ->
  fill map index
    = (index + Z.of_nat (length map),
       flat_map (fun p => [store_address (index + Z.of_nat p.1) p.2.2;
                           delete_mr p.2.2])
         (imap (fun i it => (i, it)) map)).
Proof.
  induction map as [|it r IH]; intros index H0 Hlt.
  - cbn. now rewrite Z.add_0_r.
  - cbn [fill]. cbn [length] in Hlt |- *.
    rewrite u64_id by lia. rewrite IH by lia.
    cbn [imap flat_map]. f_equal; [lia|].
    cbn. rewrite Z.add_0_r. f_equal. f_equal.
    rewrite !flat_map_concat_map. f_equal.
    rewrite !fmap_imap. apply imap_ext. intros i x _. cbn.
    do 2 f_equal. lia.
Qed.

Lemma stores_shift (a : Z) (k : nat) (l : list (Z * Z)) :
  a = Z.of_nat k ->
  flat_map (fun p : nat * (Z * Z) =>
              [store_address (a + Z.of_nat p.1) p.2.2; delete_mr p.2.2])
    (imap (fun i it => (i, it)) l)
  = flat_map (fun p : nat * (Z * Z) =>
                [store_address (Z.of_nat p.1) p.2.2; delete_mr p.2.2])
      (imap (fun n it => ((k + n)%nat, it)) l).
Proof.
  intros ->. rewrite !flat_map_concat_map. f_equal. rewrite !fmap_imap.
  apply imap_ext. intros i x _. cbn. do 2 f_equal. lia.
Qed.

(** [Prepare_Batch_Deallocate] never trips over its assertion: the
    number of addresses written equals the number of chunks.  The
    buffer receives the addresses of the data chunks, then of the index
    chunks, then of the filter chunks, at the indices 0, 1, 2, ...;
    every [ibv_mr] is deleted; the RPC is sent exactly when the manager
    asked for it; and the answer is true. *)
Theorem Prepare_Batch_Deallocate_fills_buffer NDEBUG RPC f :
  let mrs := (remote_data_mrs f ++ remote_dataindex_mrs f
              ++ remote_filter_mrs f)%list in
  Z.of_nat (length mrs) < 2 ^ 64 ->
  exists calls,
    Prepare_Batch_Deallocate NDEBUG RPC f = Val (true, calls) /\
    calls =
      (Remote_Memory_Deallocation_Fetch_Buff (Z.of_nat (length mrs))
       :: flat_map (fun p => [store_address (Z.of_nat p.1) p.2.2;
                              delete_mr p.2.2])
            (imap (fun i it => (i, it)) mrs)
       ++ if RPC then [Memory_Deallocation_RPC] else [])%list.
Proof.
  cbv zeta. rewrite !length_app, !Nat2Z.inj_add. intros Hlen.
  unfold Prepare_Batch_Deallocate.
  rewrite (u64_id (Z.of_nat _ + Z.of_nat _)) by lia. rewrite u64_id by lia.
  rewrite fill_spec by lia. rewrite fill_spec by lia. rewrite fill_spec by lia.
  unfold assert_, bind.
  rewrite (proj2 (Z.eqb_eq _ _)) by lia. rewrite orb_true_r.
  eexists. split; [reflexivity|].
  f_equal; [f_equal; lia|].
  rewrite !imap_app, !flat_map_app, <- !app_assoc.
  rewrite (stores_shift _ 0%nat) by lia.
  rewrite (stores_shift _ (length (remote_data_mrs f))) by lia.
  rewrite (stores_shift _ (length (remote_data_mrs f)
                           + length (remote_dataindex_mrs f))) by lia.
  apply (f_equal2 app); [reflexivity|].
  apply (f_equal2 app); [reflexivity|].
  apply (f_equal2 app); [|reflexivity].
  apply f_equal. apply imap_ext. intros i x _. f_equal. lia.
Qed.

Lemma Prepare_Batch_Deallocate_fills_buffer_witness :
  let f := {| this_machine_type := 0; creator_node_id := 1;
              number := 5; file_size := 4096;
              remote_data_mrs := [(0, 4096); (8, 8192)];
              remote_dataindex_mrs := [(0, 12288)];
              remote_filter_mrs := [(0, 16384)] |} in
  Prepare_Batch_Deallocate false true f
    = Val (true,
           [Remote_Memory_Deallocation_Fetch_Buff 4;
            store_address 0 4096; delete_mr 4096;
            store_address 1 8192; delete_mr 8192;
            store_address 2 12288; delete_mr 12288;
            store_address 3 16384; delete_mr 16384;
            Memory_Deallocation_RPC]).
Proof.
  intros f.
  destruct (Prepare_Batch_Deallocate_fills_buffer false true f)
    as (calls & Hrun & Hcalls).
  - vm_compute. reflexivity.
  - rewrite Hrun, Hcalls. reflexivity.
Defined.

End EditFacts.

(** ** Files of a database *)

Section NewDBFacts.
Import Files.

Context (DescriptorFileName : string -> Z -> string).

(** [NewDB] answers OK exactly when every step succeeded.  CURRENT is
    pointed at the new manifest only after the record has been added,
    synced and the file closed; a manifest that was created but could
    not be completed is removed; and when the manifest cannot be
    created nothing else is attempted. *)
Theorem NewDB_all_or_nothing env dbname name :
  let '(s, calls) := NewDB DescriptorFileName env dbname name in
  let manifest := DescriptorFileName dbname 1 in
  let written :=
    ok (new_writable_file env) && ok (add_record env) && ok (sync env)
    && ok (close env) in
  (ok s = true <-> written = true /\ ok (set_current_file env) = true) /\
  (SetCurrentFile 1 ∈ calls <-> written = true) /\
  (RemoveFile manifest ∈ calls <->
     ok (new_writable_file env) = true /\ written = false) /\
  (ok (new_writable_file env) = false ->
   s = new_writable_file env /\ calls = [NewWritableFile manifest]) /\
  (written = true -> s = set_current_file env).
Proof.
  unfold NewDB.
  destruct (ok (new_writable_file env)) eqn:E1;
    [destruct (ok (add_record env)) eqn:E2;
       [destruct (ok (sync env)) eqn:E3;
          [destruct (ok (close env)) eqn:E4|]|]|];
    cbn; rewrite ?E1, ?E2, ?E3, ?E4; cbn;
    rewrite ?elem_of_cons, ?elem_of_nil;
    intuition (try discriminate; try congruence).
Qed.

End NewDBFacts.

Section ObsoleteFacts.
Import Files.

Context (ParseFileName : string -> option (Z * FileType)).

Lemma append_inj_l (a x y : string) : (a ++ x = a ++ y)%string -> x = y.
Proof.
  induction a as [|c a IH]; cbn; [auto|]. intros [= H]. now apply IH.
Qed.

Lemma obsolete_Evict_only st names c :
  c ∈ (obsolete ParseFileName st names).2 -> exists n, c = Evict n.
Proof.
  induction names as [|f r IH]; cbn; [intros H; inversion H|].
  destruct (obsolete ParseFileName st r) as [del calls]. cbn in *.
  destruct (ParseFileName f) as [[n t]|]; [|exact IH].
  destruct (keep st n t); [exact IH|]. cbn.
  destruct t; try exact IH.
  intros H. apply elem_of_cons in H as [-> | H]; eauto.
Qed.

Lemma obsolete_deleted st names filename :
  filename ∈ (obsolete ParseFileName st names).1 <->
  filename ∈ names /\
  exists number type, ParseFileName filename = Some (number, type) /\
    keep st number type = false.
Proof.
  induction names as [|f r IH]; cbn.
  - rewrite elem_of_nil. split; [tauto | intros [H _]; inversion H].
  - destruct (obsolete ParseFileName st r) as [del calls]. cbn in *.
    destruct (ParseFileName f) as [[n t]|] eqn:Ep.
    + destruct (keep st n t) eqn:Ek; cbn.
      * rewrite IH, elem_of_cons. split; [tauto|].
        intros [[-> | H] (n1 & t1 & H1 & H2)]; [congruence | eauto 10].
      * rewrite !elem_of_cons, IH. split.
        -- intros [-> | H]; [eauto 10 | tauto].
        -- intros [[-> | H] H1]; [now left | right; tauto].
    + rewrite IH, elem_of_cons. split; [tauto|].
      intros [[-> | H] (n1 & t1 & H1 & H2)]; [congruence | eauto 10].
Qed.

Lemma obsolete_evicted st names filename number :
  filename ∈ names -> ParseFileName filename = Some (number, kTableFile) ->
  keep st number kTableFile = false ->
  Evict number ∈ (obsolete ParseFileName st names).2.
Proof.
  intros Hin Hp Hk. induction names as [|f r IH]; [inversion Hin|].
  cbn [obsolete]. destruct (obsolete ParseFileName st r) as [del calls].
  cbn [fst snd] in *.
  apply elem_of_cons in Hin as [<- | Hin].
  - rewrite Hp, Hk. cbn. apply list_elem_of_here.
  - specialize (IH Hin). destruct (ParseFileName f) as [[n t]|]; [|exact IH].
    destruct (keep st n t); [exact IH|]. cbn.
    destruct t; try exact IH. now apply list_elem_of_further.
Qed.

(** What [RemoveObsoleteFiles] removes is in the directory, has a name
    that parses, and is obsolete: a log older than the current one and
    not the previous one, a manifest older than the current one, or a
    table or temporary file that is neither a pending output nor live
    in a version; a table that is removed is also evicted from the
    table cache.  CURRENT, the lock file and the info logs are never
    removed, and with a background error latched nothing is. *)
Theorem RemoveObsoleteFiles_spares st dbname filename :
  RemoveFile (dbname ++ "/" ++ filename)
    ∈ RemoveObsoleteFiles ParseFileName st dbname ->
  ok (bg_error_ st) = true /\ filename ∈ filenames st /\
  exists number type,
    ParseFileName filename = Some (number, type) /\
    match type with
    | kLogFile => number < LogNumber st /\ number <> PrevLogNumber st
    | kDescriptorFile => number < ManifestFileNumber st
    | kTableFile =>
        (number ∉ pending_outputs_ st) /\ (number ∉ live_files st) /\
        Evict number ∈ RemoveObsoleteFiles ParseFileName st dbname
    | kTempFile => (number ∉ pending_outputs_ st) /\ (number ∉ live_files st)
    | kCurrentFile | kDBLockFile | kInfoLogFile => False
    end.
Proof.
  unfold RemoveObsoleteFiles.
  destruct (ok (bg_error_ st)) eqn:Eb; cbn [negb]; [|intros H; inversion H].
  pose proof (obsolete_deleted st (filenames st) filename) as Hd.
  pose proof (obsolete_Evict_only st (filenames st)) as He.
  pose proof (obsolete_evicted st (filenames st) filename) as Hv.
  destruct (obsolete ParseFileName st (filenames st)) as [del calls].
  cbn [fst snd] in *.
  intros H. apply elem_of_app in H as [H | H].
  { destruct (He _ H) as [n Hn]. discriminate. }
  apply list_elem_of_fmap in H as (f & Hf & Hin).
  injection Hf as Hf. apply append_inj_l in Hf. apply append_inj_l in Hf.
  subst f. apply Hd in Hin as (Hin & number & type & Hp & Hk).
  split; [reflexivity|]. split; [exact Hin|].
  exists number, type. split; [exact Hp|].
  assert (Hlive : live st number = false ->
            (number ∉ pending_outputs_ st) /\ (number ∉ live_files st)).
  { unfold live. intros Hl. apply bool_decide_eq_false in Hl.
    rewrite elem_of_app in Hl. tauto. }
  destruct type; cbn in Hk; try discriminate.
  - apply orb_false_iff in Hk as [H1 H2].
    rewrite Z.geb_leb in H1. apply Z.leb_gt in H1. apply Z.eqb_neq in H2. lia.
  - destruct (Hlive Hk) as [H1 H2]. split; [exact H1|]. split; [exact H2|].
    apply elem_of_app. left. now apply Hv.
  - rewrite Z.geb_leb in Hk. apply Z.leb_gt in Hk. lia.
  - now apply Hlive.
Qed.

Lemma remove_each_spec env dbname names : forall result,
  remove_each ParseFileName env dbname names result
  = (if ok result then
       match find (fun fname => negb (ok (remove_file env fname)))
               ((fun filename => dbname ++ "/" ++ filename)%string
                  <$> List.filter (doomed ParseFileName) names) with
       | Some fname => remove_file env fname
       | None => result
       end
     else result,
     RemoveFile <$>
       ((fun filename => dbname ++ "/" ++ filename)%string
          <$> List.filter (doomed ParseFileName) names)).
Proof.
  induction names as [|f r IH]; intros result; cbn [remove_each].
  - cbn. now destruct (ok result).
  - cbn [List.filter].
    assert (Hd : doomed ParseFileName f
                 = match ParseFileName f with
                   | Some (_, kDBLockFile) => false
                   | Some _ => true
                   | None => false
                   end) by reflexivity.
    destruct (ParseFileName f) as [[n t]|]; [|rewrite Hd; apply IH].
    destruct t; rewrite Hd; try apply IH; rewrite IH;
      destruct (ok (remove_file env (dbname ++ "/" ++ f)%string)) eqn:Ed;
      destruct (ok result) eqn:Er; cbn;
      rewrite ?Er, ?Ed; cbn; rewrite ?Er, ?Ed; reflexivity.
Qed.

End ObsoleteFacts.

Section DestroyFacts.
Import Files.

Context (ParseFileName : string -> option (Z * FileType))
        (LockFileName : string -> string).

(** [DestroyDB] answers OK and touches nothing when the directory
    cannot be listed, and answers with the lock's error and removes
    nothing when the lock cannot be taken.  With the lock it tries to
    remove every file whose name parses, except the lock file, going on
    after a failure; then it releases the lock and removes the lock
    file and the directory.  Its answer is the error of the first
    removal that failed, and OK when none did. *)
Theorem DestroyDB_removes_all env dbname :
  let '(s, calls) := DestroyDB ParseFileName LockFileName env dbname in
  let paths :=
    (fun filename => dbname ++ "/" ++ filename)%string
      <$> List.filter (doomed ParseFileName) (get_children env).2 in
  (ok (get_children env).1 = false -> s = OK /\ calls = []) /\
  (ok (get_children env).1 = true -> ok (lock_file env) = false ->
   s = lock_file env /\ calls = []) /\
  (ok (get_children env).1 = true -> ok (lock_file env) = true ->
   calls = ((RemoveFile <$> paths) ++
            [UnlockFile; RemoveFile (LockFileName dbname);
             RemoveDir dbname])%list /\
   s = match find (fun fname => negb (ok (remove_file env fname))) paths with
       | Some fname => remove_file env fname
       | None => OK
       end).
Proof.
  unfold DestroyDB. destruct (get_children env) as [result names]. cbn [fst snd].
  destruct (ok result) eqn:Er; cbn [negb].
  - destruct (ok (lock_file env)) eqn:El.
    + rewrite (remove_each_spec ParseFileName), El.
      split; [discriminate|]. split; [intros _ H; discriminate|].
      intros _ _. split; [reflexivity|].
      destruct (find _ _); [reflexivity|]. now apply ok_OK.
    + split; [discriminate|]. split; [auto|]. intros _ H; discriminate.
  - split; [auto|]. split; intros H; discriminate.
Qed.

End DestroyFacts.

Section FilesExamplesFacts.
Import Files FilesExamples.

Lemma RemoveObsoleteFiles_spares_witness :
  RemoveFile "db/000005.ldb"
    ∈ RemoveObsoleteFiles parse after_compaction "db" /\
  Evict 5
    ∈ RemoveObsoleteFiles parse after_compaction "db".
Proof.
  assert (H : RemoveFile ("db" ++ "/" ++ "000005.ldb")
                ∈ RemoveObsoleteFiles parse
                    after_compaction "db").
  { vm_compute. repeat constructor. }
  split; [exact H|].
  destruct (RemoveObsoleteFiles_spares parse
              after_compaction "db"
              "000005.ldb" H) as (_ & _ & number & type & Hp & Ht).
  vm_compute in Hp. injection Hp as <- <-. apply Ht.
Defined.

End FilesExamplesFacts.

(** ** Group commit *)

Section GroupFacts.
Import Int Group.

Lemma bytes_app a b : bytes (a ++ b) = bytes a + bytes b.
Proof. induction a as [|w a IH]; cbn; [reflexivity|]. rewrite IH. lia. Qed.

Lemma bytes_nonneg ws :
  Forall (fun w => 0 <= from_option ByteSize 0 (batch w)) ws -> 0 <= bytes ws.
Proof.
  induction 1 as [|w ws Hw _ IH]; cbn; lia.
Qed.

Lemma grow_spec NDEBUG tmp first_sync max_size rest :
  forall i size result last_writer,
  Forall (fun w => 0 <= from_option ByteSize 0 (batch w)) rest ->
  0 <= size -> size + bytes rest < 2 ^ 64 ->
  NDEBUG = true \/ Count tmp = 0 ->
  exists k : nat,
    (k <= length rest)%nat /\
    let joined := with_batch i (take k rest) in
    grow NDEBUG tmp first_sync max_size rest i size result last_writer
      = Val (match joined with [] => result | _ => tmp_batch_ end,
             match k with O => last_writer | S k' => (i + k')%nat end,
             (match result, joined with
              | first_batch, _ :: _ => [Append 0]
              | _, _ => []
              end ++ (Append <$> joined))%list) /\
    (forall w, w ∈ take k rest -> sync w = true -> first_sync = true) /\
    (joined <> [] -> size + bytes (take k rest) <= max_size) /\
    (forall w, rest !! k = Some w ->
       stops first_sync max_size (size + bytes (take k rest)) w).
Proof.
  induction rest as [|w r IH]; intros i size result last_writer Hb H0 Hsum Hnd.
  - exists 0%nat. cbn. split; [lia|]. split; [now destruct result|].
    split; [intros w Hw; inversion Hw|]. split; [congruence|]. discriminate.
  - apply Forall_cons in Hb as [Hw Hb]. cbn [bytes] in Hsum.
    pose proof (bytes_nonneg r Hb) as Hr.
    cbn [grow].
    destruct (sync w && negb first_sync) eqn:Es.
    { exists 0%nat. cbn. split; [lia|]. split; [now destruct result|].
      split; [intros x Hx; inversion Hx|]. split; [congruence|].
      intros x [= <-]. left. apply andb_true_iff in Es as [E1 E2].
      now apply negb_true_iff in E2. }
    assert (Hsync : sync w = true -> first_sync = true).
    { intros E. rewrite E in Es. now destruct first_sync. }
    destruct (batch w) as [b|] eqn:Eb; cbn [from_option] in *.
    + rewrite u64_id by lia.
      destruct (Z.gtb_spec (size + ByteSize b) max_size) as [Hgt | Hle].
      { exists 0%nat. cbn. split; [lia|]. split; [now destruct result|].
        split; [intros x Hx; inversion Hx|]. split; [congruence|].
        intros x [= <-]. right. exists b. split; [exact Eb | lia]. }
      destruct (IH (S i) (size + ByteSize b) tmp_batch_ i Hb) as
        (k & Hk & Hrun & Hs & Hm & Hstop); [lia | lia | exact Hnd |].
      cbv zeta in Hrun, Hm.
      exists (S k). split; [cbn; lia|]. cbv zeta.
      cbn [take with_batch]. rewrite Eb.
      split.
      { rewrite Hrun.
        assert (Ha : match result with
                     | first_batch =>
                         assert_ NDEBUG (Count tmp =? 0)
                           "WriteBatchInternal::Count(result) == 0" ;;;
                         Val [Append 0]
                     | tmp_batch_ => Val []
                     end
                     = Val (match result with
                            | first_batch => [Append 0]
                            | tmp_batch_ => []
                            end)).
        { destruct result; [|reflexivity]. unfold assert_.
          destruct Hnd as [-> | ->]; [reflexivity|].
          cbn. now rewrite orb_true_r. }
        rewrite Ha. cbn [bind fst snd].
        assert (E1 : match with_batch (S i) (take k r) with
                     | [] | _ => tmp_batch_
                     end = tmp_batch_)
          by (destruct (with_batch (S i) (take k r)); reflexivity).
        assert (E2 : match k with
                     | O => i
                     | S k' => (S i + k')%nat
                     end = (i + k)%nat) by (destruct k; lia).
        rewrite E1, E2. reflexivity. }
      split.
      { intros x Hx. apply elem_of_cons in Hx as [-> | Hx];
          [exact Hsync | exact (Hs x Hx)]. }
      split.
      { intros _. cbn [bytes]. rewrite Eb. cbn.
        destruct (with_batch (S i) (take k r)) eqn:Ej.
        - assert (Hz : bytes (take k r) = 0).
          { clear -Ej. revert i Ej. generalize (take k r) as l.
            induction l as [|x l IH]; intros i Ej; [reflexivity|].
            cbn in Ej |- *. destruct (batch x); [discriminate|].
            cbn. now rewrite (IH (S i)). }
          lia.
        - assert (Hne : n :: l <> []) by discriminate.
          specialize (Hm Hne). lia. }
      intros x Hx. cbn in Hx.
      cbn [bytes]. rewrite Eb. cbn.
      replace (size + (ByteSize b + bytes (take k r)))
        with (size + ByteSize b + bytes (take k r)) by lia.
      now apply Hstop.
    + destruct (IH (S i) size result i Hb) as
        (k & Hk & Hrun & Hs & Hm & Hstop); [lia | lia | exact Hnd |].
      cbv zeta in Hrun, Hm.
      exists (S k). split; [cbn; lia|]. cbv zeta.
      cbn [take with_batch]. rewrite Eb.
      split.
      { rewrite Hrun. f_equal. f_equal. f_equal. destruct k; lia. }
      split.
      { intros x Hx. apply elem_of_cons in Hx as [-> | Hx];
          [exact Hsync | exact (Hs x Hx)]. }
      split.
      { intros Hj. cbn [bytes]. rewrite Eb. cbn.
        specialize (Hm Hj). lia. }
      intros x Hx. cbn in Hx.
      cbn [bytes]. rewrite Eb. cbn.
      now apply Hstop.
Qed.

(** [BuildBatchGroup] on a queue whose first writer brings a batch
    returns a group that is a prefix of the queue, ending at
    [*last_writer].  A sync write joins only a group led by a sync
    write.  When no writer behind the first one contributes a batch, the
    result is the first writer's own batch and nothing is appended;
    otherwise the result is [tmp_batch_], to which the first batch and
    then the batches of the group are appended in queue order, the
    caller's batch is left alone, and the bytes of the group do not
    exceed the limit (1 MiB, or the first batch plus 128 KiB when that
    batch is at most 128 KiB).  The group is maximal: the writer behind
    it, if any, is a sync write behind a non-sync one or would make the
    group too big. *)
Theorem BuildBatchGroup_group NDEBUG first rest tmp b :
  batch first = Some b ->
  Forall (fun w => 0 <= from_option ByteSize 0 (batch w)) (first :: rest) ->
  bytes (first :: rest) < 2 ^ 64 ->
  NDEBUG = true \/ Count tmp = 0 ->
  let max_size :=
    if ByteSize b <=? 128 * 1024 then ByteSize b + 128 * 1024
    else 1024 * 1024 in
  exists last_writer : nat,
    (last_writer < length (first :: rest))%nat /\
    let group := take (S last_writer) (first :: rest) in
    let joined := with_batch 1 (take last_writer rest) in
    BuildBatchGroup NDEBUG (first :: rest) tmp
      = Val (match joined with [] => first_batch | _ => tmp_batch_ end,
             last_writer,
             match joined with
             | [] => []
             | _ => Append 0 :: (Append <$> joined)
             end) /\
    (forall w, w ∈ group -> sync w = true -> sync first = true) /\
    (joined <> [] -> bytes group <= max_size) /\
    (forall w, (first :: rest) !! S last_writer = Some w ->
       stops (sync first) max_size (bytes group) w).
Proof.
  intros Hb Hall Hsum Hnd. cbv zeta.
  apply Forall_cons in Hall as [H0 Hall]. rewrite Hb in H0. cbn in H0.
  cbn [bytes] in Hsum. rewrite Hb in Hsum. cbn [from_option] in Hsum.
  pose proof (bytes_nonneg rest Hall) as Hr.
  set (max_size := if ByteSize b <=? 128 * 1024 then ByteSize b + 128 * 1024
                   else 1024 * 1024).
  destruct (grow_spec NDEBUG tmp (sync first) max_size rest 1
              (ByteSize b) first_batch 0 Hall H0 Hsum Hnd)
    as (k & Hk & Hrun & Hs & Hm & Hstop).
  cbv zeta in Hrun, Hm.
  assert (Hlast : match k with O => 0%nat | S k' => (1 + k')%nat end = k)
    by (destruct k; lia).
  rewrite Hlast in Hrun.
  exists k. split; [cbn; lia|].
  split.
  { unfold BuildBatchGroup, assert_.
    rewrite bool_decide_eq_false_2 by discriminate.
    rewrite bool_decide_eq_true_2 by (rewrite Hb; discriminate).
    rewrite !orb_true_r. cbn [negb bind]. rewrite Hb.
    assert (Hmax : (if ByteSize b <=? 128 * 2 ^ 10
                    then u64 (ByteSize b + 128 * 2 ^ 10) else 2 ^ 20)
                   = max_size).
    { unfold max_size. change (128 * 2 ^ 10) with (128 * 1024).
      change (2 ^ 20) with (1024 * 1024).
      destruct (Z.leb_spec (ByteSize b) (128 * 1024)); [|reflexivity].
      apply u64_id. lia. }
    rewrite Hmax, Hrun.
    destruct (with_batch 1 (take k rest)); reflexivity. }
  split.
  { intros w Hw. cbn [take] in Hw.
    apply elem_of_cons in Hw as [-> | Hw]; [auto | exact (Hs w Hw)]. }
  split.
  { intros Hj. cbn [take bytes]. rewrite Hb. cbn [from_option]. exact (Hm Hj). }
  intros w Hw. cbn [take bytes]. rewrite Hb. cbn [from_option].
  apply Hstop. exact Hw.
Qed.

Lemma BuildBatchGroup_group_witness :
  let w0 := {| batch := Some {| ByteSize := 100; Count := 1 |};
               sync := false |} in
  let w1 := {| batch := Some {| ByteSize := 50; Count := 1 |};
               sync := false |} in
  let w2 := {| batch := None; sync := false |} in
  let w3 := {| batch := Some {| ByteSize := 20; Count := 1 |};
               sync := true |} in
  BuildBatchGroup false [w0; w1; w2; w3] {| ByteSize := 12; Count := 0 |}
    = Val (tmp_batch_, 2%nat, [Append 0; Append 1]) /\
  stops false (100 + 128 * 1024) 150 w3.
Proof.
  intros w0 w1 w2 w3.
  assert (E : BuildBatchGroup false [w0; w1; w2; w3]
                {| ByteSize := 12; Count := 0 |}
              = Val (tmp_batch_, 2%nat, [Append 0; Append 1]))
    by (vm_compute; reflexivity).
  split; [exact E|].
  destruct (BuildBatchGroup_group false w0 [w1; w2; w3]
              {| ByteSize := 12; Count := 0 |}
              {| ByteSize := 100; Count := 1 |})
    as (last_writer & _ & Hrun & _ & _ & Hstop).
  - reflexivity.
  - repeat constructor; cbn; lia.
  - vm_compute. reflexivity.
  - right. reflexivity.
  - rewrite E in Hrun. injection Hrun as _ Hlast _. subst last_writer.
    apply (Hstop w3). reflexivity.
Defined.

End GroupFacts.

(** ** Picking the table to write *)

Section PickupMore.
Import Int DB Examples.

Lemma run_pickup_wait SIZE nd n st seq p :
  run_pickup SIZE nd n st (Pickup_wait seq p) = Blocked st.
Proof. destruct n; reflexivity. Qed.

Lemma run_pickup_fail SIZE nd n st pc f :
  match pc with
  | Write_after_pickup _ _ _ | Pickup_wait _ _ => False
  | _ => True
  end ->
  write_step SIZE nd None st pc = Fail f ->
  run_pickup SIZE nd (S n) st pc = Aborted f.
Proof.
  intros Hpc H. destruct pc; try contradiction; cbn [run_pickup];
    now rewrite H.
Qed.

#[local] Arguments run_pickup : simpl never.

Ltac pickup_step :=
  etransitivity;
  [ apply run_pickup_step;
    [ exact I | unfold write_step, deref_opt, deref, assert_; cbn ] | ].

(** [PickupTableToWrite] when no rotation is due, run without
    interference.  A sequence number inside the window of [mem_] gets
    [mem_]; one before it gets [imm_] when the window of [imm_] holds it;
    in both cases nothing of the database changes.  A sequence number
    before the window of [mem_] with [imm_] null ends the run: the
    assertion fails, or the null pointer is dereferenced.  A sequence
    number past the window of [mem_] while [imm_] is still set waits on
    [Memtable_full_cv]. *)
Theorem PickupTableToWrite_finds_table SIZE nd st p m seq :
  mem_ st = Some p -> heap st !! p = Some m ->
  (first_seq m <= seq <= largest_seq_supposed m ->
   PickupTableToWrite SIZE nd st seq = Returned st (OK, p)) /\
  (seq < first_seq m -> seq <= largest_seq_supposed m ->
   forall q mi, imm_ st = Some q -> heap st !! q = Some mi ->
     first_seq mi <= seq <= largest_seq_supposed mi ->
     nd = true \/ u64 (SIZE - kv_num mi) <= 4 ->
     PickupTableToWrite SIZE nd st seq = Returned st (OK, q)) /\
  (seq < first_seq m -> seq <= largest_seq_supposed m ->
   imm_ st = None ->
   PickupTableToWrite SIZE nd st seq
     = Aborted (if nd then NullDereference "mem_r->Get_kv_num()"
                else AssertionFailure "imm_.load()!= nullptr")) /\
  (seq > largest_seq_supposed m ->
   forall q, imm_ st = Some q ->
     nd = true \/ seq > first_seq m ->
     PickupTableToWrite SIZE nd st seq = Blocked st).
Proof.
  intros Hmem Hm.
  assert (Hhead : forall n,
            run_pickup SIZE nd (S n) st (Pickup_load_mem seq)
            = run_pickup SIZE nd n st (loop_head seq p m)).
  { intros n. apply run_pickup_step; [exact I|].
    unfold write_step, deref_opt, deref. rewrite Hmem. cbn. now rewrite Hm. }
  assert (Hbefore : seq < first_seq m -> seq <= largest_seq_supposed m ->
            loop_head seq p m = Search_load_imm seq).
  { intros H1 H2. unfold loop_head, search_head.
    destruct (Z.gtb_spec seq (largest_seq_supposed m)); [lia|].
    destruct (Z.geb_spec seq (first_seq m)); [lia | reflexivity]. }
  unfold PickupTableToWrite.
  split; [|split; [|split]].
  - intros Hw. rewrite Hhead. unfold loop_head, search_head.
    destruct (Z.gtb_spec seq (largest_seq_supposed m)); [lia|].
    destruct (Z.geb_spec seq (first_seq m)); [|lia].
    destruct (Z.leb_spec seq (largest_seq_supposed m)); [|lia].
    apply run_pickup_return.
  - intros H1 H2 q mi Himm Hq Hw Ha. rewrite Hhead, (Hbefore H1 H2).
    pickup_step.
    { reflexivity. }
    pickup_step.
    { rewrite Himm. rewrite bool_decide_eq_false_2 by discriminate.
      rewrite orb_true_r. cbn. rewrite Hq. cbn.
      assert (Hb : nd || (u64 (SIZE - kv_num mi) <=? 4) = true).
      { destruct Ha as [-> | Ha]; [reflexivity|].
        apply Z.leb_le in Ha. rewrite Ha. apply orb_true_r. }
      rewrite Hb. cbn. unfold search_head.
      destruct (Z.geb_spec seq (first_seq mi)); [|lia].
      destruct (Z.leb_spec seq (largest_seq_supposed mi)); [|lia].
      reflexivity. }
    apply run_pickup_return.
  - intros H1 H2 Himm. rewrite Hhead, (Hbefore H1 H2).
    pickup_step.
    { reflexivity. }
    apply run_pickup_fail; [exact I|].
    unfold write_step, deref_opt, assert_. rewrite Himm.
    rewrite bool_decide_eq_true_2 by reflexivity.
    destruct nd; reflexivity.
  - intros Hgt q Himm Ha. rewrite Hhead. unfold loop_head.
    destruct (Z.gtb_spec seq (largest_seq_supposed m)); [|lia].
    pickup_step.
    { rewrite Hm, Himm. cbn.
      assert (Hb : nd || (seq >? first_seq m) = true).
      { destruct Ha as [-> | Ha]; [reflexivity|].
        destruct (Z.gtb_spec seq (first_seq m)); [apply orb_true_r | lia]. }
      rewrite Hb. cbn. reflexivity. }
    apply run_pickup_wait.
Qed.

Lemma PickupTableToWrite_finds_table_witness :
  PickupTableToWrite 2 false db_rotated 1 = Returned db_rotated (OK, 0%nat) /\
  PickupTableToWrite 2 false db_rotated 3 = Returned db_rotated (OK, 1%nat) /\
  PickupTableToWrite 2 false db_rotated 4 = Blocked db_rotated.
Proof.
  destruct (PickupTableToWrite_finds_table 2 false db_rotated 1%nat
              {| first_seq := 2; largest_seq_supposed := 3; kv_num := 1;
                 flush_state := FLUSH_NOT_REQUESTED;
                 table := [entry_of (BatchPut "c" "3") 2] |} 1)
    as (_ & H2 & _); [reflexivity | reflexivity |].
  destruct (PickupTableToWrite_finds_table 2 false db_rotated 1%nat
              {| first_seq := 2; largest_seq_supposed := 3; kv_num := 1;
                 flush_state := FLUSH_NOT_REQUESTED;
                 table := [entry_of (BatchPut "c" "3") 2] |} 3)
    as (H1 & _); [reflexivity | reflexivity |].
  destruct (PickupTableToWrite_finds_table 2 false db_rotated 1%nat
              {| first_seq := 2; largest_seq_supposed := 3; kv_num := 1;
                 flush_state := FLUSH_NOT_REQUESTED;
                 table := [entry_of (BatchPut "c" "3") 2] |} 4)
    as (_ & _ & _ & H4); [reflexivity | reflexivity |].
  split; [|split].
  - apply (H2 ltac:(cbn; lia) ltac:(cbn; lia) 0%nat
             {| first_seq := 0; largest_seq_supposed := 1; kv_num := 2;
                flush_state := FLUSH_REQUESTED;
                table := [entry_of (BatchPut "a" "1") 0;
                          entry_of (BatchPut "b" "2") 1] |});
      [reflexivity | reflexivity | cbn; lia | right; vm_compute; discriminate].
  - apply H1. cbn. lia.
  - apply (H4 ltac:(cbn; lia) 0%nat); [reflexivity | right; cbn; lia].
Defined.

End PickupMore.

(** ** Recovery *)

Section SortFacts.
Import Int Recovery.

Lemma insert_sorted_perm x l : insert_sorted x l ≡ₚ x :: l.
Proof.
  induction l as [|y r IH]; cbn; [reflexivity|].
  destruct (x <=? y); [reflexivity|].
  rewrite IH. apply Permutation_swap.
Qed.

Lemma sort_perm l : sort l ≡ₚ l.
Proof.
  induction l as [|x l IH]; cbn; [reflexivity|].
  rewrite insert_sorted_perm. now rewrite IH.
Qed.

Lemma elem_of_sort x l : x ∈ sort l <-> x ∈ l.
Proof. now rewrite sort_perm. Qed.

Lemma increasing_insert_sorted x l :
  increasing l = true -> increasing (insert_sorted x l) = true.
Proof.
  induction l as [|y r IH]; intros H; [reflexivity|].
  cbn [insert_sorted]. destruct (Z.leb_spec x y) as [Hxy | Hxy].
  - cbn [increasing]. apply andb_true_iff. split; [now apply Z.leb_le | exact H].
  - assert (Hr : increasing r = true).
    { cbn [increasing] in H. destruct r; [reflexivity|].
      now apply andb_true_iff in H as [_ H]. }
    specialize (IH Hr).
    destruct r as [|z r]; cbn [insert_sorted increasing] in *.
    + rewrite (proj2 (Z.leb_le y x)) by lia. reflexivity.
    + apply andb_true_iff in H as [Hyz _].
      destruct (Z.leb_spec x z).
      * cbn [increasing]. rewrite (proj2 (Z.leb_le y x)) by lia. exact IH.
      * rewrite Hyz. exact IH.
Qed.

Lemma sort_increasing l : increasing (sort l) = true.
Proof.
  induction l as [|x l IH]; cbn; [reflexivity|].
  now apply increasing_insert_sorted.
Qed.

Lemma increasing_app_l a b : increasing (a ++ b) = true -> increasing a = true.
Proof.
  induction a as [|x a IH]; intros H; [reflexivity|].
  destruct a as [|y a]; [reflexivity|].
  cbn [app increasing] in H |- *. apply andb_true_iff in H as [H1 H2].
  rewrite H1. apply IH. exact H2.
Qed.

Lemma elem_of_to_set x l : x ∈ to_set l <-> x ∈ l.
Proof. unfold to_set. now rewrite elem_of_sort, elem_of_remove_dups. Qed.

Lemma elem_of_erase x y s : x ∈ erase y s <-> x ∈ s /\ x <> y.
Proof.
  unfold erase. rewrite !list_elem_of_In, filter_In.
  rewrite negb_true_iff, Z.eqb_neq. reflexivity.
Qed.

End SortFacts.

Section RecoverFacts.
Import Int Recovery.

Context (ParseFileName : string -> option (Z * Files.FileType))
        (LockFileName : string -> string)
        (DescriptorFileName : string -> Z -> string)
        (TableFileName : string -> Z -> string)
        (message : string -> string -> string)
        (decimal : Z -> string).

Lemma scan_logs min_log prev_log names : forall expected log,
  log ∈ (scan ParseFileName min_log prev_log names expected).2 <->
  exists f, f ∈ names /\ ParseFileName f = Some (log, Files.kLogFile) /\
            (min_log <= log \/ log = prev_log).
Proof.
  induction names as [|f r IH]; intros expected log; cbn [scan].
  - cbn. rewrite elem_of_nil. split; [tauto|].
    intros (f & Hf & _). inversion Hf.
  - assert (Hr : (exists f0, f0 ∈ f :: r /\
                    ParseFileName f0 = Some (log, Files.kLogFile) /\
                    (min_log <= log \/ log = prev_log)) <->
                 (ParseFileName f = Some (log, Files.kLogFile) /\
                  (min_log <= log \/ log = prev_log)) \/
                 exists f0, f0 ∈ r /\
                    ParseFileName f0 = Some (log, Files.kLogFile) /\
                    (min_log <= log \/ log = prev_log)).
    { split.
      - intros (f0 & Hin & H). apply elem_of_cons in Hin as [-> | Hin]; eauto.
      - intros [H | (f0 & Hin & H)].
        + exists f. split; [apply list_elem_of_here | exact H].
        + exists f0. split; [now apply list_elem_of_further | exact H]. }
    rewrite Hr. clear Hr.
    destruct (ParseFileName f) as [[n t]|] eqn:Ep.
    + specialize (IH (erase n expected) log).
      destruct (scan ParseFileName min_log prev_log r (erase n expected))
        as [e logs]. cbn [snd] in *.
      assert (Hq : (n >=? min_log) || (n =? prev_log) = true <->
                   (min_log <= n \/ n = prev_log)).
      { rewrite orb_true_iff, Z.geb_leb, Z.leb_le, Z.eqb_eq. reflexivity. }
      destruct t;
        try (rewrite IH; split; [tauto | intros [[[=] _] | H]; exact H]).
      destruct ((n >=? min_log) || (n =? prev_log)) eqn:Eq.
      * rewrite elem_of_cons, IH. apply proj1 in Hq. specialize (Hq eq_refl).
        split.
        -- intros [-> | H]; [left; split; [reflexivity | exact Hq] | now right].
        -- intros [[[= ->] _] | H]; [now left | now right].
      * rewrite IH. split; [tauto|].
        intros [[[= ->] H] | H]; [|exact H].
        apply Hq in H. discriminate.
    + rewrite IH. split; [tauto | intros [[[=] _] | H]; exact H].
Qed.

Lemma scan_expected min_log prev_log names : forall expected x,
  x ∈ (scan ParseFileName min_log prev_log names expected).1 <->
  x ∈ expected /\
  forall f t, f ∈ names -> ParseFileName f <> Some (x, t).
Proof.
  induction names as [|f r IH]; intros expected x; cbn [scan].
  - cbn. split; [|tauto]. intros H. split; [exact H|].
    intros f t Hf. inversion Hf.
  - destruct (ParseFileName f) as [[n t]|] eqn:Ep.
    + specialize (IH (erase n expected) x).
      destruct (scan ParseFileName min_log prev_log r (erase n expected))
        as [e logs]. cbn [fst] in *.
      rewrite IH, elem_of_erase. split.
      * intros [[Hx Hne] Hr]. split; [exact Hx|].
        intros f0 t0 Hin. apply elem_of_cons in Hin as [-> | Hin];
          [rewrite Ep; congruence | now apply Hr].
      * intros [Hx Hall]. split; [split; [exact Hx|]|].
        -- intros ->. apply (Hall f t); [apply list_elem_of_here | exact Ep].
        -- intros f0 t0 Hin. apply Hall. now apply list_elem_of_further.
    + rewrite IH. split.
      * intros [Hx Hr]. split; [exact Hx|].
        intros f0 t0 Hin. apply elem_of_cons in Hin as [-> | Hin];
          [rewrite Ep; discriminate | now apply Hr].
      * intros [Hx Hall]. split; [exact Hx|].
        intros f0 t0 Hin. apply Hall. now apply list_elem_of_further.
Qed.

Lemma replayed_replay log last n calls :
  replayed (RecoverLogFile log last :: MarkFileNumberUsed n :: calls)
  = log :: replayed calls.
Proof. reflexivity. Qed.

Lemma replayed_app a b : replayed (a ++ b) = (replayed a ++ replayed b)%list.
Proof. apply omap_app. Qed.

Lemma replay_spec env logs : forall m,
  let '(s, m1, calls) := replay env logs m in
  (exists rest, logs = (replayed calls ++ rest)%list) /\
  (forall c, c ∈ calls ->
     exists log last, c = RecoverLogFile log last \/ c = MarkFileNumberUsed log) /\
  (ok s = true ->
   replayed calls = logs /\ s = OK /\ m1 = max_sequence_after env logs m /\
   forall i log, logs !! i = Some log ->
     ok (recover_log_file env log
           (bool_decide (S i = length logs))).1 = true /\
     MarkFileNumberUsed log ∈ calls /\
     RecoverLogFile log (bool_decide (S i = length logs)) ∈ calls) /\
  (ok s = false ->
   exists done log rest,
     logs = (done ++ log :: rest)%list /\
     replayed calls = (done ++ [log])%list /\
     s = (recover_log_file env log (bool_decide (rest = []))).1 /\
     (forall i l, done !! i = Some l ->
        ok (recover_log_file env l
              (bool_decide (S i = length logs))).1 = true)).
Proof.
  induction logs as [|log r IH]; intros m; cbn [replay].
  - split; [exists []; reflexivity|].
    split; [intros c Hc; inversion Hc|].
    split; [|discriminate].
    intros _. do 3 (split; [reflexivity|]). intros i log Hi. discriminate.
  - assert (Hlast : forall i, bool_decide (S (S i) = length (log :: r))
                              = bool_decide (S i = length r)).
    { intros i. cbn [length]. apply bool_decide_ext. lia. }
    assert (Hfirst : bool_decide (1%nat = length (log :: r))
                     = bool_decide (r = [])).
    { cbn [length]. apply bool_decide_ext. destruct r; cbn; split;
        try discriminate; try reflexivity; lia. }
    destruct (recover_log_file env log (bool_decide (r = [])))
      as [s seen] eqn:Es.
    destruct (ok s) eqn:Eok; cbn [negb].
    + specialize (IH (Z.max m seen)).
      destruct (replay env r (Z.max m seen)) as [[s1 m1] calls].
      destruct IH as ((rest & Hrest) & Hcalls & Hok & Hfail).
      split; [exists rest; rewrite replayed_replay; cbn; now rewrite <- Hrest|].
      split.
      { intros c Hc. apply elem_of_cons in Hc as [-> | Hc];
          [exists log, (bool_decide (r = [])); now left|].
        apply elem_of_cons in Hc as [-> | Hc];
          [exists log, true; now right | auto]. }
      split.
      * intros H1. destruct (Hok H1) as (H2 & H3 & H4 & H5).
        split; [rewrite replayed_replay; now rewrite H2|]. split; [exact H3|].
        split; [cbn [max_sequence_after]; now rewrite Es|].
        intros [|i] l Hi; cbn in Hi.
        -- injection Hi as <-. rewrite Hfirst, Es. split; [exact Eok|].
           split; [apply list_elem_of_further, list_elem_of_here|].
           apply list_elem_of_here.
        -- rewrite Hlast. destruct (H5 i l Hi) as (H6 & H7 & H8).
           split; [exact H6|].
           split; now do 2 apply list_elem_of_further.
      * intros H1. destruct (Hfail H1) as (done & l & rest' & H2 & H3 & H4 & H5).
        exists (log :: done), l, rest'.
        split; [cbn; now rewrite H2|]. split; [rewrite replayed_replay; cbn; now rewrite H3|].
        split; [exact H4|].
        intros [|i] l0 Hi; cbn in Hi.
        -- injection Hi as <-. rewrite Hfirst, Es. exact Eok.
        -- rewrite Hlast. exact (H5 i l0 Hi).
    + split; [exists r; reflexivity|].
      split.
      { intros c Hc. apply list_elem_of_singleton in Hc as ->.
        exists log, (bool_decide (r = [])). now left. }
      split; [congruence|].
      intros _. exists [], log, r.
      split; [reflexivity|]. split; [reflexivity|].
      split; [now rewrite Es|]. intros i l Hi. discriminate.
Qed.

Lemma present_or_missing env :
  (forall x, x ∈ live_files env ->
     exists f t, f ∈ (get_children env).2 /\ ParseFileName f = Some (x, t)) \/
  exists x, missing_file ParseFileName env x.
Proof.
  unfold missing_file. generalize (get_children env).2 as names.
  intros names. induction (live_files env) as [|x l IH].
  - left. intros x Hx. inversion Hx.
  - assert (Hx : (exists f t, f ∈ names /\ ParseFileName f = Some (x, t)) \/
                 forall f t, f ∈ names -> ParseFileName f <> Some (x, t)).
    { clear. induction names as [|f r IH].
      - right. intros f t Hf. inversion Hf.
      - destruct IH as [(f0 & t & Hin & Hp) | IH].
        + left. exists f0, t. split; [now apply list_elem_of_further | exact Hp].
        + destruct (ParseFileName f) as [[n t]|] eqn:Ep.
          * destruct (Z.eq_dec n x) as [-> | Hne].
            -- left. exists f, t. split; [apply list_elem_of_here | exact Ep].
            -- right. intros f0 t0 Hin.
               apply elem_of_cons in Hin as [-> | Hin];
                 [rewrite Ep; congruence | now apply IH].
          * right. intros f0 t0 Hin.
            apply elem_of_cons in Hin as [-> | Hin];
              [rewrite Ep; discriminate | now apply IH]. }
    destruct Hx as [Hx | Hx].
    + destruct IH as [IH | (y & Hy & Hm)].
      * left. intros y Hy. apply elem_of_cons in Hy as [-> | Hy]; auto.
      * right. exists y. split; [now apply list_elem_of_further | exact Hm].
    + right. exists x. split; [apply list_elem_of_here | exact Hx].
Qed.

Lemma expected_empty env :
  (scan ParseFileName (LogNumber env) (PrevLogNumber env) (get_children env).2
     (to_set (live_files env))).1 = [] <->
  forall x, x ∈ live_files env ->
    exists f t, f ∈ (get_children env).2 /\ ParseFileName f = Some (x, t).
Proof.
  split.
  - intros He. destruct (present_or_missing env) as [H | (x & Hx & Hm)];
      [exact H|].
    assert (Hin : x ∈ (scan ParseFileName (LogNumber env) (PrevLogNumber env)
                         (get_children env).2 (to_set (live_files env))).1).
    { apply scan_expected. split; [now apply elem_of_to_set | exact Hm]. }
    rewrite He in Hin. inversion Hin.
  - intros H.
    destruct (scan ParseFileName (LogNumber env) (PrevLogNumber env)
                (get_children env).2 (to_set (live_files env))).1
      as [|x e] eqn:Ee; [reflexivity|].
    assert (Hin : x ∈ (scan ParseFileName (LogNumber env) (PrevLogNumber env)
                         (get_children env).2 (to_set (live_files env))).1)
      by (rewrite Ee; apply list_elem_of_here).
    apply scan_expected in Hin as [Hx Hm].
    rewrite elem_of_to_set in Hx. destruct (H x Hx) as (f & t & Hf & Hp).
    now destruct (Hm f t Hf).
Qed.

Ltac no_replay H :=
  unfold replayed in *; cbn; rewrite ?omap_app; cbn; rewrite ?H; reflexivity.

Lemma Recover_shape NDEBUG options_ name db_lock_ env dbname_ s calls :
  Recover ParseFileName LockFileName DescriptorFileName TableFileName
    message decimal NDEBUG options_ name db_lock_ env dbname_
    = Val (s, calls) ->
  (ok s = false /\ replayed calls = []) \/
  (ok (lock_file env) = true /\
   (if current_exists env then Sanitize.error_if_exists options_ = false
    else Sanitize.create_if_missing options_ = true /\
         ok (Files.NewDB DescriptorFileName (new_db env) dbname_ name).1
           = true) /\
   ok (versions_recover env) = true /\ ok (get_children env).1 = true /\
   (scan ParseFileName (LogNumber env) (PrevLogNumber env)
      (get_children env).2 (to_set (live_files env))).1 = [] /\
   exists front s4 m1 c4,
     replay env (logs_to_replay ParseFileName env) 0 = (s4, m1, c4) /\
     replayed front = [] /\ no_sequence_set front /\
     ((ok s4 = false /\ s = s4 /\ calls = (front ++ c4)%list) \/
      (ok s4 = true /\ s = OK /\
       calls = (front ++ c4 ++
                if LastSequence env <? m1 then [SetLastSequence m1]
                else [])%list))).
Proof.
  unfold Recover, assert_, bind, logs_to_replay.
  destruct (NDEBUG || negb db_lock_); [|discriminate].
  destruct (ok (lock_file env)) eqn:El; cbn [negb];
    [|intros [= <- <-]; left; split; [exact El | reflexivity]].
  set (gate := if negb (current_exists env) then _ else _).
  assert (Hgate : replayed gate.2 = [] /\ no_sequence_set gate.2 /\
            (ok gate.1 = true ->
             if current_exists env
             then Sanitize.error_if_exists options_ = false
             else Sanitize.create_if_missing options_ = true /\
                  ok (Files.NewDB DescriptorFileName (new_db env) dbname_
                        name).1 = true)).
  { subst gate. unfold no_sequence_set.
    destruct (current_exists env); cbn [negb].
    - destruct (Sanitize.error_if_exists options_); cbn;
        (split; [reflexivity|]; split; [intros x Hx; inversion Hx|]);
        [discriminate | reflexivity].
    - destruct (Sanitize.create_if_missing options_); cbn.
      + destruct (Files.NewDB _ _ _ _) as [sn cn]. cbn.
        split; [reflexivity|]. split; [|auto].
        intros x Hx. apply list_elem_of_singleton in Hx. discriminate.
      + split; [reflexivity|]. split; [intros x Hx; inversion Hx|].
        discriminate. }
  destruct gate as [s1 c1]. cbn [fst snd] in Hgate.
  destruct Hgate as (Hc1 & Hn1 & Hg).
  destruct (ok s1) eqn:Es; cbn [negb];
    [|intros [= <- <-]; left; split; [exact Es|];
      no_replay Hc1].
  specialize (Hg eq_refl).
  destruct (ok (versions_recover env)) eqn:Ev; cbn [negb];
    [|intros [= <- <-]; left; split; [exact Ev|];
      no_replay Hc1].
  destruct (get_children env) as [sc filenames] eqn:Eg. cbn [fst snd].
  destruct (ok sc) eqn:Ec; cbn [negb];
    [|intros [= <- <-]; left; split; [exact Ec|];
      no_replay Hc1].
  destruct (scan ParseFileName (LogNumber env) (PrevLogNumber env) filenames
              (to_set (live_files env))) as [expected logs]. cbn [fst snd].
  destruct expected as [|missing e];
    [|intros [= <- <-]; left; split; [reflexivity|];
      no_replay Hc1].
  destruct (replay env (sort logs) 0) as [[s4 m1] c4] eqn:Er.
  set (front := (([CreateDir dbname_; LockFile (LockFileName dbname_)] ++
                   c1 ++ [VersionSet_Recover]) ++ [GetChildren dbname_])%list).
  assert (Hf1 : replayed front = []) by (subst front; no_replay Hc1).
  assert (Hf2 : no_sequence_set front).
  { intros x Hx. subst front. rewrite !elem_of_app, !elem_of_cons in Hx.
    destruct Hx as [[[Hx | [Hx | Hx]] | [Hx | [Hx | Hx]]] | [Hx | Hx]];
      try discriminate; try (now inversion Hx).
    now apply (Hn1 x). }
  intros H. right.
  split; [reflexivity|]. split; [exact Hg|]. split; [reflexivity|].
  split; [reflexivity|]. split; [reflexivity|].
  exists front, s4, m1, c4.
  split; [reflexivity|]. split; [exact Hf1|]. split; [exact Hf2|].
  destruct (ok s4) eqn:E4; cbn [negb] in H; injection H as <- <-.
  - right. split; [reflexivity|]. split; reflexivity.
  - left. split; [reflexivity|]. split; reflexivity.
Qed.

(** What [Recover] refuses.  When the lock cannot be taken it returns
    the lock's status.  A database that is missing is not created
    unless [create_if_missing] is set, and one that exists is refused
    when [error_if_exists] is set: InvalidArgument, with nothing
    created, read or replayed.  And whenever a live file of the
    recovered version has no trace in the directory, [Recover] fails
    without replaying a single log. *)
Theorem Recover_refuses NDEBUG options_ name db_lock_ env dbname_ :
  NDEBUG = true \/ db_lock_ = false ->
  let run :=
    Recover ParseFileName LockFileName DescriptorFileName TableFileName
      message decimal NDEBUG options_ name db_lock_ env dbname_ in
  let locked := [CreateDir dbname_; LockFile (LockFileName dbname_)] in
  (ok (lock_file env) = false -> run = Val (lock_file env, locked)) /\
  (ok (lock_file env) = true -> current_exists env = false ->
   Sanitize.create_if_missing options_ = false ->
   run = Val (InvalidArgument
                (message dbname_
                   "does not exist (create_if_missing is false)"),
              locked)) /\
  (ok (lock_file env) = true -> current_exists env = true ->
   Sanitize.error_if_exists options_ = true ->
   run = Val (InvalidArgument
                (message dbname_ "exists (error_if_exists is true)"),
              locked)) /\
  (forall x, missing_file ParseFileName env x ->
   exists s calls,
     run = Val (s, calls) /\ ok s = false /\ replayed calls = []).
Proof.
  intros Hnd. cbv zeta.
  assert (Ha : NDEBUG || negb db_lock_ = true).
  { destruct Hnd as [-> | ->]; [reflexivity | apply orb_true_r]. }
  unfold Recover, assert_, bind. rewrite Ha.
  split; [intros ->; reflexivity|].
  split; [intros -> -> ->; reflexivity|].
  split; [intros -> -> ->; reflexivity|].
  intros x Hx.
  assert (He : (scan ParseFileName (LogNumber env) (PrevLogNumber env)
                  (get_children env).2 (to_set (live_files env))).1 <> []).
  { intros He. destruct Hx as [Hx Hm].
    destruct (proj1 (expected_empty env) He x Hx) as (f & t & Hf & Hp).
    now destruct (Hm f t Hf). }
  destruct (ok (lock_file env)) eqn:El; cbn [negb];
    [|eexists _, _; split; [reflexivity|]; split; [exact El | reflexivity]].
  set (gate := if negb (current_exists env) then _ else _).
  assert (Hgate : replayed gate.2 = [] /\
                  (ok gate.1 = true -> True)).
  { subst gate. destruct (current_exists env); cbn [negb].
    - destruct (Sanitize.error_if_exists options_); split; auto.
    - destruct (Sanitize.create_if_missing options_); [|split; auto].
      destruct (Files.NewDB _ _ _ _); split; auto. }
  destruct gate as [s c1]. cbn [fst snd] in Hgate. destruct Hgate as [Hc1 _].
  destruct (ok s) eqn:Es; cbn [negb];
    [|eexists _, _; split; [reflexivity|]; split; [exact Es|];
      rewrite replayed_app, Hc1; reflexivity].
  destruct (ok (versions_recover env)) eqn:Ev; cbn [negb];
    [|eexists _, _; split; [reflexivity|]; split; [exact Ev|];
      rewrite !replayed_app, Hc1; reflexivity].
  destruct (get_children env) as [sc filenames] eqn:Eg. cbn [snd] in He.
  destruct (ok sc) eqn:Ec; cbn [negb];
    [|eexists _, _; split; [reflexivity|]; split; [exact Ec|];
      rewrite !replayed_app, Hc1; reflexivity].
  destruct (scan ParseFileName (LogNumber env) (PrevLogNumber env) filenames
              (to_set (live_files env))) as [expected logs].
  cbn [fst] in He. destruct expected as [|missing e]; [congruence|].
  eexists _, _. split; [reflexivity|]. split; [reflexivity|].
  rewrite !replayed_app, Hc1. reflexivity.
Qed.

(** When [Recover] returns OK: the lock was taken; the database existed
    (and [error_if_exists] was off) or has just been created by a
    successful [NewDB] (and [create_if_missing] was on); the VersionSet
    was recovered and the directory listed; every live file of the
    recovered version has a file of its number in the directory; the
    logs replayed are exactly the log files numbered at least
    [LogNumber] or equal to [PrevLogNumber], in ascending order, each
    replayed successfully and then marked used, the last one with the
    [last_log] flag; and the last sequence is raised to the largest one
    met in the logs exactly when that is larger. *)
Theorem Recover_OK NDEBUG options_ name db_lock_ env dbname_ calls :
  Recover ParseFileName LockFileName DescriptorFileName TableFileName
    message decimal NDEBUG options_ name db_lock_ env dbname_
    = Val (OK, calls) ->
  let logs := logs_to_replay ParseFileName env in
  ok (lock_file env) = true /\
  (if current_exists env then Sanitize.error_if_exists options_ = false
   else Sanitize.create_if_missing options_ = true /\
        ok (Files.NewDB DescriptorFileName (new_db env) dbname_ name).1
          = true) /\
  ok (versions_recover env) = true /\ ok (get_children env).1 = true /\
  (forall x, x ∈ live_files env ->
     exists f t, f ∈ (get_children env).2 /\ ParseFileName f = Some (x, t)) /\
  replayed calls = logs /\
  (forall i log, logs !! i = Some log ->
     RecoverLogFile log (bool_decide (S i = length logs)) ∈ calls /\
     ok (recover_log_file env log (bool_decide (S i = length logs))).1 = true /\
     MarkFileNumberUsed log ∈ calls) /\
  (forall x, SetLastSequence x ∈ calls <->
     LastSequence env < x /\ x = max_sequence_after env logs 0).
Proof.
  intros H. cbv zeta.
  destruct (Recover_shape _ _ _ _ _ _ _ _ H) as [[Hs _] | Hshape];
    [discriminate|].
  destruct Hshape as (Hl & Hg & Hv & Hc & He & front & s4 & m1 & c4 &
                      Hr & Hf1 & Hf2 & Hcase).
  split; [exact Hl|]. split; [exact Hg|]. split; [exact Hv|].
  split; [exact Hc|]. split; [now apply expected_empty|].
  pose proof (replay_spec env (logs_to_replay ParseFileName env) 0) as Hspec.
  rewrite Hr in Hspec. destruct Hspec as (_ & Hcalls & Hok & _).
  destruct Hcase as [(E4 & <- & _) | (E4 & _ & ->)]; [discriminate|].
  destruct (Hok E4) as (Hrep & _ & Hm & Hlogs).
  assert (Htail : replayed (if LastSequence env <? m1
                            then [SetLastSequence m1] else []) = [])
    by (destruct (LastSequence env <? m1); reflexivity).
  split.
  { rewrite !replayed_app, Hf1, Hrep, Htail. cbn. apply app_nil_r. }
  split.
  { intros i log Hi. destruct (Hlogs i log Hi) as (H1 & H2 & H3).
    split; [|split; [exact H1|]];
      apply elem_of_app; right; apply elem_of_app; now left. }
  intros x. rewrite !elem_of_app. split.
  - intros [Hx | [Hx | Hx]].
    + now destruct (Hf2 x).
    + destruct (Hcalls _ Hx) as (log & last & [Hc4 | Hc4]); discriminate.
    + destruct (Z.ltb_spec (LastSequence env) m1) as [Hlt | Hge];
        [|inversion Hx].
      apply list_elem_of_singleton in Hx. injection Hx as ->.
      split; [exact Hlt | exact Hm].
  - intros [Hlt ->]. right. right. rewrite <- Hm.
    rewrite (proj2 (Z.ltb_lt _ _)) by (rewrite Hm; exact Hlt).
    apply list_elem_of_here.
Qed.

(** Whatever [Recover] returns, it replays logs in the order in which
    they were generated: the logs to replay are the log files of the
    directory numbered at least [LogNumber] or equal to
    [PrevLogNumber], in ascending order, and the logs replayed are a
    prefix of them.  A log is replayed only after the lock was taken,
    the VersionSet recovered, the directory listed and every live file
    found.  When a replay fails, the logs before it were replayed
    successfully, no later log is touched, and the failure is what
    [Recover] returns. *)
Theorem Recover_replays_in_order NDEBUG options_ name db_lock_ env dbname_
    s calls :
  Recover ParseFileName LockFileName DescriptorFileName TableFileName
    message decimal NDEBUG options_ name db_lock_ env dbname_
    = Val (s, calls) ->
  let logs := logs_to_replay ParseFileName env in
  increasing logs = true /\
  (forall log, log ∈ logs <->
     exists f, f ∈ (get_children env).2 /\
       ParseFileName f = Some (log, Files.kLogFile) /\
       (LogNumber env <= log \/ log = PrevLogNumber env)) /\
  (exists rest, logs = (replayed calls ++ rest)%list) /\
  (replayed calls <> [] ->
   ok (lock_file env) = true /\ ok (versions_recover env) = true /\
   ok (get_children env).1 = true /\
   forall x, x ∈ live_files env ->
     exists f t, f ∈ (get_children env).2 /\ ParseFileName f = Some (x, t)) /\
  (ok s = false -> replayed calls <> [] ->
   exists done log rest,
     logs = (done ++ log :: rest)%list /\
     replayed calls = (done ++ [log])%list /\
     s = (recover_log_file env log (bool_decide (rest = []))).1 /\
     forall i l, done !! i = Some l ->
       ok (recover_log_file env l (bool_decide (S i = length logs))).1 = true).
Proof.
  intros H. cbv zeta.
  split; [apply sort_increasing|].
  split.
  { intros log. unfold logs_to_replay. rewrite elem_of_sort. apply scan_logs. }
  destruct (Recover_shape _ _ _ _ _ _ _ _ H) as [[Hs Hr] | Hshape].
  { rewrite Hr. split; [eexists; reflexivity|]. split; congruence. }
  destruct Hshape as (Hl & Hg & Hv & Hc & He & front & s4 & m1 & c4 &
                      Hr & Hf1 & Hf2 & Hcase).
  pose proof (replay_spec env (logs_to_replay ParseFileName env) 0) as Hspec.
  rewrite Hr in Hspec. destruct Hspec as (Hpre & _ & _ & Hfail).
  assert (Hrep : replayed calls = replayed c4).
  { destruct Hcase as [(_ & _ & ->) | (_ & _ & ->)];
      rewrite !replayed_app, Hf1; cbn; [reflexivity|].
    destruct (LastSequence env <? m1); cbn; apply app_nil_r. }
  rewrite Hrep.
  split; [exact Hpre|].
  split.
  { intros _. split; [exact Hl|]. split; [exact Hv|]. split; [exact Hc|].
    now apply expected_empty. }
  intros Hs _.
  destruct Hcase as [(E4 & -> & _) | (_ & -> & _)]; [|discriminate].
  exact (Hfail E4).
Qed.

End RecoverFacts.

Section RecoverExamplesFacts.
Import Int Recovery RecoveryExamples.

Lemma Recover_refuses_witness :
  exists s calls,
    run [5; 9] OK = Val (s, calls) /\ ok s = false /\ replayed calls = [].
Proof.
  refine (proj2 (proj2 (proj2
    (Recover_refuses FilesExamples.parse lock_name descriptor_name table_name
       joined digits false Sanitize.default_options
       "leveldb.BytewiseComparator" false (recovery [5; 9] OK) "db" _))) 9 _).
  - right. reflexivity.
  - split; [vm_compute; repeat constructor|].
    intros f t Hf. vm_compute in Hf.
    repeat (apply elem_of_cons in Hf as [-> | Hf]; [vm_compute; discriminate|]).
    inversion Hf.
Defined.

Lemma Recover_OK_witness :
  replayed [CreateDir "db"; LockFile "db/LOCK"; VersionSet_Recover;
            GetChildren "db"; RecoverLogFile 3 true; MarkFileNumberUsed 3;
            SetLastSequence 12] = [3] /\
  ok (recover_log_file (recovery [5; 7] OK) 3 true).1 = true.
Proof.
  destruct (Recover_OK FilesExamples.parse lock_name descriptor_name
              table_name joined digits false Sanitize.default_options
              "leveldb.BytewiseComparator" false (recovery [5; 7] OK) "db"
              [CreateDir "db"; LockFile "db/LOCK"; VersionSet_Recover;
               GetChildren "db"; RecoverLogFile 3 true; MarkFileNumberUsed 3;
               SetLastSequence 12])
    as (_ & _ & _ & _ & _ & Hrep & Hlogs & _).
  - vm_compute. reflexivity.
  - split; [reflexivity|].
    destruct (Hlogs 0%nat 3) as (_ & H & _); [vm_compute; reflexivity|].
    exact H.
Defined.

Lemma Recover_replays_in_order_witness :
  exists done log rest,
    logs_to_replay FilesExamples.parse (recovery [5; 7] (IOError "log"))
      = (done ++ log :: rest)%list /\
    replayed [CreateDir "db"; LockFile "db/LOCK"; VersionSet_Recover;
              GetChildren "db"; RecoverLogFile 3 true]
      = (done ++ [log])%list /\
    IOError "log"
      = (recover_log_file (recovery [5; 7] (IOError "log")) log
           (bool_decide (rest = []))).1.
Proof.
  destruct (Recover_replays_in_order FilesExamples.parse lock_name
              descriptor_name table_name joined digits false
              Sanitize.default_options "leveldb.BytewiseComparator" false
              (recovery [5; 7] (IOError "log")) "db" (IOError "log")
              [CreateDir "db"; LockFile "db/LOCK"; VersionSet_Recover;
               GetChildren "db"; RecoverLogFile 3 true])
    as (_ & _ & _ & _ & Hfail).
  - vm_compute. reflexivity.
  - destruct Hfail as (done & log & rest & H1 & H2 & H3 & _);
      [reflexivity | vm_compute; discriminate |].
    exists done, log, rest. split; [exact H1|]. split; [exact H2 | exact H3].
Defined.

End RecoverExamplesFacts.

(** ** The end of a table *)

Section DestroyTableFacts.
Import Int Edit Destroy.

Lemma deleted_app a b : deleted (a ++ b) = (deleted a ++ deleted b)%list.
Proof. apply omap_app. Qed.

Lemma freed_app sf a b : freed sf (a ++ b) = (freed sf a ++ freed sf b)%list.
Proof. apply omap_app. Qed.

Lemma deleted_delete_each map : deleted (delete_each map) = map.*2.
Proof. induction map as [|it r IH]; cbn; [reflexivity|]. now rewrite <- IH. Qed.

Lemma Remote_blocks_deallocate_all slot_freed map :
  (forall it, it ∈ map -> slot_freed it.2 = true) ->
  exists calls,
    Remote_blocks_deallocate slot_freed map = (true, calls) /\
    deleted calls = map.*2 /\ freed slot_freed calls = map.*2.
Proof.
  induction map as [|it r IH]; intros H.
  - exists []. repeat split.
  - cbn [Remote_blocks_deallocate].
    rewrite (H it (list_elem_of_here _ _)). cbn [negb].
    destruct IH as (calls & -> & Hd & Hf).
    { intros x Hx. apply H. now apply list_elem_of_further. }
    eexists. split; [reflexivity|]. unfold deleted, freed in *. cbn.
    rewrite (H it (list_elem_of_here _ _)), Hd, Hf. split; reflexivity.
Qed.

Lemma Remote_blocks_deallocate_app slot_freed m1 m2 :
  Remote_blocks_deallocate slot_freed (m1 ++ m2)
  = let '(b1, c1) := Remote_blocks_deallocate slot_freed m1 in
    if b1 then
      let '(b2, c2) := Remote_blocks_deallocate slot_freed m2 in
      (b2, (c1 ++ c2)%list)
    else (false, c1).
Proof.
  induction m1 as [|x r IH]; cbn [app Remote_blocks_deallocate].
  - now destruct (Remote_blocks_deallocate slot_freed m2).
  - destruct (slot_freed x.2); cbn [negb]; [|reflexivity].
    rewrite IH.
    destruct (Remote_blocks_deallocate slot_freed r) as [[] c1];
      [|reflexivity].
    now destruct (Remote_blocks_deallocate slot_freed m2).
Qed.

Lemma Remote_blocks_deallocate_first_failure slot_freed addr behind :
  forall before map,
  map.*2 = (before ++ addr :: behind)%list ->
  (forall a, a ∈ before -> slot_freed a = true) ->
  slot_freed addr = false ->
  exists calls,
    Remote_blocks_deallocate slot_freed map = (false, calls) /\
    deleted calls = before /\ freed slot_freed calls = before /\
    last calls = Some (Deallocate_Remote_RDMA_Slot addr).
Proof.
  induction before as [|a r IH]; intros map Hmap Hall Haddr;
    destruct map as [|x m]; try discriminate Hmap;
    cbn in Hmap; injection Hmap as Hx Hm; cbn [Remote_blocks_deallocate].
  - rewrite Hx, Haddr. cbn [negb]. eexists. split; [reflexivity|].
    unfold deleted, freed. cbn. rewrite Haddr. repeat split.
  - rewrite Hx, (Hall a (list_elem_of_here _ _)). cbn [negb].
    destruct (IH m Hm) as (calls & -> & Hd & Hf & Hl);
      [intros y Hy; apply Hall; now apply list_elem_of_further | exact Haddr |].
    eexists. split; [reflexivity|].
    unfold deleted, freed in *. cbn.
    rewrite (Hall a (list_elem_of_here _ _)), Hd, Hf.
    repeat split. destruct calls; [discriminate Hl | exact Hl].
Qed.

Lemma fill_deleted slot_freed map : forall index,
  0 <= index -> index + Z.of_nat (length map) < 2 ^ 64 ->
  exists calls,
    fill map index = (index + Z.of_nat (length map), calls) /\
    deleted calls = map.*2 /\ freed slot_freed calls = [].
Proof.
  induction map as [|it r IH]; intros index H0 Hlt.
  - exists []. cbn. rewrite Z.add_0_r. repeat split.
  - cbn [fill]. cbn [length] in Hlt. rewrite u64_id by lia.
    destruct (IH (index + 1)) as (calls & -> & Hd & Hf); [lia | lia |].
    eexists. split; [f_equal; cbn [length]; lia|].
    unfold deleted, freed in *. cbn. rewrite Hd, Hf. split; reflexivity.
Qed.

Lemma Prepare_Batch_Deallocate_deleted NDEBUG slot_freed RPC f :
  Z.of_nat (length (chunks f)) < 2 ^ 64 ->
  exists calls,
    Prepare_Batch_Deallocate NDEBUG RPC f = Val (true, calls) /\
    deleted calls = chunks f /\ freed slot_freed calls = [].
Proof.
  unfold chunks. rewrite !length_app, !length_fmap, !Nat2Z.inj_add. intros Hlen.
  unfold Prepare_Batch_Deallocate.
  rewrite (u64_id (Z.of_nat _ + Z.of_nat _)) by lia. rewrite u64_id by lia.
  destruct (fill_deleted slot_freed (remote_data_mrs f) 0)
    as (c1 & -> & D1 & F1); [lia | lia |].
  destruct (fill_deleted slot_freed (remote_dataindex_mrs f)
              (0 + Z.of_nat (length (remote_data_mrs f))))
    as (c2 & -> & D2 & F2); [lia | lia |].
  destruct (fill_deleted slot_freed (remote_filter_mrs f)
              (0 + Z.of_nat (length (remote_data_mrs f))
               + Z.of_nat (length (remote_dataindex_mrs f))))
    as (c3 & -> & D3 & F3); [lia | lia |].
  unfold assert_, bind.
  rewrite (proj2 (Z.eqb_eq _ _)) by lia. rewrite orb_true_r.
  eexists. split; [reflexivity|].
  change (deleted (Remote_Memory_Deallocation_Fetch_Buff ?n :: ?l))
    with (deleted l).
  change (freed slot_freed (Remote_Memory_Deallocation_Fetch_Buff ?n :: ?l))
    with (freed slot_freed l).
  rewrite !deleted_app, !freed_app, D1, D2, D3, F1, F2, F3.
  destruct RPC; cbn; rewrite ?app_nil_r; split; reflexivity.
Qed.

(** The destructor of a table releases each chunk once.  On a memory
    node every [ibv_mr] is deleted and the RDMA manager is not asked
    for anything.  On a compute node that did not create the table the
    chunks are handed to [Prepare_Batch_Deallocate], which deletes every
    [ibv_mr].  On the compute node that created the table, when the
    manager frees every slot, every slot is handed back and every
    [ibv_mr] deleted, in the order data, index, filter; when [addr] is
    the first chunk whose slot cannot be freed, the run stops at
    [assert(false)], and with assertions compiled out the destructor
    returns after it has handed back and deleted exactly the chunks
    before [addr]: the manager is asked for [addr] last, and [addr] and
    the chunks behind it are not deleted. *)
Theorem RemoteMemTableMetaData_dtor_releases NDEBUG node_id slot_freed RPC f :
  Z.of_nat (length (chunks f)) < 2 ^ 64 ->
  NDEBUG = true \/
    (length (remote_dataindex_mrs f) = 1%nat /\
     (creator_node_id f = 0 \/ creator_node_id f = 1)) ->
  let run := RemoteMemTableMetaData_dtor NDEBUG node_id slot_freed RPC f in
  (this_machine_type f = 1 ->
   exists calls, run = Val calls /\
     deleted calls = chunks f /\ calls = delete_mr <$> chunks f) /\
  (this_machine_type f = 0 -> creator_node_id f <> node_id ->
   exists calls, run = Val calls /\
     deleted calls = chunks f /\ freed slot_freed calls = []) /\
  (this_machine_type f = 0 -> creator_node_id f = node_id ->
   (forall addr, addr ∈ chunks f -> slot_freed addr = true) ->
   exists calls, run = Val calls /\
     deleted calls = chunks f /\ freed slot_freed calls = chunks f) /\
  (this_machine_type f = 0 -> creator_node_id f = node_id ->
   forall before addr behind,
   chunks f = (before ++ addr :: behind)%list ->
   (forall a, a ∈ before -> slot_freed a = true) ->
   slot_freed addr = false ->
   if NDEBUG then
     exists calls, run = Val calls /\
       deleted calls = before /\ freed slot_freed calls = before /\
       last calls = Some (Deallocate_Remote_RDMA_Slot addr)
   else run = Fail (AssertionFailure "false")).
Proof.
  intros Hlen Hnd. cbv zeta.
  assert (Hfront : forall k : Result (list Call),
            this_machine_type f = 0 \/ this_machine_type f = 1 ->
            (assert_ NDEBUG (Z.of_nat (length (remote_dataindex_mrs f)) =? 1)
               "remote_dataindex_mrs.size() == 1" ;;;
             assert_ NDEBUG
               ((this_machine_type f =? 0) || (this_machine_type f =? 1))
               "this_machine_type ==0 || this_machine_type == 1" ;;;
             assert_ NDEBUG
               ((creator_node_id f =? 0) || (creator_node_id f =? 1))
               "creator_node_id == 0 || creator_node_id == 1" ;;; k) = k).
  { intros k Ht. unfold assert_.
    destruct Hnd as [-> | [Hi Hc]]; [reflexivity|].
    rewrite Hi.
    assert (E1 : (this_machine_type f =? 0) || (this_machine_type f =? 1)
                 = true) by (destruct Ht as [-> | ->]; reflexivity).
    assert (E2 : (creator_node_id f =? 0) || (creator_node_id f =? 1) = true)
      by (destruct Hc as [-> | ->]; reflexivity).
    rewrite E1, E2. rewrite !orb_true_r. reflexivity. }
  unfold RemoteMemTableMetaData_dtor.
  split; [|split; [|split]].
  - intros Ht. rewrite Hfront by now right. rewrite Ht. cbn [Z.eqb].
    eexists. split; [reflexivity|].
    unfold chunks. rewrite !deleted_app, !deleted_delete_each.
    split; [reflexivity|].
    unfold delete_each. rewrite !fmap_app, <- !list_fmap_compose. reflexivity.
  - intros Ht Hc. rewrite Hfront by now left. rewrite Ht. cbn [Z.eqb].
    rewrite (proj2 (Z.eqb_neq _ _) Hc).
    destruct (Prepare_Batch_Deallocate_deleted NDEBUG slot_freed RPC f Hlen)
      as (calls & -> & Hd & Hf).
    exists calls. cbn. auto.
  - intros Ht Hc Hall. rewrite Hfront by now left. rewrite Ht. cbn [Z.eqb].
    rewrite (proj2 (Z.eqb_eq _ _) Hc).
    unfold chunks in Hall.
    destruct (Remote_blocks_deallocate_all slot_freed (remote_data_mrs f))
      as (c1 & -> & D1 & F1).
    { intros it Hit. apply Hall. rewrite !elem_of_app. left.
      apply list_elem_of_fmap. eauto. }
    destruct (Remote_blocks_deallocate_all slot_freed (remote_dataindex_mrs f))
      as (c2 & -> & D2 & F2).
    { intros it Hit. apply Hall. rewrite !elem_of_app. right. left.
      apply list_elem_of_fmap. eauto. }
    destruct (Remote_blocks_deallocate_all slot_freed (remote_filter_mrs f))
      as (c3 & -> & D3 & F3).
    { intros it Hit. apply Hall. rewrite !elem_of_app. right. right.
      apply list_elem_of_fmap. eauto. }
    eexists. split; [reflexivity|].
    unfold chunks. rewrite !deleted_app, !freed_app, D1, D2, D3, F1, F2, F3.
    split; reflexivity.
  - intros Ht Hc before addr behind Hsplit Hbefore Haddr.
    rewrite Hfront by now left. rewrite Ht.
    cbn [Z.eqb]. rewrite (proj2 (Z.eqb_eq _ _) Hc).
    destruct (Remote_blocks_deallocate_first_failure slot_freed addr behind
                before
                (remote_data_mrs f ++ remote_dataindex_mrs f
                 ++ remote_filter_mrs f)%list)
      as (calls & Hrun & Hd & Hf & Hl);
      [rewrite !fmap_app; exact Hsplit | exact Hbefore | exact Haddr |].
    rewrite !Remote_blocks_deallocate_app in Hrun.
    destruct (Remote_blocks_deallocate slot_freed (remote_data_mrs f))
      as [b1 c1].
    destruct (Remote_blocks_deallocate slot_freed (remote_dataindex_mrs f))
      as [b2 c2].
    destruct (Remote_blocks_deallocate slot_freed (remote_filter_mrs f))
      as [b3 c3].
    unfold assert_, bind.
    destruct b1; [destruct b2; [destruct b3|]|]; cbn in Hrun;
      try discriminate Hrun; injection Hrun as <-;
      destruct NDEBUG; cbn; try reflexivity; eauto.
Qed.

Lemma RemoteMemTableMetaData_dtor_releases_witness :
  let f := {| this_machine_type := 0; creator_node_id := 0;
              number := 5; file_size := 4096;
              remote_data_mrs := [(0, 4096); (8, 8192)];
              remote_dataindex_mrs := [(0, 12288)];
              remote_filter_mrs := [(0, 16384)] |} in
  RemoteMemTableMetaData_dtor false 0 (fun addr => negb (addr =? 12288)) true f
    = Fail (AssertionFailure "false").
Proof.
  intros f.
  destruct (RemoteMemTableMetaData_dtor_releases false 0
              (fun addr => negb (addr =? 12288)) true f)
    as (_ & _ & _ & H).
  - vm_compute. reflexivity.
  - right. split; [reflexivity | now left].
  - apply (H eq_refl eq_refl [4096; 8192] 12288 [16384]);
      [reflexivity | | reflexivity].
    intros a Ha. apply elem_of_cons in Ha as [-> | Ha]; [reflexivity|].
    apply list_elem_of_singleton in Ha as ->. reflexivity.
Defined.

End DestroyTableFacts.

(** ** Replaying a log *)

Section LogRecoveryFacts.
Import Int LogRecovery.

Lemma inserted_app a b : inserted (a ++ b) = (inserted a ++ inserted b)%list.
Proof. apply omap_app. Qed.

Lemma flushed_app a b : flushed (a ++ b) = (flushed a ++ flushed b)%list.
Proof. unfold flushed. now rewrite omap_app, concat_app. Qed.

Lemma wrote_app a b : wrote (a ++ b) = wrote a || wrote b.
Proof. apply existsb_app. Qed.

Lemma reported_not_ok paranoid s reports :
  ok s = false -> foldl (Corruption_reported paranoid) s reports = s.
Proof.
  intros Hs. induction reports as [|r l IH]; cbn; [reflexivity|].
  unfold Corruption_reported at 2. rewrite Hs, andb_false_r. exact IH.
Qed.

Lemma reported_ignored s reports :
  foldl (Corruption_reported false) s reports = s.
Proof. induction reports as [|r l IH]; cbn; [reflexivity | exact IH]. Qed.

Lemma read_records_consistent paranoid wbs env sm0 rs : forall i l,
  consistent sm0 l -> consistent sm0 (read_records paranoid wbs env rs i l).
Proof.
  induction rs as [|r rest IH]; intros i l Hl; cbn [read_records].
  - exact Hl.
  - destruct (ok (foldl _ (status l) (reports r))); cbn [negb]; [|exact Hl].
    destruct (record_size r <? 12); [apply IH; exact Hl|].
    destruct Hl as (H1 & H2 & H3 & H4).
    destruct (ok (MaybeIgnoreError paranoid (insert_status r))); cbn [negb].
    + destruct (usage r >? wbs).
      * assert (Hc : consistent sm0
                  {| status := write_level0 env (default [] (mem l) ++ [i]);
                     mem := None; compactions := compactions l + 1;
                     save_manifest := true;
                     max_sequence :=
                       if u64 (u64 (batch_sequence r + batch_count r) - 1)
                          >? max_sequence l
                       then u64 (u64 (batch_sequence r + batch_count r) - 1)
                       else max_sequence l;
                     calls := calls l ++
                       [InsertInto i;
                        WriteLevel0Table (default [] (mem l) ++ [i])] |}).
        { unfold consistent. cbn [calls mem compactions save_manifest].
          rewrite inserted_app, flushed_app, wrote_app, H1. cbn.
          rewrite !app_nil_r, orb_true_r, <- app_assoc.
          split; [reflexivity|]. split; [lia|]. split; [lia|].
          now rewrite orb_true_r. }
        destruct (ok (write_level0 env _)); cbn [negb]; [apply IH|]; exact Hc.
      * apply IH. unfold consistent. cbn [calls mem compactions save_manifest].
        rewrite inserted_app, flushed_app, wrote_app, H1. cbn.
        rewrite !app_nil_r, orb_false_r, <- app_assoc.
        split; [reflexivity|]. split; [lia|]. split; [exact H3 | exact H4].
    + unfold consistent. cbn [calls mem compactions save_manifest].
      rewrite inserted_app, flushed_app, wrote_app, H1. cbn.
      rewrite !app_nil_r, orb_false_r, <- app_assoc.
      split; [reflexivity|]. split; [lia|]. split; [exact H3 | exact H4].
Qed.

Lemma blamed_more env s calls more :
  blamed env s calls -> blamed env s (calls ++ more).
Proof.
  intros [H | (records & Hin & Hs)]; [now left|].
  right. exists records. split; [apply elem_of_app; now left | exact Hs].
Qed.

Lemma read_records_blamed wbs env rs : forall i l,
  blamed env (status l) (calls l) ->
  blamed env (status (read_records false wbs env rs i l))
    (calls (read_records false wbs env rs i l)).
Proof.
  induction rs as [|r rest IH]; intros i l Hl; cbn [read_records].
  - cbn. now rewrite reported_ignored.
  - rewrite reported_ignored.
    destruct (ok (status l)) eqn:Es; cbn [negb]; [|exact Hl].
    destruct (record_size r <? 12); [apply IH; exact Hl|].
    assert (Hi : ok (MaybeIgnoreError false (insert_status r)) = true).
    { unfold MaybeIgnoreError. rewrite orb_false_r.
      destruct (ok (insert_status r)) eqn:E; [exact E | reflexivity]. }
    rewrite Hi. cbn [negb].
    destruct (usage r >? wbs).
    + assert (Hb : blamed env (write_level0 env (default [] (mem l) ++ [i]))
                     (calls l ++ [InsertInto i;
                                  WriteLevel0Table (default [] (mem l) ++ [i])])).
      { right. eexists. split; [|reflexivity].
        apply elem_of_app. right.
        apply list_elem_of_further, list_elem_of_here. }
      destruct (ok (write_level0 env _)); cbn [negb]; [apply IH|]; exact Hb.
    + apply IH. cbn. now left.
Qed.

Lemma read_records_all paranoid wbs env rs : forall i l,
  ok (status (read_records paranoid wbs env rs i l)) = true ->
  inserted (calls (read_records paranoid wbs env rs i l))
    = (inserted (calls l) ++ proper i rs)%list.
Proof.
  induction rs as [|r rest IH]; intros i l; cbn [read_records proper].
  - intros _. cbn. now rewrite app_nil_r.
  - destruct (ok (foldl _ (status l) (reports r))) eqn:E1; cbn [negb];
      [|cbn; congruence].
    destruct (record_size r <? 12); [intros H; now rewrite (IH _ _ H)|].
    destruct (ok (MaybeIgnoreError paranoid (insert_status r))) eqn:E2;
      cbn [negb]; [|cbn; congruence].
    destruct (usage r >? wbs).
    + destruct (ok (write_level0 env _)) eqn:E3; cbn [negb];
        [|cbn; congruence].
      intros H. rewrite (IH _ _ H). cbn [calls].
      rewrite inserted_app. cbn. now rewrite <- app_assoc.
    + intros H. rewrite (IH _ _ H). cbn [calls].
      rewrite inserted_app. cbn. now rewrite <- app_assoc.
Qed.

Lemma read_records_max paranoid wbs env rs : forall i l,
  max_sequence l <= max_sequence (read_records paranoid wbs env rs i l).
Proof.
  induction rs as [|r rest IH]; intros i l; cbn [read_records].
  - cbn. lia.
  - set (last_seq := u64 (u64 (batch_sequence r + batch_count r) - 1)).
    assert (Hm : max_sequence l
                 <= (if last_seq >? max_sequence l then last_seq
                     else max_sequence l)).
    { destruct (Z.gtb_spec last_seq (max_sequence l)); lia. }
    repeat match goal with
           | |- context [if ?c then _ else _] =>
               lazymatch c with
               | _ >? max_sequence _ => fail
               | _ => destruct c
               end
           end;
      try (cbn; lia);
      match goal with
      | |- _ <= max_sequence (read_records _ _ _ _ ?j ?x) =>
          transitivity (max_sequence x); [cbn [max_sequence] | apply (IH j x)]
      end; first [exact Hm | lia].
Qed.

Ltac conj :=
  repeat match goal with |- _ /\ _ => split end;
  try reflexivity; try assumption.

Lemma RecoverLogFile_shape NDEBUG options_ ln lg mn env log_number last_log
    sm0 ms0 r :
  ok (open_status env) = true ->
  RecoverLogFile NDEBUG options_ ln lg mn env log_number last_log sm0 ms0
    = Val r ->
  let l :=
    read_records (Sanitize.paranoid_checks options_)
      (Sanitize.write_buffer_size options_) env (reads env) 0
      {| status := open_status env; mem := None; compactions := 0;
         save_manifest := sm0; max_sequence := ms0;
         calls := [NewSequentialFile log_number] |} in
  exists extra flush,
    trace r = (calls l ++ extra ++
               match flush with
               | Some records => [WriteLevel0Table records]
               | None => []
               end)%list /\
    inserted extra = [] /\ flushed extra = [] /\ wrote extra = false /\
    max_sequence_out r = max_sequence l /\
    match flush with
    | Some records =>
        mem l = Some records /\ reused r = None /\ ok (status l) = true /\
        returned r = write_level0 env records /\ save_manifest_out r = true
    | None =>
        returned r = status l /\ save_manifest_out r = save_manifest l /\
        ((reused r = None /\ (mem l = None \/ ok (status l) = false)) \/
         (reused r = Some (default [] (mem l)) /\ ok (status l) = true /\
          Sanitize.reuse_logs options_ = true /\ last_log = true /\
          compactions l = 0))
    end.
Proof.
  intros Ho. unfold RecoverLogFile. rewrite Ho. cbn [negb]. cbv zeta.
  set (l := read_records _ _ env (reads env) 0 _).
  assert (Hplain : forall (extra : list Call) r0,
            inserted extra = [] -> flushed extra = [] -> wrote extra = false ->
            match mem l with
            | Some records =>
                if ok (status l)
                then Val {| returned := write_level0 env records;
                            save_manifest_out := true;
                            max_sequence_out := max_sequence l;
                            reused := None;
                            trace := ((calls l ++ extra)
                                      ++ [WriteLevel0Table records])%list |}
                else Val {| returned := status l;
                            save_manifest_out := save_manifest l;
                            max_sequence_out := max_sequence l;
                            reused := None; trace := (calls l ++ extra)%list |}
            | None => Val {| returned := status l;
                             save_manifest_out := save_manifest l;
                             max_sequence_out := max_sequence l;
                             reused := None; trace := (calls l ++ extra)%list |}
            end = Val r0 ->
            exists extra flush,
              trace r0 = (calls l ++ extra ++
                          match flush with
                          | Some records => [WriteLevel0Table records]
                          | None => []
                          end)%list /\
              inserted extra = [] /\ flushed extra = [] /\
              wrote extra = false /\
              max_sequence_out r0 = max_sequence l /\
              match flush with
              | Some records =>
                  mem l = Some records /\ reused r0 = None /\
                  ok (status l) = true /\
                  returned r0 = write_level0 env records /\
                  save_manifest_out r0 = true
              | None =>
                  returned r0 = status l /\
                  save_manifest_out r0 = save_manifest l /\
                  ((reused r0 = None /\
                    (mem l = None \/ ok (status l) = false)) \/
                   (reused r0 = Some (default [] (mem l)) /\
                    ok (status l) = true /\
                    Sanitize.reuse_logs options_ = true /\ last_log = true /\
                    compactions l = 0))
              end).
  { intros extra r0 H1 H2 H3.
    destruct (mem l) as [records|] eqn:Em.
    - destruct (ok (status l)) eqn:Es; intros [= <-].
      + exists extra, (Some records). cbn. rewrite <- app_assoc. conj.
      + exists extra, None. cbn. rewrite app_nil_r. conj. auto.
    - intros [= <-]. exists extra, None. cbn. rewrite app_nil_r. conj. auto. }
  destruct (ok (status l) && Sanitize.reuse_logs options_ && last_log
            && (compactions l =? 0)) eqn:Ereuse.
  - apply andb_true_iff in Ereuse as [Ereuse E4].
    apply andb_true_iff in Ereuse as [Ereuse E3].
    apply andb_true_iff in Ereuse as [E1 E2].
    apply Z.eqb_eq in E4.
    unfold assert_, bind.
    destruct (NDEBUG || ln); [|discriminate].
    destruct (NDEBUG || lg); [|discriminate].
    destruct (NDEBUG || mn); [|discriminate].
    destruct (get_file_size_ok env).
    + destruct (new_appendable_file_ok env).
      * cbn [mem status calls save_manifest max_sequence].
        intros [= <-]. exists [GetFileSize; NewAppendableFile], None.
        cbn. conj. right. conj.
      * cbn [mem status calls save_manifest max_sequence].
        apply (Hplain [GetFileSize; NewAppendableFile]); reflexivity.
    + cbn [mem status calls save_manifest max_sequence].
      apply (Hplain [GetFileSize]); reflexivity.
  - unfold bind. intros H. apply (Hplain [] r); try reflexivity.
    rewrite !app_nil_r. exact H.
Qed.

(** With [paranoid_checks] off, damage in a log does not fail the
    recovery: whatever the reader reports, however small a record and
    whatever [InsertInto] answers, [RecoverLogFile] returns OK, or else
    the status with which a [WriteLevel0Table] it called has failed.
    A log that cannot even be opened is skipped: the answer is OK and
    nothing is read or changed. *)
Theorem RecoverLogFile_ignores_errors NDEBUG options_ ln lg mn env log_number
    last_log sm0 ms0 r :
  Sanitize.paranoid_checks options_ = false ->
  RecoverLogFile NDEBUG options_ ln lg mn env log_number last_log sm0 ms0
    = Val r ->
  blamed env (returned r) (trace r) /\
  (ok (open_status env) = false ->
   returned r = OK /\ trace r = [NewSequentialFile log_number] /\
   save_manifest_out r = sm0 /\ max_sequence_out r = ms0 /\
   reused r = None).
Proof.
  intros Hp H.
  destruct (ok (open_status env)) eqn:Ho.
  - split; [|discriminate].
    destruct (RecoverLogFile_shape _ _ _ _ _ _ _ _ _ _ _ Ho H)
      as (extra & flush & Ht & _ & _ & _ & _ & Hf).
    rewrite Hp in Ht, Hf.
    set (l := read_records false _ env (reads env) 0 _) in *.
    assert (Hb : blamed env (status l) (calls l)).
    { apply read_records_blamed. left. exact Ho. }
    rewrite Ht.
    destruct flush as [records|].
    + destruct Hf as (_ & _ & _ & -> & _). right. exists records.
      split; [|reflexivity]. rewrite !elem_of_app. right. right.
      apply list_elem_of_here.
    + destruct Hf as (-> & _). now apply blamed_more.
  - unfold RecoverLogFile in H. rewrite Ho, Hp in H. cbn [negb] in H.
    injection H as <-. cbn.
    assert (Hi : MaybeIgnoreError false (open_status env) = OK).
    { unfold MaybeIgnoreError. now rewrite Ho. }
    rewrite Hi. split; [now left|]. intros _. repeat split.
Qed.

(** When a log that could be opened has been replayed with success,
    nothing read from it is lost: every record large enough to hold a
    batch has been inserted, in the order read, and every record
    inserted is in a table written by [WriteLevel0Table] or in the
    MemTable handed to [mem_] for a reused log.  [*max_sequence] has
    not decreased; [*save_manifest] is set as soon as a table has been
    written; and the log is reused only when [reuse_logs] is set, it is
    the last log, and no table has been written from it. *)
Theorem RecoverLogFile_keeps_records NDEBUG options_ ln lg mn env log_number
    last_log sm0 ms0 r :
  RecoverLogFile NDEBUG options_ ln lg mn env log_number last_log sm0 ms0
    = Val r ->
  ok (open_status env) = true -> ok (returned r) = true ->
  inserted (trace r) = proper 0 (reads env) /\
  inserted (trace r) = (flushed (trace r) ++ default [] (reused r))%list /\
  ms0 <= max_sequence_out r /\
  save_manifest_out r = sm0 || wrote (trace r) /\
  (reused r <> None ->
   Sanitize.reuse_logs options_ = true /\ last_log = true /\
   wrote (trace r) = false).
Proof.
  intros H Ho Hr.
  destruct (RecoverLogFile_shape _ _ _ _ _ _ _ _ _ _ _ Ho H)
    as (extra & flush & Ht & Hi & Hf & Hw & Hm & Hcase).
  set (l := read_records _ _ env (reads env) 0 _) in *.
  assert (Hc : consistent sm0 l).
  { apply read_records_consistent. unfold consistent. cbn.
    repeat split; [lia | now rewrite orb_false_r]. }
  destruct Hc as (C1 & C2 & C3 & C4).
  assert (Hmax : ms0 <= max_sequence l).
  { pose proof (read_records_max (Sanitize.paranoid_checks options_)
                  (Sanitize.write_buffer_size options_) env (reads env) 0
                  {| status := open_status env; mem := None; compactions := 0;
                     save_manifest := sm0; max_sequence := ms0;
                     calls := [NewSequentialFile log_number] |}) as Hx.
    exact Hx. }
  assert (Hall : ok (status l) = true ->
                 inserted (calls l) = proper 0 (reads env)).
  { intros Hs. unfold l. rewrite read_records_all by exact Hs. reflexivity. }
  rewrite Ht, Hm, !inserted_app, !flushed_app, !wrote_app, Hi, Hf, Hw.
  destruct flush as [records|].
  - destruct Hcase as (Em & -> & Es & _ & ->).
    cbn. rewrite !app_nil_r, !orb_true_r.
    split; [exact (Hall Es)|].
    split; [rewrite C1, Em; reflexivity|].
    split; [exact Hmax|]. split; [reflexivity|]. congruence.
  - destruct Hcase as (Hret & -> & Hcase). rewrite Hret in Hr.
    cbn. rewrite !app_nil_r, !orb_false_r.
    split; [exact (Hall Hr)|].
    destruct Hcase as [(-> & [Em | Es]) | (-> & _ & E2 & E3 & E4)].
    + rewrite C1, Em. cbn. rewrite !app_nil_r.
      split; [reflexivity|]. split; [exact Hmax|]. split; [exact C4|].
      congruence.
    + congruence.
    + split; [exact C1|]. split; [exact Hmax|]. split; [exact C4|].
      intros _. split; [exact E2|]. split; [exact E3 | exact (C3 E4)].
Qed.

End LogRecoveryFacts.

Section LogRecoveryExamplesFacts.
Import Int LogRecovery LogRecoveryExamples.

Lemma RecoverLogFile_ignores_errors_witness :
  blamed log_damaged OK (trace replayed_damaged).
Proof.
  apply (RecoverLogFile_ignores_errors false Sanitize.default_options
           true true true log_damaged 7 false false 0 replayed_damaged).
  - reflexivity.
  - vm_compute. reflexivity.
Defined.

Lemma RecoverLogFile_keeps_records_witness :
  inserted (trace replayed_damaged) = [0%nat; 2%nat] /\
  flushed (trace replayed_damaged) = [0%nat; 2%nat].
Proof.
  destruct (RecoverLogFile_keeps_records false Sanitize.default_options
              true true true log_damaged 7 false false 0 replayed_damaged)
    as (H1 & H2 & _).
  - vm_compute. reflexivity.
  - reflexivity.
  - reflexivity.
  - split; [exact H1 | reflexivity].
Defined.

End LogRecoveryExamplesFacts.

(** ** Compaction *)

Section CompactionFacts.
Import Int Compact.

Lemma added_app a b : added (a ++ b) = (added a ++ added b)%list.
Proof. apply omap_app. Qed.

Lemma OpenCompactionOutputFile_frame nd env c s c1 calls1 :
  OpenCompactionOutputFile nd env c = Val (s, c1, calls1) ->
  smallest_snapshot c1 = smallest_snapshot c /\ added calls1 = [].
Proof.
  unfold OpenCompactionOutputFile, assert_, bind.
  destruct (nd || _); [|discriminate]. intros [= <- <- <-]. split; reflexivity.
Qed.

Lemma FinishCompactionOutputFile_frame nd env c input s c1 calls1 :
  FinishCompactionOutputFile nd env c input = Val (s, c1, calls1) ->
  smallest_snapshot c1 = smallest_snapshot c /\ added calls1 = [].
Proof.
  unfold FinishCompactionOutputFile, assert_, bind.
  destruct (nd || outfile c); [|discriminate].
  destruct (nd || bool_decide _); [|discriminate].
  destruct (last (outputs c)); [|discriminate].
  destruct (nd || negb _); [|discriminate].
  destruct (builder c); [|discriminate].
  destruct (ok _ && negb (outfile c)); [discriminate|].
  intros [= <- <- <-]. split; [reflexivity|].
  destruct (ok input); reflexivity.
Qed.

Lemma same_scan_refl l : same_scan l l.
Proof. repeat split. Qed.

Lemma same_scan_trans a b c : same_scan a b -> same_scan b c -> same_scan a c.
Proof.
  intros (A1 & A2 & A3 & A4 & A5) (B1 & B2 & B3 & B4 & B5).
  unfold same_scan. repeat split; congruence.
Qed.

Lemma same_scan_with_compact s c calls1 l :
  smallest_snapshot c = smallest_snapshot (compact l) ->
  added calls1 = [] ->
  same_scan l (with_compact (s, c, calls1) l).
Proof.
  intros H1 H2. unfold same_scan, with_compact. cbn.
  rewrite added_app, H2, app_nil_r. auto.
Qed.

Lemma stop_before_scan nd env it l l1 :
  stop_before nd env it l = Val l1 -> same_scan l l1.
Proof.
  unfold stop_before, bind.
  destruct (_ && _); [|intros [= <-]; apply same_scan_refl].
  destruct (FinishCompactionOutputFile _ _ _ _) as [[[s c] calls1]|] eqn:E;
    [|discriminate].
  intros [= <-].
  destruct (FinishCompactionOutputFile_frame _ _ _ _ _ _ _ E).
  now apply same_scan_with_compact.
Qed.

Lemma close_if_full_scan nd env it l l1 :
  close_if_full nd env it l = Val l1 -> same_scan l l1.
Proof.
  unfold close_if_full, bind.
  destruct (full it); [|intros [= <-]; apply same_scan_refl].
  destruct (FinishCompactionOutputFile _ _ _ _) as [[[s c] calls1]|] eqn:E;
    [|discriminate].
  intros [= <-].
  destruct (FinishCompactionOutputFile_frame _ _ _ _ _ _ _ E).
  now apply same_scan_with_compact.
Qed.

Lemma open_output_scan nd env l l1 :
  open_output nd env l = Val l1 -> same_scan l l1.
Proof.
  unfold open_output, bind.
  destruct (builder (compact l)); [intros [= <-]; apply same_scan_refl|].
  destruct (OpenCompactionOutputFile _ _ _) as [[[s c] calls1]|] eqn:E;
    [|discriminate].
  intros [= <-].
  destruct (OpenCompactionOutputFile_frame _ _ _ _ _ _ E).
  now apply same_scan_with_compact.
Qed.

Lemma add_entry_scan it l l1 :
  add_entry it l = Val l1 ->
  smallest_snapshot (compact l1) = smallest_snapshot (compact l) /\
  current_user_key l1 = current_user_key l /\
  has_current_user_key l1 = has_current_user_key l /\
  last_sequence_for_key l1 = last_sequence_for_key l /\
  added (calls l1) = (added (calls l) ++ [(key it, value it)])%list.
Proof.
  unfold add_entry.
  destruct (builder (compact l)); [|discriminate].
  destruct (last (outputs (compact l))); [|discriminate].
  intros [= <-]. cbn. rewrite added_app. repeat split.
Qed.

Lemma work_keeps kMax nd env items : forall l l1,
  work kMax nd env items l = Val l1 ->
  ok (status l1) = true ->
  Forall (fun it => shutting_down it = false) items ->
  smallest_snapshot (compact l1) = smallest_snapshot (compact l) /\
  added (calls l1)
    = (added (calls l)
       ++ kept kMax env (smallest_snapshot (compact l)) items
            (current_user_key l) (has_current_user_key l)
            (last_sequence_for_key l))%list.
Proof.
  induction items as [|it rest IH]; intros l l1 Hw Hok Hsd;
    cbn [work kept] in *.
  - injection Hw as <-. split; [reflexivity|]. now rewrite app_nil_r.
  - apply Forall_cons in Hsd as [Hs Hsd]. rewrite Hs in Hw.
    set (la := if imm_pending it then _ else l) in Hw.
    assert (Ha : same_scan l la).
    { subst la. destruct (imm_pending it); [|apply same_scan_refl].
      unfold same_scan. cbn. rewrite added_app. cbn. rewrite app_nil_r. auto. }
    clearbody la. unfold bind in Hw.
    destruct (stop_before nd env it la) as [lb|] eqn:Eb; [|discriminate].
    pose proof (same_scan_trans _ _ _ Ha (stop_before_scan _ _ _ _ _ Eb))
      as (B1 & B2 & B3 & B4 & B5).
    destruct (ok (status lb)) eqn:Esb; cbn [negb] in Hw;
      [|injection Hw as <-; congruence].
    rewrite B1, B2, B3, B4 in Hw.
    destruct (decide kMax env (smallest_snapshot (compact l)) (key it)
                (current_user_key l) (has_current_user_key l)
                (last_sequence_for_key l)) as [drop [[cuk has] last_seq]].
    destruct drop.
    + destruct (IH _ _ Hw Hok Hsd) as [I1 I2].
      cbn [compact calls current_user_key has_current_user_key
           last_sequence_for_key] in I1, I2.
      split; [congruence|]. rewrite I2, B1, B5. reflexivity.
    + destruct (open_output nd env _) as [l3|] eqn:E3; [|discriminate].
      pose proof (open_output_scan _ _ _ _ E3) as (C1 & C2 & C3 & C4 & C5).
      cbn [compact calls current_user_key has_current_user_key
           last_sequence_for_key] in C1, C2, C3, C4, C5.
      destruct (ok (status l3)) eqn:Es3; cbn [negb] in Hw;
        [|injection Hw as <-; congruence].
      destruct (add_entry it l3) as [l4|] eqn:E4; [|discriminate].
      destruct (add_entry_scan _ _ _ E4) as (D1 & D2 & D3 & D4 & D5).
      destruct (close_if_full nd env it l4) as [l5|] eqn:E5;
        [|discriminate].
      pose proof (close_if_full_scan _ _ _ _ _ E5) as (G1 & G2 & G3 & G4 & G5).
      destruct (ok (status l5)) eqn:Es5; cbn [negb] in Hw;
        [|injection Hw as <-; congruence].
      destruct (IH _ _ Hw Hok Hsd) as [I1 I2].
      split; [congruence|].
      rewrite I2, G1, G2, G3, G4, G5, D1, D2, D3, D4, D5, C1, C2, C3, C4, C5,
        B1, B5.
      rewrite <- app_assoc. reflexivity.
Qed.

Lemma read_cons_unseen k s e r :
  seen k s e = false -> read k s (e :: r) = read k s r.
Proof. intros H. unfold read. cbn [find]. now rewrite H. Qed.

Lemma read_absent k s r :
  Forall (fun e => seen k s e = false) r -> read k s r = None.
Proof.
  induction 1 as [|e r He _ IH]; [reflexivity|].
  now rewrite read_cons_unseen.
Qed.

Lemma seen_other k s u q t v :
  u <> k -> seen k s (Parsed u q t, v) = false.
Proof.
  intros H. unfold seen. cbn.
  destruct (String.eqb_spec u k); [contradiction | reflexivity].
Qed.

Lemma kept_preserves_reads kMax env smallest (lt : string -> string -> Prop) :
  (forall x, ~ lt x x) -> (forall x y z, lt x y -> lt y z -> lt x z) ->
  smallest < kMax ->
  forall items prev k s,
  Forall (fun it => parsed (key it) = true) items ->
  sorted lt (from_option (fun p => [Parsed p.1 p.2 kTypeValue]) [] prev
             ++ (key <$> items)) ->
  smallest <= s ->
  let run :=
    kept kMax env smallest items (scan_after kMax prev).1.1
      (scan_after kMax prev).1.2 (scan_after kMax prev).2 in
  (hidden smallest prev k -> read k s run = None) /\
  (~ hidden smallest prev k -> read k s run = read k s (entries items)).
Proof.
  intros Hirr Htr Hmax. induction items as [|it rest IH];
    intros prev k s Hp Hso Hs; cbv zeta.
  - split; reflexivity.
  - apply Forall_cons in Hp as [Hpi Hp].
    destruct (key it) as [u q t|] eqn:Ek; [|discriminate]. clear Hpi.
    rewrite fmap_cons, Ek in Hso.
    assert (Hnext : sorted lt (from_option
                      (fun p => [Parsed p.1 p.2 kTypeValue]) []
                      (Some (u, q)) ++ (key <$> rest))).
    { cbn. destruct prev as [[u0 q0]|]; cbn in Hso.
      - destruct Hso as [_ [H1 H2]]. split; [|exact H2].
        eapply Forall_impl; [exact H1|]. intros [] Hx; exact Hx.
      - destruct Hso as [H1 H2]. split; [|exact H2].
        eapply Forall_impl; [exact H1|]. intros [] Hx; exact Hx. }
    specialize (IH (Some (u, q)) k s Hp Hnext Hs). cbv zeta in IH.
    cbn [scan_after fst snd] in IH. destruct IH as [IH1 IH2].
    cbn [kept]. rewrite Ek. unfold entries. rewrite fmap_cons, Ek.
    fold (entries rest).
    (* the locals after the entry *)
    assert (Hstate :
      forall cuk has lastq,
        (cuk, has, lastq) = scan_after kMax prev ->
        exists drop,
          decide kMax env smallest (Parsed u q t) cuk has lastq
            = (drop, (u, true, q)) /\
          (hidden smallest prev u -> drop = true /\ q <= smallest) /\
          (~ hidden smallest prev u ->
           drop = match t with
                  | kTypeDeletion =>
                      (q <=? smallest) && IsBaseLevelForKey env u
                  | kTypeValue => false
                  end)).
    { intros cuk has lastq Hst. unfold decide.
      destruct prev as [[u0 q0]|]; cbn in Hst; injection Hst as -> -> ->.
      - cbn [negb orb].
        destruct (String.eqb_spec u u0) as [-> | Hne]; cbn [negb].
        + assert (Hq : q < q0).
          { cbn in Hso. destruct Hso as [Hf _]. apply Forall_cons in Hf as [Hf _].
            cbn in Hf. destruct Hf as [Hf | [_ Hf]]; [|exact Hf].
            now destruct (Hirr u0). }
          eexists. split; [reflexivity|]. split.
          * intros [_ Hq0]. rewrite (proj2 (Z.leb_le _ _) Hq0).
            split; [reflexivity | lia].
          * intros Hn. destruct (Z.leb_spec q0 smallest); [|reflexivity].
            exfalso. apply Hn. split; [reflexivity | assumption].
        + eexists. split; [reflexivity|]. split.
          * intros [Hu _]. congruence.
          * intros _. rewrite (proj2 (Z.leb_gt _ _)) by lia. reflexivity.
      - cbn [negb orb]. eexists. split; [reflexivity|]. split.
        + intros [].
        + intros _. rewrite (proj2 (Z.leb_gt _ _)) by lia. reflexivity. }
    destruct (Hstate (scan_after kMax prev).1.1 (scan_after kMax prev).1.2
                (scan_after kMax prev).2) as (drop & -> & Hh & Hn).
    { now destruct (scan_after kMax prev) as [[? ?] ?]. }
    destruct (String.eqb_spec u k) as [-> | Hne].
    + (* an entry of the key read *)
      split.
      * intros Hhid. destruct (Hh Hhid) as [-> Hq].
        apply IH1. split; [reflexivity | exact Hq].
      * intros Hnot. rewrite (Hn Hnot).
        destruct (Z.leb_spec q s) as [Hvis | Hinv].
        -- assert (Hseen : forall v, seen k s (Parsed k q t, v) = true).
           { intros v. unfold seen. cbn. rewrite String.eqb_refl.
             now rewrite (proj2 (Z.leb_le _ _) Hvis). }
           destruct t.
           ++ destruct ((q <=? smallest) && IsBaseLevelForKey env k) eqn:Ed.
              ** apply andb_true_iff in Ed as [Ed _]. apply Z.leb_le in Ed.
                 rewrite IH1 by (split; [reflexivity | exact Ed]).
                 unfold read. cbn [find]. now rewrite Hseen.
              ** unfold read. cbn [find]. now rewrite !Hseen.
           ++ unfold read. cbn [find]. now rewrite !Hseen.
        -- assert (Hunseen : forall v, seen k s (Parsed k q t, v) = false).
           { intros v. unfold seen. cbn. rewrite String.eqb_refl.
             now rewrite (proj2 (Z.leb_gt _ _) Hinv). }
           assert (Hd : match t with
                        | kTypeDeletion =>
                            (q <=? smallest) && IsBaseLevelForKey env k
                        | kTypeValue => false
                        end = false).
           { destruct t; [|reflexivity].
             rewrite (proj2 (Z.leb_gt _ _)) by lia. reflexivity. }
           rewrite Hd, !read_cons_unseen by apply Hunseen.
           apply IH2. intros [_ Hq]. lia.
    + (* an entry of another key *)
      assert (Hunseen : forall v, seen k s (Parsed u q t, v) = false)
        by (intros v; now apply seen_other).
      assert (Hrun : read k s
                (if drop
                 then kept kMax env smallest rest u true q
                 else (Parsed u q t, value it)
                      :: kept kMax env smallest rest u true q)
              = read k s (kept kMax env smallest rest u true q)).
      { destruct drop; [reflexivity|]. now rewrite read_cons_unseen. }
      rewrite Hrun, read_cons_unseen by apply Hunseen.
      assert (Hnh : ~ hidden smallest (Some (u, q)) k)
        by (intros [Hu _]; congruence).
      split; [|intros _; now apply IH2].
      intros Hhid. rewrite (IH2 Hnh).
      (* the key read lies before the entry: nothing of it follows *)
      destruct prev as [[u0 q0]|]; [|destruct Hhid].
      destruct Hhid as [-> _].
      cbn in Hso. destruct Hso as [Hf [Hg _]]. apply Forall_cons in Hf as [Hf _].
      cbn in Hf. destruct Hf as [Hlt | [Hf _]]; [|congruence].
      apply read_absent. unfold entries. apply Forall_fmap.
      rewrite Forall_fmap in Hg. eapply Forall_impl; [exact Hg|].
      intros x Hx. cbn in Hx |- *. unfold seen. cbn.
      destruct (key x) as [ux qx tx|]; [|reflexivity].
      destruct (String.eqb_spec ux k) as [-> | ]; [|reflexivity].
      exfalso. destruct Hx as [Hx | [Hx _]]; [|congruence].
      exact (Hirr k (Htr _ _ _ Hlt Hx)).
Qed.

Lemma kept_keeps_recent kMax env smallest (lt : string -> string -> Prop) :
  (forall x, ~ lt x x) ->
  smallest < kMax ->
  forall items prev u q t v,
  sorted lt (from_option (fun p => [Parsed p.1 p.2 kTypeValue]) [] prev
             ++ (key <$> items)) ->
  (Parsed u q t, v) ∈ entries items -> smallest < q ->
  (Parsed u q t, v)
    ∈ kept kMax env smallest items (scan_after kMax prev).1.1
        (scan_after kMax prev).1.2 (scan_after kMax prev).2.
Proof.
  intros Hirr Hmax. induction items as [|it rest IH];
    intros prev u q t v Hso Hin Hq.
  - inversion Hin.
  - unfold entries in Hin. rewrite fmap_cons in Hin. fold (entries rest) in Hin.
    rewrite fmap_cons in Hso. cbn [kept].
    destruct (key it) as [u1 q1 t1|raw] eqn:Ek.
    + assert (Hnext : sorted lt (from_option
                        (fun p => [Parsed p.1 p.2 kTypeValue]) []
                        (Some (u1, q1)) ++ (key <$> rest))).
      { cbn. destruct prev as [[u0 q0]|]; cbn in Hso.
        - destruct Hso as [_ [H1 H2]]. split; [|exact H2].
          eapply Forall_impl; [exact H1|]. intros [] Hx; exact Hx.
        - destruct Hso as [H1 H2]. split; [|exact H2].
          eapply Forall_impl; [exact H1|]. intros [] Hx; exact Hx. }
      assert (Hdec : exists drop,
                decide kMax env smallest (Parsed u1 q1 t1)
                  (scan_after kMax prev).1.1 (scan_after kMax prev).1.2
                  (scan_after kMax prev).2 = (drop, (u1, true, q1)) /\
                (smallest < q1 -> drop = false)).
      { unfold decide. destruct prev as [[u0 q0]|]; cbn [scan_after fst snd].
        - cbn [negb orb].
          destruct (String.eqb_spec u1 u0) as [-> | Hne]; cbn [negb].
          + assert (Hlt : q1 < q0).
            { cbn in Hso. destruct Hso as [Hf _].
              apply Forall_cons in Hf as [Hf _]. cbn in Hf.
              destruct Hf as [Hf | [_ Hf]]; [|exact Hf].
              now destruct (Hirr u0). }
            eexists. split; [reflexivity|]. intros H1.
            rewrite (proj2 (Z.leb_gt _ _)) by lia.
            destruct t1; [|reflexivity].
            rewrite (proj2 (Z.leb_gt _ _)) by lia. reflexivity.
          + eexists. split; [reflexivity|]. intros H1.
            rewrite (proj2 (Z.leb_gt _ _)) by lia.
            destruct t1; [|reflexivity].
            rewrite (proj2 (Z.leb_gt _ _)) by lia. reflexivity.
        - cbn [negb orb]. eexists. split; [reflexivity|]. intros H1.
          rewrite (proj2 (Z.leb_gt _ _)) by lia.
          destruct t1; [|reflexivity].
          rewrite (proj2 (Z.leb_gt _ _)) by lia. reflexivity. }
      destruct Hdec as (drop & -> & Hdrop).
      apply elem_of_cons in Hin as [Hin | Hin].
      * injection Hin as -> -> -> ->. rewrite (Hdrop Hq).
        apply list_elem_of_here.
      * specialize (IH (Some (u1, q1)) u q t v Hnext Hin Hq).
        cbn [scan_after fst snd] in IH.
        destruct drop; [exact IH | now apply list_elem_of_further].
    + (* a key that does not parse has no place in a sorted input *)
      exfalso. destruct prev as [[u0 q0]|]; cbn in Hso.
      * destruct Hso as [Hf _]. apply Forall_cons in Hf as [Hf _]. exact Hf.
      * destruct Hso as [Hf _]. apply elem_of_cons in Hin as [Hin | Hin];
          [discriminate|].
        unfold entries in Hin. apply list_elem_of_fmap in Hin as (x & Hx & Hxin).
        rewrite Forall_fmap in Hf. rewrite Forall_forall in Hf.
        exact (Hf x Hxin).
Qed.

Lemma extends_refl l : extends l l.
Proof. exists []. split; [now rewrite app_nil_r | constructor]. Qed.

Lemma extends_trans a b c : extends a b -> extends b c -> extends a c.
Proof.
  intros (m1 & H1 & F1) (m2 & H2 & F2). exists (m1 ++ m2)%list.
  split; [rewrite H2, H1; now rewrite app_assoc | now apply Forall_app].
Qed.

Lemma FinishCompactionOutputFile_calls nd env c input s c1 calls1 :
  FinishCompactionOutputFile nd env c input = Val (s, c1, calls1) ->
  Forall (fun x => loop_call x = true) calls1 /\
  builder c1 = None /\ outfile c1 = false.
Proof.
  unfold FinishCompactionOutputFile, assert_, bind.
  destruct (nd || outfile c); [|discriminate].
  destruct (nd || bool_decide _); [|discriminate].
  destruct (last (outputs c)); [|discriminate].
  destruct (nd || negb _); [|discriminate].
  destruct (builder c); [|discriminate].
  destruct (ok _ && negb (outfile c)); [discriminate|].
  intros [= <- <- <-]. split; [|split; reflexivity].
  destruct (ok input); repeat constructor.
Qed.

Lemma OpenCompactionOutputFile_calls nd env c s c1 calls1 :
  OpenCompactionOutputFile nd env c = Val (s, c1, calls1) ->
  Forall (fun x => loop_call x = true) calls1.
Proof.
  unfold OpenCompactionOutputFile, assert_, bind.
  destruct (nd || _); [|discriminate]. intros [= <- <- <-].
  repeat constructor.
Qed.

Lemma extends_with_compact r l :
  Forall (fun x => loop_call x = true) r.2 -> extends l (with_compact r l).
Proof. intros H. exists r.2. split; [reflexivity | exact H]. Qed.

Lemma stop_before_extends nd env it l l1 :
  stop_before nd env it l = Val l1 -> extends l l1.
Proof.
  unfold stop_before, bind.
  destruct (_ && _); [|intros [= <-]; apply extends_refl].
  destruct (FinishCompactionOutputFile _ _ _ _) as [[[s c] calls1]|] eqn:E;
    [|discriminate].
  intros [= <-]. apply extends_with_compact.
  now destruct (FinishCompactionOutputFile_calls _ _ _ _ _ _ _ E).
Qed.

Lemma close_if_full_extends nd env it l l1 :
  close_if_full nd env it l = Val l1 -> extends l l1.
Proof.
  unfold close_if_full, bind.
  destruct (full it); [|intros [= <-]; apply extends_refl].
  destruct (FinishCompactionOutputFile _ _ _ _) as [[[s c] calls1]|] eqn:E;
    [|discriminate].
  intros [= <-]. apply extends_with_compact.
  now destruct (FinishCompactionOutputFile_calls _ _ _ _ _ _ _ E).
Qed.

Lemma open_output_extends nd env l l1 :
  open_output nd env l = Val l1 -> extends l l1.
Proof.
  unfold open_output, bind.
  destruct (builder (compact l)); [intros [= <-]; apply extends_refl|].
  destruct (OpenCompactionOutputFile _ _ _) as [[[s c] calls1]|] eqn:E;
    [|discriminate].
  intros [= <-]. apply extends_with_compact.
  exact (OpenCompactionOutputFile_calls _ _ _ _ _ _ E).
Qed.

Lemma add_entry_extends it l l1 : add_entry it l = Val l1 -> extends l l1.
Proof.
  unfold add_entry.
  destruct (builder (compact l)); [|discriminate].
  destruct (last (outputs (compact l))); [|discriminate].
  intros [= <-]. eexists. split; [reflexivity|]. repeat constructor.
Qed.

Lemma work_extends kMax nd env items :
  Forall (fun it => imm_pending it = false) items ->
  forall l l1, work kMax nd env items l = Val l1 -> extends l l1.
Proof.
  induction items as [|it rest IH]; intros Hq l l1 Hw; cbn [work] in Hw.
  - injection Hw as <-. apply extends_refl.
  - apply Forall_cons in Hq as [Hit Hq]. specialize (IH Hq).
    destruct (shutting_down it); [injection Hw as <-; apply extends_refl|].
    rewrite Hit in Hw.
    pose (la := l). change l with la in Hw at 1.
    assert (Ha : extends l la) by apply extends_refl.
    clearbody la. unfold bind in Hw.
    destruct (stop_before nd env it la) as [lb|] eqn:Eb; [|discriminate].
    pose proof (extends_trans _ _ _ Ha (stop_before_extends _ _ _ _ _ Eb)) as Hb.
    destruct (ok (status lb)); cbn [negb] in Hw; [|injection Hw as <-; exact Hb].
    destruct (decide kMax env _ _ _ _ _) as [drop [[cuk has] last_seq]].
    match type of Hw with
    | context [work kMax nd env rest ?l2] =>
        assert (H2 : extends l l2) by exact Hb
    end.
    destruct drop; [exact (extends_trans _ _ _ H2 (IH _ _ Hw))|].
    destruct (open_output nd env _) as [l3|] eqn:E3; [|discriminate].
    pose proof (extends_trans _ _ _ H2 (open_output_extends _ _ _ _ E3)) as H3.
    destruct (ok (status l3)); cbn [negb] in Hw; [|injection Hw as <-; exact H3].
    destruct (add_entry it l3) as [l4|] eqn:E4; [|discriminate].
    pose proof (extends_trans _ _ _ H3 (add_entry_extends _ _ _ E4)) as H4.
    destruct (close_if_full nd env it l4) as [l5|] eqn:E5; [|discriminate].
    pose proof (extends_trans _ _ _ H4 (close_if_full_extends _ _ _ _ _ E5))
      as H5.
    destruct (ok (status l5)); cbn [negb] in Hw; [|injection Hw as <-; exact H5].
    exact (extends_trans _ _ _ H5 (IH _ _ Hw)).
Qed.

Lemma kept_sublist kMax env smallest items : forall cuk has lastq,
  kept kMax env smallest items cuk has lastq `sublist_of` entries items.
Proof.
  induction items as [|it rest IH]; intros cuk has lastq; cbn [kept].
  - constructor.
  - destruct (decide _ _ _ _ _ _ _) as [drop [[c h] q]].
    unfold entries. rewrite fmap_cons. fold (entries rest).
    destruct drop; [apply sublist_cons | apply sublist_skip]; apply IH.
Qed.

Lemma DoCompactionWork_added kMax nd env compact0 items s c calls :
  DoCompactionWork kMax nd env compact0 items = Val (s, c, calls) ->
  ok s = true ->
  (forall it, it ∈ items -> shutting_down it = true ->
     shutting_down_after env = true) ->
  smallest_snapshot c
    = match snapshots_ env with
      | [] => LastSequence env
      | oldest :: _ => oldest
      end /\
  added calls = kept kMax env (smallest_snapshot c) items "" false kMax.
Proof.
  intros Hrun Hok Hmono.
  unfold DoCompactionWork, assert_, bind in Hrun.
  destruct (nd || NumLevelFiles_positive env); [|discriminate].
  destruct (nd || bool_decide (builder compact0 = None)); [|discriminate].
  destruct (nd || negb (outfile compact0)); [|discriminate].
  destruct (work kMax nd env items _) as [l|] eqn:Ew; [|discriminate].
  set (status1 := if ok (status l) && shutting_down_after env
                  then IOError "Deleting DB during compaction"
                  else status l) in Hrun.
  assert (Hfin : exists status2 c2 calls2,
            (if ok status1 && bool_decide (builder (compact l) <> None)
             then FinishCompactionOutputFile nd env (compact l)
                    (final_input_status env)
             else Val (status1, compact l, []))
            = Val (status2, c2, calls2) /\
            smallest_snapshot c2 = smallest_snapshot (compact l) /\
            added calls2 = [] /\ (ok status2 = true -> ok status1 = true)).
  { destruct (ok status1 && bool_decide (builder (compact l) <> None)) eqn:E.
    - destruct (FinishCompactionOutputFile nd env (compact l)
                  (final_input_status env)) as [[[s2 c2] calls2]|] eqn:Ef;
        [|discriminate].
      destruct (FinishCompactionOutputFile_frame _ _ _ _ _ _ _ Ef) as [F1 F2].
      exists s2, c2, calls2. repeat split; try assumption.
      intros _. now apply andb_true_iff in E as [E _].
    - exists status1, (compact l), []. repeat split. auto. }
  destruct Hfin as (status2 & c2 & calls2 & Efin & Hsm & Hadd & Hs21).
  rewrite Efin in Hrun.
  injection Hrun as <- <- <-.
  assert (Hs3 : ok (if ok status2 then final_input_status env else status2)
                = true).
  { destruct (ok (if ok status2 then final_input_status env else status2))
      eqn:E; [reflexivity|]. rewrite E in Hok. congruence. }
  assert (Hs2 : ok status2 = true).
  { destruct (ok status2) eqn:E; [reflexivity | congruence]. }
  assert (Hs1 : ok (status l) = true /\ shutting_down_after env = false).
  { specialize (Hs21 Hs2). subst status1.
    destruct (ok (status l)) eqn:E1; cbn in Hs21; [|congruence].
    destruct (shutting_down_after env); cbn in Hs21; [discriminate | auto]. }
  destruct Hs1 as [Hsl Hafter].
  assert (Hsd : Forall (fun it => shutting_down it = false) items).
  { apply Forall_forall. intros it Hit.
    destruct (shutting_down it) eqn:E; [|reflexivity].
    rewrite (Hmono it Hit E) in Hafter. discriminate. }
  destruct (work_keeps _ _ _ _ _ _ Ew Hsl Hsd) as [W1 W2].
  cbn [compact calls current_user_key has_current_user_key
       last_sequence_for_key smallest_snapshot] in W1, W2.
  rewrite Hsm, W1.
  split; [reflexivity|].
  assert (Hcalls : added (calls l ++ calls2 ++
                     (if ok (if ok status2 then final_input_status env
                             else status2)
                      then [InstallCompactionResults (number <$> outputs c2)]
                      else []) ++
                     (if ok (if ok (if ok status2 then final_input_status env
                                    else status2)
                             then install_status env
                             else if ok status2 then final_input_status env
                                  else status2)
                      then []
                      else [RecordBackgroundError
                              (if ok (if ok status2
                                      then final_input_status env
                                      else status2)
                               then install_status env
                               else if ok status2 then final_input_status env
                                    else status2)]))
                   = added (calls l)).
  { rewrite !added_app, Hadd.
    repeat match goal with
           | |- context [added (if ?b then _ else _)] => destruct b
           end; cbn; now rewrite ?app_nil_r. }
  rewrite Hcalls, W2. reflexivity.
Qed.

(** A compaction that succeeds does not change what a read sees.  When
    [DoCompactionWork] returns OK on an input whose keys all parse and
    are sorted (ascending user key, then descending sequence number),
    then for every user key and every snapshot that is at least
    [smallest_snapshot], the read finds in the entries written to the
    output files what it found in the input: the same value, or nothing
    in both.  [smallest_snapshot] is the oldest snapshot, or the last
    sequence when there is none. *)
Theorem DoCompactionWork_preserves_reads kMax nd env compact0 items s c calls
    (lt : string -> string -> Prop) :
  DoCompactionWork kMax nd env compact0 items = Val (s, c, calls) ->
  ok s = true ->
  (forall it, it ∈ items -> shutting_down it = true ->
     shutting_down_after env = true) ->
  (forall x, ~ lt x x) -> (forall x y z, lt x y -> lt y z -> lt x z) ->
  Forall (fun it => parsed (key it) = true) items ->
  sorted lt (key <$> items) ->
  smallest_snapshot c < kMax ->
  smallest_snapshot c
    = match snapshots_ env with
      | [] => LastSequence env
      | oldest :: _ => oldest
      end /\
  forall k snapshot, smallest_snapshot c <= snapshot ->
    read k snapshot (added calls) = read k snapshot (entries items).
Proof.
  intros Hrun Hok Hmono Hirr Htr Hparsed Hsorted Hmax.
  destruct (DoCompactionWork_added _ _ _ _ _ _ _ _ Hrun Hok Hmono) as [Hs Ha].
  split; [exact Hs|]. intros k snapshot Hsnap. rewrite Ha.
  destruct (kept_preserves_reads kMax env _ lt Hirr Htr Hmax items None k
              snapshot Hparsed Hsorted Hsnap) as [_ H].
  apply H. intros [].
Qed.

(** A compaction that succeeds writes entries of its input, in their
    order, and keeps every entry newer than [smallest_snapshot]: on a
    sorted input, an entry whose sequence number is above
    [smallest_snapshot] is added to an output file, so later snapshots
    and iterators still find it. *)
Theorem DoCompactionWork_keeps_recent kMax nd env compact0 items s c calls
    (lt : string -> string -> Prop) :
  DoCompactionWork kMax nd env compact0 items = Val (s, c, calls) ->
  ok s = true ->
  (forall it, it ∈ items -> shutting_down it = true ->
     shutting_down_after env = true) ->
  (forall x, ~ lt x x) ->
  sorted lt (key <$> items) ->
  smallest_snapshot c < kMax ->
  added calls `sublist_of` entries items /\
  forall u q t v,
    (Parsed u q t, v) ∈ entries items -> smallest_snapshot c < q ->
    (Parsed u q t, v) ∈ added calls.
Proof.
  intros Hrun Hok Hmono Hirr Hsorted Hmax.
  destruct (DoCompactionWork_added _ _ _ _ _ _ _ _ Hrun Hok Hmono) as [_ Ha].
  rewrite Ha. split; [apply kept_sublist|].
  intros u q t v Hin Hq.
  exact (kept_keeps_recent kMax env _ lt Hirr Hmax items None u q t v
           Hsorted Hin Hq).
Qed.

(** How [DoCompactionWork] ends when no immutable MemTable is pending
    while it runs: [has_imm_] is not seen set at line 993, so that no
    flush is nested in the loop.  It installs its results only when
    everything before has succeeded, and then installs exactly the
    output files of the compaction, with no builder left open; a status
    that is not OK is always recorded as the background error, and
    nothing else is.  Once [shutting_down_] is set the compaction cannot
    succeed. *)
Theorem DoCompactionWork_installs_on_success kMax nd env compact0 items
    s c trace :
  Forall (fun it => imm_pending it = false) items ->
  DoCompactionWork kMax nd env compact0 items = Val (s, c, trace) ->
  (CompactMemTable ∉ trace) /\
  (forall e, RecordBackgroundError e ∈ trace <-> ok s = false /\ e = s) /\
  (forall files, InstallCompactionResults files ∈ trace ->
     files = number <$> outputs c /\ s = install_status env) /\
  (ok s = true ->
   InstallCompactionResults (number <$> outputs c) ∈ trace /\
   shutting_down_after env = false /\ ok (final_input_status env) = true /\
   builder c = None) /\
  (shutting_down_after env = true -> ok s = false).
Proof.
  intros Hquiet Hrun.
  unfold DoCompactionWork, assert_, bind in Hrun.
  destruct (nd || NumLevelFiles_positive env); [|discriminate].
  destruct (nd || bool_decide (builder compact0 = None)); [|discriminate].
  destruct (nd || negb (outfile compact0)); [|discriminate].
  destruct (work kMax nd env items _) as [l|] eqn:Ew; [|discriminate].
  destruct (work_extends _ _ _ _ Hquiet _ _ Ew) as (more & Hcalls & Hmore).
  cbn [calls app] in Hcalls.
  set (status1 := if ok (status l) && shutting_down_after env
                  then IOError "Deleting DB during compaction"
                  else status l) in Hrun.
  assert (Hfin : exists status2 c2 calls2,
            (if ok status1 && bool_decide (builder (compact l) <> None)
             then FinishCompactionOutputFile nd env (compact l)
                    (final_input_status env)
             else Val (status1, compact l, []))
            = Val (status2, c2, calls2) /\
            Forall (fun x => loop_call x = true) calls2 /\
            (ok status2 = true -> ok status1 = true /\ builder c2 = None)).
  { destruct (ok status1 && bool_decide (builder (compact l) <> None)) eqn:E.
    - destruct (FinishCompactionOutputFile nd env (compact l)
                  (final_input_status env)) as [[[s2 c2] calls2]|] eqn:Ef;
        [|discriminate].
      destruct (FinishCompactionOutputFile_calls _ _ _ _ _ _ _ Ef)
        as (F1 & F2 & _).
      exists s2, c2, calls2. split; [reflexivity|]. split; [exact F1|].
      intros _. split; [|exact F2]. now apply andb_true_iff in E as [E _].
    - exists status1, (compact l), []. split; [reflexivity|].
      split; [constructor|]. intros H. split; [exact H|].
      rewrite H in E. cbn in E.
      destruct (builder (compact l)); [|reflexivity].
      rewrite bool_decide_eq_true_2 in E by discriminate. discriminate. }
  destruct Hfin as (status2 & c2 & calls2 & Efin & Hc2 & Hs21).
  rewrite Efin in Hrun.
  set (status3 := if ok status2 then final_input_status env else status2)
    in Hrun.
  set (status4 := if ok status3 then install_status env else status3) in Hrun.
  injection Hrun as <- <- <-.
  assert (Hloop : forall x, x ∈ (calls l ++ calls2)%list -> loop_call x = true).
  { intros x Hx. rewrite Hcalls in Hx. apply elem_of_app in Hx as [Hx | Hx].
    - rewrite Forall_forall in Hmore. now apply Hmore.
    - rewrite Forall_forall in Hc2. now apply Hc2. }
  assert (Hfail : ok status4 = false -> ok status3 = false -> status4 = status3).
  { intros _ H. subst status4. now rewrite H. }
  assert (Hshut : shutting_down_after env = true -> ok status4 = false).
  { intros Hafter.
    assert (H1 : ok status1 = false).
    { subst status1. rewrite Hafter, andb_true_r.
      destruct (ok (status l)) eqn:E; [reflexivity | exact E]. }
    destruct (ok status2) eqn:E2; [destruct (Hs21 eq_refl); congruence|].
    assert (H3 : ok status3 = false) by (subst status3; now rewrite E2).
    subst status4. now rewrite H3. }
  split; [|split; [|split; [|split]]].
  - rewrite !elem_of_app. intros [Hx | [Hx | [Hx | Hx]]].
    + assert (H := Hloop _ (proj2 (elem_of_app _ _ _) (or_introl Hx))).
      discriminate.
    + assert (H := Hloop _ (proj2 (elem_of_app _ _ _) (or_intror Hx))).
      discriminate.
    + destruct (ok status3); [|inversion Hx].
      apply list_elem_of_singleton in Hx. discriminate.
    + destruct (ok status4); [inversion Hx|].
      apply list_elem_of_singleton in Hx. discriminate.
  - intros e. rewrite !elem_of_app. split.
    + intros [Hx | [Hx | [Hx | Hx]]].
      * assert (H := Hloop _ (proj2 (elem_of_app _ _ _) (or_introl Hx))).
        discriminate.
      * assert (H := Hloop _ (proj2 (elem_of_app _ _ _) (or_intror Hx))).
        discriminate.
      * destruct (ok status3); [|inversion Hx].
        apply list_elem_of_singleton in Hx. discriminate.
      * destruct (ok status4) eqn:E4; [inversion Hx|].
        apply list_elem_of_singleton in Hx. injection Hx as ->.
        split; reflexivity.
    + intros [Hs ->]. do 3 right. rewrite Hs. apply list_elem_of_here.
  - intros files. rewrite !elem_of_app. intros [Hx | [Hx | [Hx | Hx]]].
    + assert (H := Hloop _ (proj2 (elem_of_app _ _ _) (or_introl Hx))).
      discriminate.
    + assert (H := Hloop _ (proj2 (elem_of_app _ _ _) (or_intror Hx))).
      discriminate.
    + destruct (ok status3) eqn:E3; [|inversion Hx].
      apply list_elem_of_singleton in Hx. injection Hx as ->.
      split; reflexivity.
    + destruct (ok status4); [inversion Hx|].
      apply list_elem_of_singleton in Hx. discriminate.
  - intros Hs4.
    assert (Hs3 : ok status3 = true).
    { destruct (ok status3) eqn:E; [reflexivity|].
      subst status4. rewrite E in Hs4. congruence. }
    assert (Hs2 : ok status2 = true).
    { destruct (ok status2) eqn:E; [reflexivity|].
      subst status3. rewrite E in Hs3. congruence. }
    destruct (Hs21 Hs2) as [Hs1 Hb].
    split.
    { rewrite !elem_of_app. do 2 right. left. rewrite Hs3.
      apply list_elem_of_here. }
    split.
    { destruct (shutting_down_after env); [|reflexivity].
      rewrite Hshut in Hs4 by reflexivity. discriminate. }
    split; [|exact Hb].
    subst status3. now rewrite Hs2 in Hs3.
  - exact Hshut.
Qed.

End CompactionFacts.

Section CompactionExamplesFacts.
Import Int Compact CompactExamples.

Lemma DoCompactionWork_preserves_reads_witness :
  read "a" 10 (added compaction_trace) = Some "new" /\
  read "bb" 10 (added compaction_trace) = None.
Proof.
  destruct (DoCompactionWork_preserves_reads kMaxSequenceNumber false quiet
              fresh input OK compacted compaction_trace shorter)
    as [_ H].
  - vm_compute. reflexivity.
  - reflexivity.
  - intros it Hit Hs. vm_compute in Hit.
    repeat (apply elem_of_cons in Hit as [-> | Hit]; [discriminate|]).
    inversion Hit.
  - unfold shorter. intros x. lia.
  - unfold shorter. intros x y z. lia.
  - repeat constructor.
  - unfold shorter. cbn. repeat split; repeat constructor; cbn; lia.
  - vm_compute. reflexivity.
  - split; [rewrite (H "a" 10) | rewrite (H "bb" 10)];
      try (vm_compute; discriminate); reflexivity.
Defined.

Lemma DoCompactionWork_keeps_recent_witness :
  added compaction_trace `sublist_of` entries input.
Proof.
  apply (DoCompactionWork_keeps_recent kMaxSequenceNumber false quiet
           fresh input OK compacted compaction_trace shorter).
  - vm_compute. reflexivity.
  - reflexivity.
  - intros it Hit Hs. vm_compute in Hit.
    repeat (apply elem_of_cons in Hit as [-> | Hit]; [discriminate|]).
    inversion Hit.
  - unfold shorter. intros x. lia.
  - unfold shorter. cbn. repeat split; repeat constructor; cbn; lia.
  - vm_compute. reflexivity.
Defined.

Lemma DoCompactionWork_installs_on_success_witness :
  InstallCompactionResults [12] ∈ compaction_trace /\
  builder compacted = None.
Proof.
  destruct (DoCompactionWork_installs_on_success kMaxSequenceNumber false
              quiet fresh input OK compacted compaction_trace)
    as (_ & _ & _ & H & _).
  - repeat constructor.
  - vm_compute. reflexivity.
  - destruct (H eq_refl) as (H1 & _ & _ & H2). split; [exact H1 | exact H2].
Defined.

End CompactionExamplesFacts.

